(** * Grist document core: TableData and SQLiteDB

    A shallow embedding of two classes of the repository,

    - [TableData] (the column-wise, in-memory store of one table), and
    - [SQLiteDB] (the promise-based wrapper around SQLite with schema
      versions, migrations and merged transactions),

    together with the properties of the design document that concern them.

    JavaScript objects that the code shares and mutates in place (the value
    arrays of the columns, the [ColData] records) live in an explicit heap and
    are named by references, so that aliasing is part of the model. *)

From stdpp Require Import gmap strings list fin_maps sorting pretty.
From Stdlib Require Import ZArith Lia.

Local Open Scope Z_scope.
Local Open Scope nat_scope.

(** ** JavaScript values held in cells *)

(** [CellValue] of [DocActions]: number, string, boolean, null, or an encoded
    object (a JavaScript array, compared by identity).  [Undefined] is what
    reading past the end of an array or a missing property yields.  Numbers
    are modelled by integers. *)
Inductive CellValue : Type :=
| Undefined
| VNull
| VBool (b : bool)
| VNum (n : Z)
| VStr (s : string)
| VObj (ref : positive).

Global Instance CellValue_eq_dec : EqDecision CellValue.
Proof. solve_decision. Defined.

Definition CellValue_to_sum (v : CellValue)
  : unit + (unit + (bool + (Z + (string + positive)))) :=
  match v with
  | Undefined => inl ()
  | VNull => inr (inl ())
  | VBool b => inr (inr (inl b))
  | VNum n => inr (inr (inr (inl n)))
  | VStr s => inr (inr (inr (inr (inl s))))
  | VObj r => inr (inr (inr (inr (inr r))))
  end.

Definition CellValue_of_sum
  (x : unit + (unit + (bool + (Z + (string + positive))))) : CellValue :=
  match x with
  | inl _ => Undefined
  | inr (inl _) => VNull
  | inr (inr (inl b)) => VBool b
  | inr (inr (inr (inl n))) => VNum n
  | inr (inr (inr (inr (inl s)))) => VStr s
  | inr (inr (inr (inr (inr r)))) => VObj r
  end.

Global Instance CellValue_countable : Countable CellValue.
Proof.
  apply (inj_countable' CellValue_to_sum CellValue_of_sum).
  intros []; reflexivity.
Defined.

Global Instance VNum_inj : Inj (=) (=) VNum.
Proof. intros x y. congruence. Qed.

(** Strict equality [===] on cell values. *)
Definition strict_eq (a b : CellValue) : bool := bool_decide (a = b).

(** ** JavaScript arrays *)

(** An array is the list of its elements; a hole reads as [Undefined] and is
    stored as such. *)

(** [a[i]] for an integer index: out of range yields [undefined]. *)
Definition arr_get (l : list CellValue) (i : Z) : CellValue :=
  if (i <? 0)%Z then Undefined else default Undefined (l !! Z.to_nat i).

(** [a[i] = v]: inside the array the element is replaced, past its end the
    array grows up to [i]. *)
Definition arr_set (l : list CellValue) (i : nat) (v : CellValue) : list CellValue :=
  if decide (i < length l) then <[i := v]> l
  else l ++ replicate (i - length l) Undefined ++ [v].

(** [a.pop()]. *)
Definition arr_pop (l : list CellValue) : list CellValue :=
  take (length l - 1) l.

(** ** The [Map] class: an insertion-ordered association list *)

Module JsMap.
Section defs.
Context {K V : Type} `{EqDecision K}.

Fixpoint get (m : list (K * V)) (k : K) : option V :=
  match m with
  | [] => None
  | (k', v) :: m' => if decide (k' = k) then Some v else get m' k
  end.

Definition has (m : list (K * V)) (k : K) : bool :=
  match get m k with Some _ => true | None => false end.

(** [set] keeps the position of a key that is already present. *)
Fixpoint set (m : list (K * V)) (k : K) (v : V) : list (K * V) :=
  match m with
  | [] => [(k, v)]
  | (k', v') :: m' =>
      if decide (k' = k) then (k, v) :: m' else (k', v') :: set m' k v
  end.

Fixpoint delete (m : list (K * V)) (k : K) : list (K * V) :=
  match m with
  | [] => []
  | (k', v') :: m' =>
      if decide (k' = k) then delete m' k else (k', v') :: delete m' k
  end.

Definition keys (m : list (K * V)) : list K := m.*1.
Definition values (m : list (K * V)) : list V := m.*2.
End defs.
End JsMap.

(** ** The heap *)

(** References: [aref] names an array, [oref] a [ColData] object. *)
Abbreviation aref := nat.
Abbreviation oref := nat.

(** [interface ColData]. *)
Record ColData : Type := mkColData {
  colId : string;
  type : string;
  defl : CellValue;
  values : aref;
}.

Record Heap : Type := mkHeap {
  arrays : list (list CellValue);
  objs : list ColData;
}.

Definition read (h : Heap) (a : aref) : list CellValue :=
  default [] (arrays h !! a).

Definition write (h : Heap) (a : aref) (l : list CellValue) : Heap :=
  {| arrays := <[a := l]> (arrays h); objs := objs h |}.

Definition alloc (h : Heap) (l : list CellValue) : Heap * aref :=
  ({| arrays := arrays h ++ [l]; objs := objs h |}, length (arrays h)).

Definition alloc_obj (h : Heap) (c : ColData) : Heap * oref :=
  ({| arrays := arrays h; objs := objs h ++ [c] |}, length (objs h)).

Definition write_obj (h : Heap) (o : oref) (c : ColData) : Heap :=
  {| arrays := arrays h; objs := <[o := c]> (objs h) |}.

(** The [values] array of the object at [o]. *)
Definition values_of (h : Heap) (o : oref) : option aref :=
  values <$> objs h !! o.

Definition arr_store (h : Heap) (a : aref) (i : nat) (v : CellValue) : Heap :=
  write h a (arr_set (read h a) i v).

(** ** TableData *)

(** [TableDataAction] and [ReplaceTableData]:
    [[tag, tableId, rowIds, colValues]].  The arrays are references: the
    action returned by [getTableDataAction] shares them with the table. *)
Record TableDataAction : Type := mkTableDataAction {
  tda_tableId : string;
  tda_rowIds : aref;
  tda_colValues : gmap string aref;
}.

(** The fields of [class TableData]. *)
Record TableData : Type := mkTableData {
  _tableId : string;
  _isLoaded : bool;
  _fetchPromise : option nat;
  _columns : list (string * oref);       (* Map<string, ColData> *)
  _colArray : list oref;                 (* ColData[] *)
  _rowIdCol : aref;                      (* number[] *)
  _rowMap : gmap CellValue nat;          (* Map<number, number> *)
}.

Definition set_tableId (t : TableData) (x : string) : TableData :=
  mkTableData x (_isLoaded t) (_fetchPromise t) (_columns t) (_colArray t)
    (_rowIdCol t) (_rowMap t).
Definition set_isLoaded (t : TableData) (x : bool) : TableData :=
  mkTableData (_tableId t) x (_fetchPromise t) (_columns t) (_colArray t)
    (_rowIdCol t) (_rowMap t).
Definition set_fetchPromise (t : TableData) (x : option nat) : TableData :=
  mkTableData (_tableId t) (_isLoaded t) x (_columns t) (_colArray t)
    (_rowIdCol t) (_rowMap t).
Definition set_columns (t : TableData) (x : list (string * oref)) : TableData :=
  mkTableData (_tableId t) (_isLoaded t) (_fetchPromise t) x (_colArray t)
    (_rowIdCol t) (_rowMap t).
Definition set_colArray (t : TableData) (x : list oref) : TableData :=
  mkTableData (_tableId t) (_isLoaded t) (_fetchPromise t) (_columns t) x
    (_rowIdCol t) (_rowMap t).
Definition set_rowMap (t : TableData) (x : gmap CellValue nat) : TableData :=
  mkTableData (_tableId t) (_isLoaded t) (_fetchPromise t) (_columns t)
    (_colArray t) (_rowIdCol t) x.

(** Modelled from the spec: [gutil.arraySplice] is not among the sources.
    [loadData] "replaces all rows and all declared columns' values wholesale";
    [arraySplice target start source] inserts the elements of [source] into
    [target] at [start]. *)
Definition arraySplice (target : list CellValue) (start : nat)
    (arrToInsert : list CellValue) : list CellValue :=
  take start target ++ arrToInsert ++ drop start target.

(** [function reassignArray(targetArray, sourceArray)].  The source is read
    after the target was emptied, as in the code. *)
Definition reassignArray (h : Heap) (targetArray sourceArray : aref) : Heap :=
  let h1 := write h targetArray [] in
  write h1 targetArray
    (arraySplice (read h1 targetArray) 0 (read h1 sourceArray)).

(** Body of the loop of [loadData] over [_colArray]. *)
Definition loadData_column (rowIdCol : aref) (colValues : gmap string aref)
    (h : Heap) (o : oref) : Heap :=
  match objs h !! o with
  | None => h
  | Some colData =>
      match colValues !! colId colData with
      | Some vals => reassignArray h (values colData) vals
      | None =>
          let '(h1, tmp) :=
            alloc h (map (fun _ => defl colData) (read h rowIdCol)) in
          reassignArray h1 (values colData) tmp
      end
  end.

(** [for (let i = 0; i < rowIds.length; i++) rowMap.set(rowIds[i], i)],
    started at position [i]. *)
Fixpoint index_rows (rowIds : list CellValue) (i : nat)
    (m : gmap CellValue nat) : gmap CellValue nat :=
  match rowIds with
  | [] => m
  | r :: rest => index_rows rest (S i) (<[r := i]> m)
  end.

(** [TableData.loadData]; returns the heap, the table and [oldRowIds]. *)
Definition loadData (h : Heap) (t : TableData) (tableData : TableDataAction)
    : Heap * TableData * list CellValue :=
  let rowIds := tda_rowIds tableData in
  let colValues := tda_colValues tableData in
  let oldRowIds := read h (_rowIdCol t) in
  let h1 := reassignArray h (_rowIdCol t) rowIds in
  let h2 := foldl (loadData_column (_rowIdCol t) colValues) h1 (_colArray t) in
  let rowMap := index_rows (read h2 rowIds) 0 ∅ in
  (h2, set_isLoaded (set_rowMap t rowMap) true, oldRowIds).

Section TableData.

(** [getDefaultForType] of [app/common/gristTypes] is not among the sources;
    it is a parameter of the model. *)
Variable getDefaultForType : string -> CellValue.

(** Body of the constructor's loop over [colTypes]. *)
Definition new_column (st : Heap * TableData) (c : string * string)
    : Heap * TableData :=
  let '(h, t) := st in
  let '(cid, ty) := c in
  let '(h1, a) := alloc h [] in
  let '(h2, o) := alloc_obj h1 (mkColData cid ty (getDefaultForType ty) a) in
  (h2, set_colArray (set_columns t (JsMap.set (_columns t) cid o))
         (_colArray t ++ [o])).

(** [constructor(tableId, tableData, colTypes)].  [colTypes] is an object
    used as a map; its keys are enumerated in the order of [map_to_list],
    which only fixes the order of [_colArray]. *)
Definition TableData_new (h : Heap) (tableId : string)
    (tableData : option TableDataAction) (colTypes : gmap string string)
    : Heap * TableData :=
  let '(h0, r) := alloc h [] in
  let t0 := mkTableData tableId false None [] [] r ∅ in
  let '(h1, t1) := foldl new_column (h0, t0) (map_to_list colTypes) in
  let '(h2, oid) := alloc_obj h1 (mkColData "id" "Id" (VNum 0) r) in
  let t2 := set_columns t1 (JsMap.set (_columns t1) "id" oid) in
  match tableData with
  | Some d => (loadData h2 t2 d).1
  | None => (h2, t2)
  end.

End TableData.

(** *** Queries *)

Definition isLoaded (t : TableData) : bool := _isLoaded t.

Definition numRecords (h : Heap) (t : TableData) : nat :=
  length (read h (_rowIdCol t)).

(** The [ColData] stored under a column id. *)
Definition column (h : Heap) (t : TableData) (cid : string) : option ColData :=
  o ← JsMap.get (_columns t) cid; objs h !! o.

(** [getValue(rowId, colId)]; [None] is [undefined]. *)
Definition getValue (h : Heap) (t : TableData) (rowId : Z) (cid : string)
    : option CellValue :=
  match column h t cid, _rowMap t !! VNum rowId with
  | Some colData, Some index =>
      Some (arr_get (read h (values colData)) (Z.of_nat index))
  | _, _ => None
  end.

(** [getRowIds()] returns the array itself. *)
Definition getRowIds (t : TableData) : aref := _rowIdCol t.

Definition as_numbers (l : list CellValue) : option (list Z) :=
  mapM (fun v => match v with VNum n => Some n | _ => None end) l.

(** [getSortedRowIds()]: a sorted copy.  [None] when the array holds a value
    that is not a number, where the comparator [a - b] is [NaN]. *)
Definition getSortedRowIds (h : Heap) (t : TableData) : option (list Z) :=
  merge_sort Z.le <$> as_numbers (read h (_rowIdCol t)).

Definition getColIds (t : TableData) : list string := JsMap.keys (_columns t).

(** [getColValues(colId)] returns the column's array itself. *)
Definition getColValues (h : Heap) (t : TableData) (cid : string)
    : option aref :=
  values <$> column h t cid.

Definition getColType (h : Heap) (t : TableData) (cid : string)
    : option string :=
  type <$> column h t cid.

(** [getTableDataAction()]; [fromPairs] builds the value map. *)
Definition getTableDataAction (h : Heap) (t : TableData) : TableDataAction :=
  let rowIds := getRowIds t in
  mkTableDataAction (_tableId t) rowIds
    (foldl (fun m cid =>
              match getColValues h t cid with
              | Some a => <[cid := a]> m
              | None => m
              end)
       ∅ (filter (fun cid => cid ≠ "id") (getColIds t))).

(** [RowRecord]: an object keyed by column id, with [id]. *)
Definition RowRecord := gmap string CellValue.

(** The loop over [_colArray] that fills a record from storage position
    [index]: [ret[colData.colId] = colData.values[index]]. *)
Definition fill_record (h : Heap) (t : TableData) (index : nat)
    (ret : RowRecord) : RowRecord :=
  foldl (fun ret o =>
           match objs h !! o with
           | Some colData =>
               <[colId colData :=
                   arr_get (read h (values colData)) (Z.of_nat index)]> ret
           | None => ret
           end)
    ret (_colArray t).

(** [getRecord(rowId)]; [None] is [undefined]. *)
Definition getRecord (h : Heap) (t : TableData) (rowId : Z)
    : option RowRecord :=
  match _rowMap t !! VNum rowId with
  | None => None
  | Some index =>
      Some (fill_record h t index
              {[ "id" := arr_get (read h (_rowIdCol t)) (Z.of_nat index) ]})
  end.

(** [getRecords()]. *)
Definition getRecords (h : Heap) (t : TableData) : list RowRecord :=
  imap (fun i id => fill_record h t i {[ "id" := id ]})
    (read h (_rowIdCol t)).

(** Outcome of a method that may throw. *)
Inductive Outcome (A : Type) : Type :=
| Returns (a : A)
| ThrowsTypeError.
Arguments Returns {A} a.
Arguments ThrowsTypeError {A}.

(** The inner loop of [filterRecords] for the row at position [i]:
    [for (const p of props) { if (p[1].values[i] !== p[0]) { return; } }].
    [p[1]] is [undefined] for a key that names no column, and reading
    [.values] of it throws. *)
Fixpoint row_matches (h : Heap) (props : list (CellValue * option ColData))
    (i : nat) : Outcome bool :=
  match props with
  | [] => Returns true
  | (v, None) :: _ => ThrowsTypeError
  | (v, Some colData) :: rest =>
      if strict_eq (arr_get (read h (values colData)) (Z.of_nat i)) v
      then row_matches h rest i
      else Returns false
  end.

(** The [forEach] over [_rowIdCol], from position [i] on; collects the
    indices of the matching rows. *)
Fixpoint matching_rows (h : Heap) (props : list (CellValue * option ColData))
    (ids : list CellValue) (i : nat) : Outcome (list nat) :=
  match ids with
  | [] => Returns []
  | _ :: rest =>
      match row_matches h props i with
      | ThrowsTypeError => ThrowsTypeError
      | Returns b =>
          match matching_rows h props rest (S i) with
          | ThrowsTypeError => ThrowsTypeError
          | Returns l => Returns (if b then i :: l else l)
          end
      end
  end.

(** [filterRecords(properties)]; [properties] lists the own keys of the
    object in the order of [Object.keys]. *)
Definition filterRecords (h : Heap) (t : TableData)
    (properties : list (string * CellValue)) : Outcome (list RowRecord) :=
  let props := map (fun p => (p.2, column h t p.1)) properties in
  match matching_rows h props (read h (_rowIdCol t)) 0 with
  | ThrowsTypeError => ThrowsTypeError
  | Returns rowIndices =>
      Returns
        (map (fun i =>
                fill_record h t i
                  {[ "id" := arr_get (read h (_rowIdCol t)) (Z.of_nat i) ]})
           rowIndices)
  end.

(** [values.indexOf(colValue)]; [None] is [-1]. *)
Fixpoint indexOf (l : list CellValue) (v : CellValue) : option nat :=
  match l with
  | [] => None
  | x :: rest => if strict_eq x v then Some 0 else S <$> indexOf rest v
  end.

(** [findRow(colId, colValue)]. *)
Definition findRow (h : Heap) (t : TableData) (cid : string)
    (colValue : CellValue) : CellValue :=
  match column h t cid with
  | None => VNum 0
  | Some colData =>
      match indexOf (read h (values colData)) colValue with
      | None => VNum 0
      | Some index => arr_get (read h (_rowIdCol t)) (Z.of_nat index)
      end
  end.

(** [distinct.add(v)] on a [Set], which keeps the order of insertion. *)
Definition set_add (distinct : list CellValue) (v : CellValue)
    : list CellValue :=
  if decide (v ∈ distinct) then distinct else distinct ++ [v].

(** [distinct.size < count]; [count] is [None] for [Infinity]. *)
Definition size_below (distinct : list CellValue) (count : option Z) : bool :=
  match count with
  | None => true
  | Some c => (Z.of_nat (length distinct) <? c)%Z
  end.

(** [for (let i = 0; i < valColumn.length && distinct.size < count; i++)
    distinct.add(valColumn[i])], from position [i] on. *)
Fixpoint distinct_loop (valColumn : list CellValue) (count : option Z)
    (distinct : list CellValue) : list CellValue :=
  match valColumn with
  | [] => distinct
  | v :: rest =>
      if size_below distinct count
      then distinct_loop rest count (set_add distinct v)
      else distinct
  end.

(** [getDistinctValues(colId, count = Infinity)]; [None] is [undefined].
    The [Set] is given by its elements in insertion order; a [count] is an
    integer, or [None] for [Infinity]. *)
Definition getDistinctValues (h : Heap) (t : TableData) (cid : string)
    (count : option Z) : option (list CellValue) :=
  match getColValues h t cid with
  | None => None
  | Some valColumn => Some (distinct_loop (read h valColumn) count [])
  end.

(** The argument of a row function: a row id or ["new"]. *)
Inductive RowArg : Type :=
| RowId (rowId : Z)
| RowNew.

(** The function that [getRowPropFunc] returns, given by the variable
    [values] that it closes over.  The other one, [rowMap], is the one [Map]
    object that the table keeps in [_rowMap] and never replaces; it is read
    where the function is called. *)
Record RowPropFunc : Type := mkRowPropFunc {
  rpf_values : aref;
}.

(** [getRowPropFunc(colId)]; [None] is [undefined]. *)
Definition getRowPropFunc (h : Heap) (t : TableData) (cid : string)
    : option RowPropFunc :=
  match column h t cid with
  | None => None
  | Some colData => Some (mkRowPropFunc (values colData))
  end.

(** A call of the returned function, in the state in which it is made:
    [rowId === "new" ? "new" : values[rowMap.get(rowId)!]]; reading
    [values[undefined]] gives [undefined]. *)
Definition call_RowPropFunc (f : RowPropFunc) (h : Heap) (t : TableData)
    (rowId : RowArg) : option CellValue :=
  match rowId with
  | RowNew => Some (VStr "new")
  | RowId r =>
      match _rowMap t !! VNum r with
      | Some index =>
          Some (arr_get (read h (rpf_values f)) (Z.of_nat index))
      | None => None
      end
  end.

(** *** The handlers of the [ActionDispatcher] interface *)

(** [for (const {colId, defl, values} of this._colArray) values[index] = ...]
    of [onAddRecord]. *)
Definition add_cell (colValues : gmap string CellValue) (index : nat)
    (h : Heap) (o : oref) : Heap :=
  match objs h !! o with
  | Some colData =>
      arr_store h (values colData) index
        (default (defl colData) (colValues !! colId colData))
  | None => h
  end.

Definition onAddRecord (h : Heap) (t : TableData) (rowId : Z)
    (colValues : gmap string CellValue) : Heap * TableData :=
  let index := length (read h (_rowIdCol t)) in
  let rowMap := <[VNum rowId := index]> (_rowMap t) in
  let h1 := arr_store h (_rowIdCol t) index (VNum rowId) in
  (foldl (add_cell colValues index) h1 (_colArray t), set_rowMap t rowMap).

(** First loop of [onBulkAddRecord], from the [i]-th row id on. *)
Fixpoint bulk_add_ids (index : nat) (rowIds : list Z) (i : nat)
    (st : Heap * TableData) : Heap * TableData :=
  match rowIds with
  | [] => st
  | r :: rest =>
      let '(h, t) := st in
      bulk_add_ids index rest (S i)
        (arr_store h (_rowIdCol t) (index + i) (VNum r),
         set_rowMap t (<[VNum r := index + i]> (_rowMap t)))
  end.

(** Inner loop of the second loop of [onBulkAddRecord] for one column:
    [values[index + i] = colValues.hasOwnProperty(colId) ? colValues[colId][i]
    : defl]. *)
Fixpoint bulk_add_cells (colData : ColData)
    (colValues : gmap string (list CellValue)) (index n i : nat) (h : Heap)
    : Heap :=
  match n with
  | O => h
  | S n' =>
      let v := match colValues !! colId colData with
               | Some vals => arr_get vals (Z.of_nat i)
               | None => defl colData
               end in
      bulk_add_cells colData colValues index n' (S i)
        (arr_store h (values colData) (index + i) v)
  end.

Definition bulk_add_column (colValues : gmap string (list CellValue))
    (index n : nat) (h : Heap) (o : oref) : Heap :=
  match objs h !! o with
  | Some colData => bulk_add_cells colData colValues index n 0 h
  | None => h
  end.

Definition onBulkAddRecord (h : Heap) (t : TableData) (rowIds : list Z)
    (colValues : gmap string (list CellValue)) : Heap * TableData :=
  let index := length (read h (_rowIdCol t)) in
  let '(h1, t1) := bulk_add_ids index rowIds 0 (h, t) in
  (foldl (bulk_add_column colValues index (length rowIds)) h1 (_colArray t1),
   t1).

(** Body of the loop of [onRemoveRecord] over [this._columns.values()]:
    [values[index] = values[last]; values.pop()]. *)
Definition remove_cell (index : nat) (last : Z) (h : Heap) (o : oref) : Heap :=
  match objs h !! o with
  | Some colData =>
      let vals := read h (values colData) in
      write h (values colData)
        (arr_pop (arr_set vals index (arr_get vals last)))
  | None => h
  end.

Definition onRemoveRecord (h : Heap) (t : TableData) (rowId : Z)
    : Heap * TableData :=
  match _rowMap t !! VNum rowId with
  | None => (h, t)
  | Some index =>
      let last := (Z.of_nat (length (read h (_rowIdCol t))) - 1)%Z in
      let h1 := foldl (remove_cell index last) h (JsMap.values (_columns t)) in
      let m1 :=
        <[arr_get (read h1 (_rowIdCol t)) (Z.of_nat index) := index]>
          (_rowMap t) in
      (h1, set_rowMap t (delete (VNum rowId) m1))
  end.

(** Body of [for (const colId in colValues)] of the update handlers, with
    the value already selected. *)
Definition update_cell (t : TableData) (index : nat) (h : Heap)
    (cid : string) (v : CellValue) : Heap :=
  match column h t cid with
  | Some colData => arr_store h (values colData) index v
  | None => h
  end.

Definition onUpdateRecord (h : Heap) (t : TableData) (rowId : Z)
    (colValues : gmap string CellValue) : Heap * TableData :=
  match _rowMap t !! VNum rowId with
  | None => (h, t)
  | Some index =>
      (foldl (fun h p => update_cell t index h p.1 p.2) h
         (map_to_list colValues), t)
  end.

(** The loop of [onBulkUpdateRecord] over [rowIds], from position [i] on. *)
Fixpoint bulk_update_rows (t : TableData) (rowIds : list Z)
    (colValues : gmap string (list CellValue)) (i : nat) (h : Heap) : Heap :=
  match rowIds with
  | [] => h
  | r :: rest =>
      let h' :=
        match _rowMap t !! VNum r with
        | None => h
        | Some index =>
            foldl (fun h p =>
                     update_cell t index h p.1 (arr_get p.2 (Z.of_nat i)))
              h (map_to_list colValues)
        end in
      bulk_update_rows t rest colValues (S i) h'
  end.

Definition onBulkUpdateRecord (h : Heap) (t : TableData) (rowIds : list Z)
    (colValues : gmap string (list CellValue)) : Heap * TableData :=
  (bulk_update_rows t rowIds colValues 0 h, t).

(** Modelled from the spec: [ActionDispatcher.onBulkRemoveRecord] is not among
    the sources ([TableData] does not override it).  Bulk actions are
    "vectorized across parallel sequences, applied index-for-index": the bulk
    removal removes the rows one by one. *)
Definition onBulkRemoveRecord (h : Heap) (t : TableData) (rowIds : list Z)
    : Heap * TableData :=
  foldl (fun st r => onRemoveRecord st.1 st.2 r) (h, t) rowIds.

Definition onReplaceTableData (h : Heap) (t : TableData)
    (action : TableDataAction) : Heap * TableData :=
  (loadData h t action).1.

(** [loadPartial(data)] and [unloadPartial(rowIds)]; the arrays of [data]
    are passed by value. *)
Definition loadPartial (h : Heap) (t : TableData) (rowIds : list Z)
    (colValues : gmap string (list CellValue)) : Heap * TableData :=
  let '(h1, t1) := onBulkAddRecord h t rowIds colValues in
  (h1, set_isLoaded t1 true).

Definition unloadPartial (h : Heap) (t : TableData) (rowIds : list Z)
    : Heap * TableData :=
  onBulkRemoveRecord h t rowIds.

(** Modelled from the spec: [gutil.arrayRemove] is not among the sources.
    Removing a column "drops the column from both the lookup and the ordered
    column list": the first occurrence of the object is removed. *)
Fixpoint arrayRemove (l : list oref) (o : oref) : list oref :=
  match l with
  | [] => []
  | x :: rest => if decide (x = o) then rest else x :: arrayRemove rest o
  end.

Definition onRemoveColumn (h : Heap) (t : TableData) (cid : string)
    : Heap * TableData :=
  match JsMap.get (_columns t) cid with
  | None => (h, t)
  | Some o =>
      (h, set_colArray (set_columns t (JsMap.delete (_columns t) cid))
            (arrayRemove (_colArray t) o))
  end.

Definition onRenameColumn (h : Heap) (t : TableData)
    (oldColId newColId : string) : Heap * TableData :=
  match JsMap.get (_columns t) oldColId with
  | None => (h, t)
  | Some o =>
      let h1 :=
        match objs h !! o with
        | Some colData =>
            write_obj h o
              (mkColData newColId (type colData) (defl colData)
                 (values colData))
        | None => h
        end in
      (h1, set_columns t
             (JsMap.delete (JsMap.set (_columns t) newColId o) oldColId))
  end.

Definition onRenameTable (h : Heap) (t : TableData) (newTableId : string)
    : Heap * TableData :=
  (h, set_tableId t newTableId).

Definition onAddTable (h : Heap) (t : TableData) : Heap * TableData := (h, t).

Definition onRemoveTable (h : Heap) (t : TableData) : Heap * TableData :=
  (h, set_isLoaded t false).

(** [DocAction]: the closed vocabulary of actions.  The arrays of the bulk
    row actions arrive by value; [ReplaceTableData] is handed to [loadData]
    as it is.  [colValues] is an object used as a map from column ids; the
    loops over its keys follow [map_to_list]. *)
Inductive DocAction : Type :=
| AddRecord (tableId : string) (rowId : Z) (colValues : gmap string CellValue)
| BulkAddRecord (tableId : string) (rowIds : list Z)
    (colValues : gmap string (list CellValue))
| RemoveRecord (tableId : string) (rowId : Z)
| BulkRemoveRecord (tableId : string) (rowIds : list Z)
| UpdateRecord (tableId : string) (rowId : Z)
    (colValues : gmap string CellValue)
| BulkUpdateRecord (tableId : string) (rowIds : list Z)
    (colValues : gmap string (list CellValue))
| ReplaceTableData (data : TableDataAction)
| AddColumn (tableId : string) (cid : string) (colInfo_type : string)
| RemoveColumn (tableId : string) (cid : string)
| RenameColumn (tableId : string) (oldColId newColId : string)
| ModifyColumn (tableId : string) (cid : string)
    (colInfo_type : option string)
| AddTable (tableId : string) (columns : list (string * string))
| RemoveTable (tableId : string)
| RenameTable (oldTableId newTableId : string).

(** Modelled from the spec: [isSchemaAction] of [DocActions] is not among the
    sources.  A schema action is a "schema-defining action
    (add/remove/rename/retype column or table)". *)
Definition isSchemaAction (a : DocAction) : bool :=
  match a with
  | AddColumn _ _ _ | RemoveColumn _ _ | RenameColumn _ _ _
  | ModifyColumn _ _ _ | AddTable _ _ | RemoveTable _ | RenameTable _ _ => true
  | _ => false
  end.

Section Dispatch.

Variable getDefaultForType : string -> CellValue.

Definition onAddColumn (h : Heap) (t : TableData) (cid : string)
    (colInfo_type : string) : Heap * TableData :=
  if JsMap.has (_columns t) cid then (h, t)
  else
    let ty := colInfo_type in
    let d := getDefaultForType ty in
    let '(h1, a) := alloc h (map (fun _ => d) (read h (_rowIdCol t))) in
    let '(h2, o) := alloc_obj h1 (mkColData cid ty d a) in
    (h2, set_colArray (set_columns t (JsMap.set (_columns t) cid o))
           (_colArray t ++ [o])).

(** [colInfo_type] is [None] when [colInfo] has no own property [type]. *)
Definition onModifyColumn (h : Heap) (t : TableData) (oldColId : string)
    (colInfo_type : option string) : Heap * TableData :=
  match JsMap.get (_columns t) oldColId, colInfo_type with
  | Some o, Some ty =>
      match objs h !! o with
      | Some colData =>
          (write_obj h o
             (mkColData (colId colData) ty (getDefaultForType ty)
                (values colData)), t)
      | None => (h, t)
      end
  | _, _ => (h, t)
  end.

(** Modelled from the spec: [ActionDispatcher.dispatchAction] is not among
    the sources.  It "routes a generically-typed action to one of a fixed set
    of named handler methods, based on the tag", with the action's fields as
    arguments. *)
Definition dispatchAction (h : Heap) (t : TableData) (action : DocAction)
    : Heap * TableData :=
  match action with
  | AddRecord _ rowId colValues => onAddRecord h t rowId colValues
  | BulkAddRecord _ rowIds colValues => onBulkAddRecord h t rowIds colValues
  | RemoveRecord _ rowId => onRemoveRecord h t rowId
  | BulkRemoveRecord _ rowIds => onBulkRemoveRecord h t rowIds
  | UpdateRecord _ rowId colValues => onUpdateRecord h t rowId colValues
  | BulkUpdateRecord _ rowIds colValues =>
      onBulkUpdateRecord h t rowIds colValues
  | ReplaceTableData data => onReplaceTableData h t data
  | AddColumn _ cid ty => onAddColumn h t cid ty
  | RemoveColumn _ cid => onRemoveColumn h t cid
  | RenameColumn _ oldColId newColId => onRenameColumn h t oldColId newColId
  | ModifyColumn _ cid ty => onModifyColumn h t cid ty
  | AddTable _ _ => onAddTable h t
  | RemoveTable _ => onRemoveTable h t
  | RenameTable _ newTableId => onRenameTable h t newTableId
  end.

(** [receiveAction(action)]: the state after the call and the result. *)
Definition receiveAction (h : Heap) (t : TableData) (action : DocAction)
    : Heap * TableData * bool :=
  if _isLoaded t || isSchemaAction action
  then (dispatchAction h t action, true)
  else (h, t, false).

(** The table after a sequence of dispatched actions. *)
Definition dispatchActions (h : Heap) (t : TableData)
    (actions : list DocAction) : Heap * TableData :=
  foldl (fun st a => dispatchAction st.1 st.2 a) (h, t) actions.

End Dispatch.

(** * Properties *)

(** ** Arrays and the heap *)

Lemma arr_get_lookup (l : list CellValue) (i : nat) (v : CellValue) :
  l !! i = Some v -> arr_get l (Z.of_nat i) = v.
Proof.
  intros Hl. unfold arr_get.
  destruct (Z.ltb_spec (Z.of_nat i) 0); [lia|].
  by rewrite Nat2Z.id, Hl.
Qed.

Lemma arr_get_ge (l : list CellValue) (i : nat) :
  length l <= i -> arr_get l (Z.of_nat i) = Undefined.
Proof.
  intros Hl. unfold arr_get.
  destruct (Z.ltb_spec (Z.of_nat i) 0); [done|].
  rewrite Nat2Z.id. by rewrite lookup_ge_None_2.
Qed.

Lemma arr_set_length_lt (l : list CellValue) i v :
  i < length l -> length (arr_set l i v) = length l.
Proof.
  intros Hi. unfold arr_set. rewrite decide_True by done.
  apply length_insert.
Qed.

Lemma arr_set_append (l : list CellValue) v :
  arr_set l (length l) v = l ++ [v].
Proof.
  unfold arr_set. rewrite decide_False by lia.
  by rewrite Nat.sub_diag.
Qed.

Lemma arr_pop_length (l : list CellValue) :
  length (arr_pop l) = length l - 1.
Proof. unfold arr_pop. rewrite length_take. lia. Qed.

Lemma arr_pop_lookup (l : list CellValue) i :
  i < length l - 1 -> arr_pop l !! i = l !! i.
Proof. intros Hi. unfold arr_pop. by rewrite lookup_take_lt. Qed.

Lemma read_write_eq h a l :
  a < length (arrays h) -> read (write h a l) a = l.
Proof.
  intros Ha. unfold read, write. simpl.
  by rewrite list_lookup_insert_eq.
Qed.

Lemma read_write_ne h a b l : a ≠ b -> read (write h a l) b = read h b.
Proof.
  intros Hab. unfold read, write. simpl.
  by rewrite list_lookup_insert_ne.
Qed.

Lemma length_arrays_write h a l :
  length (arrays (write h a l)) = length (arrays h).
Proof. unfold write. simpl. apply length_insert. Qed.

Lemma write_invalid h a l : length (arrays h) <= a -> write h a l = h.
Proof.
  intros Ha. unfold write. rewrite list_insert_ge by done. by destruct h.
Qed.

Lemma write_write h a l1 l2 : write (write h a l1) a l2 = write h a l2.
Proof. unfold write. simpl. by rewrite list_insert_insert_eq. Qed.

Lemma write_read h a : write h a (read h a) = h.
Proof.
  destruct (decide (a < length (arrays h))) as [Ha|Ha].
  - unfold write, read. destruct (lookup_lt_is_Some_2 _ _ Ha) as [l Hl].
    rewrite Hl. simpl. rewrite list_insert_id by done. by destruct h.
  - apply write_invalid. lia.
Qed.

Lemma read_alloc_old h l a :
  a < length (arrays h) -> read (alloc h l).1 a = read h a.
Proof.
  intros Ha. unfold read, alloc. simpl. by rewrite lookup_app_l.
Qed.

Lemma read_alloc_new h l : read (alloc h l).1 (alloc h l).2 = l.
Proof.
  unfold read, alloc. simpl.
  rewrite lookup_app_r by done. by rewrite Nat.sub_diag.
Qed.

Lemma read_invalid h a : length (arrays h) <= a -> read h a = [].
Proof. intros Ha. unfold read. by rewrite lookup_ge_None_2. Qed.

Lemma values_of_objs h h' o :
  objs h = objs h' -> values_of h o = values_of h' o.
Proof. unfold values_of. by intros ->. Qed.

(** ** Loops over columns *)

(** Every loop of the handlers over a list of columns runs a body that
    leaves the objects alone, never shrinks the heap and only writes to the
    array of the column at hand. *)
Record col_step (f : Heap -> oref -> Heap) : Prop := {
  step_objs : forall h o, objs (f h o) = objs h;
  step_length : forall h o, length (arrays h) <= length (arrays (f h o));
  step_frame : forall h o a,
    a < length (arrays h) -> values_of h o ≠ Some a ->
    read (f h o) a = read h a;
}.

Section col_loop.
Variable f : Heap -> oref -> Heap.
Hypothesis Hf : col_step f.

Lemma loop_objs os h : objs (foldl f h os) = objs h.
Proof.
  revert h. induction os as [|o os IH]; intros h; simpl; [done|].
  rewrite IH. apply Hf.
Qed.

Lemma loop_length os h : length (arrays h) <= length (arrays (foldl f h os)).
Proof.
  revert h. induction os as [|o os IH]; intros h; simpl; [done|].
  etrans; [apply (step_length f Hf h o)|apply IH].
Qed.

Lemma loop_frame os h a :
  a < length (arrays h) ->
  (forall o, o ∈ os -> values_of h o ≠ Some a) ->
  read (foldl f h os) a = read h a.
Proof.
  revert h. induction os as [|o os IH]; intros h Ha Hno; simpl; [done|].
  rewrite IH.
  - apply Hf; [done|]. apply Hno. left.
  - pose proof (step_length f Hf h o). lia.
  - intros o' Ho'. rewrite (values_of_objs _ h) by apply Hf.
    apply Hno. by right.
Qed.

(** The column [o] is handled once, in a heap that still agrees with the
    initial one on every array that no other column of the loop owns. *)
Lemma loop_hit os h o a :
  NoDup (map (values_of h) os) ->
  o ∈ os -> values_of h o = Some a -> a < length (arrays h) ->
  exists h',
    objs h' = objs h /\
    length (arrays h) <= length (arrays h') /\
    (forall b, b < length (arrays h) ->
       (forall o', o' ∈ os -> o' ≠ o -> values_of h o' ≠ Some b) ->
       read h' b = read h b) /\
    read (foldl f h os) a = read (f h' o) a.
Proof.
  revert h. induction os as [|x os IH]; intros h Hnd Ho Hv Ha.
  { by apply elem_of_nil in Ho. }
  simpl in Hnd. apply NoDup_cons in Hnd as [Hx Hnd].
  destruct (decide (x = o)) as [->|Hne].
  - exists h. split; [done|]. split; [done|]. split; [done|]. simpl.
    apply loop_frame.
    + pose proof (step_length f Hf h o). lia.
    + intros o' Ho'. rewrite (values_of_objs _ h) by apply Hf.
      intros Heq. apply Hx. rewrite Hv, <- Heq.
      by apply list_elem_of_fmap_2.
  - apply elem_of_cons in Ho as [->|Ho]; [done|].
    assert (Hobjs : objs (f h x) = objs h) by apply Hf.
    assert (Hlen : length (arrays h) <= length (arrays (f h x)))
      by apply Hf.
    destruct (IH (f h x)) as (h' & H1 & H2 & H3 & H4).
    + erewrite map_ext; [exact Hnd|].
      intros o'. by apply values_of_objs.
    + done.
    + by rewrite (values_of_objs _ h).
    + lia.
    + exists h'. split; [congruence|]. split; [lia|]. split; [|done].
      intros b Hb Hno. rewrite H3.
      * apply Hf; [done|]. apply Hno; [left|done].
      * lia.
      * intros o' Ho' Hne'. rewrite (values_of_objs _ h) by done.
        apply Hno; [by right|done].
Qed.
End col_loop.

(** A body that rewrites the array of its column by a function of the
    column and of the array's contents. *)
Definition upd_col (g : ColData -> list CellValue -> list CellValue)
    (h : Heap) (o : oref) : Heap :=
  match objs h !! o with
  | Some colData =>
      write h (values colData) (g colData (read h (values colData)))
  | None => h
  end.

Lemma upd_col_step g : col_step (upd_col g).
Proof.
  split; intros h o; unfold upd_col.
  - by destruct (objs h !! o).
  - destruct (objs h !! o); [|done]. by rewrite length_arrays_write.
  - intros a Ha Hne. unfold values_of in Hne.
    destruct (objs h !! o) as [cd|]; [|done].
    apply read_write_ne. simpl in Hne. congruence.
Qed.

Lemma upd_col_arrays_length g os h :
  length (arrays (foldl (upd_col g) h os)) = length (arrays h).
Proof.
  revert h. induction os as [|o os IH]; intros h; simpl; [done|].
  rewrite IH. unfold upd_col.
  destruct (objs h !! o); [|done]. apply length_arrays_write.
Qed.

Lemma upd_col_read g h o cd :
  objs h !! o = Some cd -> values cd < length (arrays h) ->
  read (upd_col g h o) (values cd) = g cd (read h (values cd)).
Proof.
  intros Ho Hv. unfold upd_col. rewrite Ho. by apply read_write_eq.
Qed.

Lemma upd_col_loop_hit g os h o cd :
  NoDup (map (values_of h) os) ->
  o ∈ os -> objs h !! o = Some cd -> values cd < length (arrays h) ->
  read (foldl (upd_col g) h os) (values cd) = g cd (read h (values cd)).
Proof.
  intros Hnd Ho Hcd Hv.
  destruct (loop_hit _ (upd_col_step g) os h o (values cd))
    as (h' & H1 & H2 & H3 & H4); [done|done| |done|].
  { unfold values_of. by rewrite Hcd. }
  rewrite H4, upd_col_read; [|congruence|lia].
  f_equal. apply H3; [done|].
  intros o' Ho' Hne Heq.
  assert (Hvo : values_of h o = Some (values cd)).
  { unfold values_of. by rewrite Hcd. }
  rewrite <- Hvo in Heq.
  apply list_elem_of_lookup in Ho as [i Hi], Ho' as [j Hj].
  assert (i = j); [|congruence].
  eapply NoDup_lookup; [exact Hnd| |].
  - rewrite list_lookup_fmap, Hi. done.
  - rewrite list_lookup_fmap, Hj. simpl. by rewrite Heq.
Qed.

Lemma add_cell_upd colValues index :
  add_cell colValues index =
  upd_col (fun cd l =>
             arr_set l index (default (defl cd) (colValues !! colId cd))).
Proof. reflexivity. Qed.

Lemma remove_cell_upd index last :
  remove_cell index last =
  upd_col (fun _ l => arr_pop (arr_set l index (arr_get l last))).
Proof. reflexivity. Qed.

(** The cells that [onBulkAddRecord] appends to one column, as a function on
    the contents of the array. *)
Fixpoint bulk_cells (colData : ColData)
    (colValues : gmap string (list CellValue)) (index n i : nat)
    (l : list CellValue) : list CellValue :=
  match n with
  | O => l
  | S n' =>
      let v := match colValues !! colId colData with
               | Some vals => arr_get vals (Z.of_nat i)
               | None => defl colData
               end in
      bulk_cells colData colValues index n' (S i) (arr_set l (index + i) v)
  end.

Lemma bulk_add_cells_write colData colValues index n i h :
  bulk_add_cells colData colValues index n i h =
  write h (values colData)
    (bulk_cells colData colValues index n i (read h (values colData))).
Proof.
  revert i h. induction n as [|n IH]; intros i h; simpl.
  - by rewrite write_read.
  - rewrite IH. unfold arr_store.
    destruct (decide (values colData < length (arrays h))) as [Hv|Hv].
    + by rewrite read_write_eq, write_write.
    + by rewrite !(write_invalid h) by lia.
Qed.

Lemma bulk_add_column_upd colValues index n h o :
  bulk_add_column colValues index n h o =
  upd_col (fun cd l => bulk_cells cd colValues index n 0 l) h o.
Proof.
  unfold bulk_add_column, upd_col.
  destruct (objs h !! o); [|done]. apply bulk_add_cells_write.
Qed.

Lemma foldl_pointwise {A B} (f g : A -> B -> A) (l : list B) (a : A) :
  (forall x y, f x y = g x y) -> foldl f a l = foldl g a l.
Proof.
  intros Hfg. revert a. induction l as [|y l IH]; intros a; simpl; [done|].
  by rewrite Hfg, IH.
Qed.

(** ** Well-formed tables *)

(** The shape that the constructor builds and that the handlers of the row
    actions keep: the row-id array is on the heap, the [id] column is a view
    of it, the lookup holds the [id] column and the columns of [_colArray],
    each with an array of its own. *)
Record table_wf (h : Heap) (t : TableData) : Prop := {
  wf_rowIdCol : _rowIdCol t < length (arrays h);
  wf_id : exists oid,
    JsMap.get (_columns t) "id" = Some oid /\
    values_of h oid = Some (_rowIdCol t) /\
    JsMap.values (_columns t) ≡ₚ oid :: _colArray t;
  wf_valid : forall o, o ∈ JsMap.values (_columns t) ->
    exists cd, objs h !! o = Some cd /\ values cd < length (arrays h);
  wf_sep : NoDup (map (values_of h) (JsMap.values (_columns t)));
}.

(** Every column is as long as the row-id array. *)
Definition len_ok (h : Heap) (t : TableData) : Prop :=
  forall o cd, o ∈ JsMap.values (_columns t) -> objs h !! o = Some cd ->
    length (read h (values cd)) = length (read h (_rowIdCol t)).

(** [_rowMap] is the inverse of [_rowIdCol], which holds numbers. *)
Definition idx_ok (h : Heap) (t : TableData) : Prop :=
  (forall i v, read h (_rowIdCol t) !! i = Some v ->
     (exists n, v = VNum n) /\ _rowMap t !! v = Some i) /\
  (forall n i, _rowMap t !! VNum n = Some i ->
     read h (_rowIdCol t) !! i = Some (VNum n)).

Lemma table_wf_heap h h' t t' :
  objs h' = objs h -> length (arrays h) <= length (arrays h') ->
  _columns t' = _columns t -> _colArray t' = _colArray t ->
  _rowIdCol t' = _rowIdCol t ->
  table_wf h t -> table_wf h' t'.
Proof.
  intros Ho Hl Hc Ha Hr [W1 (oid & W2 & W3 & W4) W5 W6].
  split; rewrite ?Hc, ?Ha, ?Hr.
  - lia.
  - exists oid. by rewrite (values_of_objs h' h).
  - intros o Hin. destruct (W5 o Hin) as (cd & ? & ?).
    exists cd. rewrite Ho. split; [done|lia].
  - erewrite map_ext; [exact W6|]. intros o. by apply values_of_objs.
Qed.

Section wf_facts.
Context (h : Heap) (t : TableData) (Hwf : table_wf h t).

Lemma wf_colArray_in o : o ∈ _colArray t -> o ∈ JsMap.values (_columns t).
Proof.
  destruct (wf_id _ _ Hwf) as (oid & _ & _ & Hp).
  intros Ho. rewrite Hp. by right.
Qed.

Lemma wf_colArray_sep : NoDup (map (values_of h) (_colArray t)).
Proof.
  destruct (wf_id _ _ Hwf) as (oid & _ & _ & Hp).
  pose proof (wf_sep _ _ Hwf) as Hnd. rewrite Hp in Hnd.
  simpl in Hnd. by apply NoDup_cons in Hnd as [_ ?].
Qed.

Lemma wf_colArray_not_id o :
  o ∈ _colArray t -> values_of h o ≠ Some (_rowIdCol t).
Proof.
  destruct (wf_id _ _ Hwf) as (oid & _ & Hv & Hp).
  pose proof (wf_sep _ _ Hwf) as Hnd. rewrite Hp in Hnd.
  simpl in Hnd. apply NoDup_cons in Hnd as [Hni _].
  intros Ho Heq. apply Hni. rewrite Hv, <- Heq.
  by apply list_elem_of_fmap_2.
Qed.

Lemma wf_id_in :
  exists oid cd, oid ∈ JsMap.values (_columns t) /\
    objs h !! oid = Some cd /\ values cd = _rowIdCol t.
Proof.
  destruct (wf_id _ _ Hwf) as (oid & _ & Hv & Hp).
  assert (Hin : oid ∈ JsMap.values (_columns t)) by (rewrite Hp; left).
  destruct (wf_valid _ _ Hwf oid Hin) as (cd & Hcd & _).
  exists oid, cd. split; [done|]. split; [done|].
  unfold values_of in Hv. rewrite Hcd in Hv. by injection Hv.
Qed.

(** A column of the lookup is the [id] column or one of [_colArray]. *)
Lemma wf_columns_cases o cd :
  o ∈ JsMap.values (_columns t) -> objs h !! o = Some cd ->
  values cd = _rowIdCol t \/ (o ∈ _colArray t /\ values cd ≠ _rowIdCol t).
Proof.
  destruct (wf_id _ _ Hwf) as (oid & _ & Hv & Hp).
  intros Hin Hcd. rewrite Hp in Hin.
  apply elem_of_cons in Hin as [->|Hin].
  - left. unfold values_of in Hv. rewrite Hcd in Hv. by injection Hv.
  - right. split; [done|]. intros Heq.
    apply (wf_colArray_not_id o Hin). unfold values_of.
    by rewrite Hcd, <- Heq.
Qed.
End wf_facts.

Definition table_ok (h : Heap) (t : TableData) : Prop :=
  table_wf h t /\ len_ok h t /\ idx_ok h t.

(** ** [onAddRecord] *)

Lemma onAddRecord_frame h t rowId colValues :
  let st := onAddRecord h t rowId colValues in
  objs st.1 = objs h /\ length (arrays st.1) = length (arrays h) /\
  _columns st.2 = _columns t /\ _colArray st.2 = _colArray t /\
  _rowIdCol st.2 = _rowIdCol t /\ _isLoaded st.2 = _isLoaded t /\
  _rowMap st.2 =
    <[VNum rowId := length (read h (_rowIdCol t))]> (_rowMap t).
Proof.
  unfold onAddRecord. simpl. rewrite add_cell_upd.
  split; [by rewrite (loop_objs _ (upd_col_step _))|].
  split; [|done].
  rewrite upd_col_arrays_length. apply length_arrays_write.
Qed.

Lemma onAddRecord_rowIds h t rowId colValues :
  table_wf h t ->
  read (onAddRecord h t rowId colValues).1 (_rowIdCol t) =
  read h (_rowIdCol t) ++ [VNum rowId].
Proof.
  intros Hwf. unfold onAddRecord. simpl. rewrite add_cell_upd.
  rewrite (loop_frame _ (upd_col_step _)).
  - unfold arr_store. rewrite read_write_eq by apply (wf_rowIdCol _ _ Hwf).
    apply arr_set_append.
  - unfold arr_store. rewrite length_arrays_write.
    apply (wf_rowIdCol _ _ Hwf).
  - intros o Ho. apply (wf_colArray_not_id h t Hwf o Ho).
Qed.

Lemma onAddRecord_column h t rowId colValues o cd :
  table_wf h t -> len_ok h t ->
  o ∈ _colArray t -> objs h !! o = Some cd ->
  read (onAddRecord h t rowId colValues).1 (values cd) =
  read h (values cd) ++ [default (defl cd) (colValues !! colId cd)].
Proof.
  intros Hwf Hlen Ho Hcd. unfold onAddRecord. simpl. rewrite add_cell_upd.
  pose proof (wf_colArray_in h t Hwf o Ho) as Hin.
  destruct (wf_valid _ _ Hwf o Hin) as (cd' & Hcd' & Hv).
  assert (cd' = cd) as -> by congruence.
  assert (Hne : values cd ≠ _rowIdCol t).
  { intros Heq. apply (wf_colArray_not_id h t Hwf o Ho).
    unfold values_of. rewrite Hcd. simpl. by rewrite Heq. }
  rewrite (upd_col_loop_hit _ _ _ o cd).
  - unfold arr_store. rewrite read_write_ne by done.
    rewrite <- (Hlen o cd Hin Hcd). apply arr_set_append.
  - apply (wf_colArray_sep h t Hwf).
  - done.
  - done.
  - unfold arr_store. by rewrite length_arrays_write.
Qed.

Lemma onAddRecord_ok h t rowId colValues :
  table_ok h t -> VNum rowId ∉ read h (_rowIdCol t) ->
  table_ok (onAddRecord h t rowId colValues).1
    (onAddRecord h t rowId colValues).2.
Proof.
  intros (Hwf & Hlen & Hidx1 & Hidx2) Hfresh.
  destruct (onAddRecord_frame h t rowId colValues)
    as (Ho & Hl & Hc & Ha & Hr & _ & Hm).
  pose proof (onAddRecord_rowIds h t rowId colValues Hwf) as Hids.
  split; [|split; [|split]].
  - eapply table_wf_heap; [exact Ho|lia|done..].
  - intros o cd. rewrite Hc, Ho, Hr, Hids. intros Hin Hcd.
    destruct (wf_columns_cases h t Hwf o cd Hin Hcd) as [Heq|[Hin' _]].
    + by rewrite Heq, Hids.
    + rewrite (onAddRecord_column h t rowId colValues o cd) by done.
      rewrite !length_app. simpl. by rewrite (Hlen o cd Hin Hcd).
  - intros i v. rewrite Hr, Hids, Hm. intros Hi.
    apply lookup_app_Some in Hi as [Hi|[Hge Hi]].
    + destruct (Hidx1 i v Hi) as [Hn Hv]. split; [done|].
      rewrite lookup_insert_ne; [done|].
      intros <-. apply Hfresh. by eapply list_elem_of_lookup_2.
    + apply list_lookup_singleton_Some in Hi as [Hi <-].
      split; [by eexists|]. rewrite lookup_insert_eq. f_equal. lia.
  - intros n i. rewrite Hr, Hids, Hm. intros Hi.
    destruct (decide (n = rowId)) as [->|Hne].
    + rewrite lookup_insert_eq in Hi. injection Hi as <-.
      rewrite lookup_app_r by done. by rewrite Nat.sub_diag.
    + rewrite lookup_insert_ne in Hi by congruence.
      rewrite lookup_app_l; [by apply Hidx2|].
      eapply lookup_lt_Some. by apply Hidx2.
Qed.

(** ** [onRemoveRecord] *)

(** What the removal does to one array: the last element moves to
    [index], and the array loses its last position. *)
Definition move_last (l : list CellValue) (index : nat) (last : Z)
    : list CellValue :=
  arr_pop (arr_set l index (arr_get l last)).

Lemma move_last_length l index last :
  index < length l -> length (move_last l index last) = length l - 1.
Proof.
  intros Hi. unfold move_last.
  by rewrite arr_pop_length, arr_set_length_lt.
Qed.

Lemma move_last_lookup_index l index :
  index < length l - 1 ->
  move_last l index (Z.of_nat (length l) - 1) !! index = l !! (length l - 1).
Proof.
  intros Hi. unfold move_last.
  rewrite arr_pop_lookup by (rewrite arr_set_length_lt; lia).
  unfold arr_set. rewrite decide_True by lia.
  rewrite list_lookup_insert_eq by lia.
  replace (Z.of_nat (length l) - 1)%Z with (Z.of_nat (length l - 1)) by lia.
  destruct (lookup_lt_is_Some_2 l (length l - 1)) as [x Hx]; [lia|].
  by rewrite (arr_get_lookup _ _ _ Hx).
Qed.

Lemma move_last_lookup_other l index last i :
  index < length l -> i ≠ index -> i < length l - 1 ->
  move_last l index last !! i = l !! i.
Proof.
  intros Hi Hne Hlt. unfold move_last.
  rewrite arr_pop_lookup by (rewrite arr_set_length_lt; lia).
  unfold arr_set. rewrite decide_True by lia.
  by rewrite list_lookup_insert_ne.
Qed.

Lemma onRemoveRecord_absent h t rowId :
  _rowMap t !! VNum rowId = None -> onRemoveRecord h t rowId = (h, t).
Proof. intros Hm. unfold onRemoveRecord. by rewrite Hm. Qed.

Lemma onRemoveRecord_frame h t rowId :
  let st := onRemoveRecord h t rowId in
  objs st.1 = objs h /\ length (arrays st.1) = length (arrays h) /\
  _columns st.2 = _columns t /\ _colArray st.2 = _colArray t /\
  _rowIdCol st.2 = _rowIdCol t /\ _isLoaded st.2 = _isLoaded t.
Proof.
  unfold onRemoveRecord. destruct (_rowMap t !! VNum rowId); [|done].
  simpl. rewrite remove_cell_upd.
  split; [by rewrite (loop_objs _ (upd_col_step _))|].
  split; [|done]. apply upd_col_arrays_length.
Qed.

Lemma onRemoveRecord_column h t rowId index o cd :
  table_wf h t -> _rowMap t !! VNum rowId = Some index ->
  o ∈ JsMap.values (_columns t) -> objs h !! o = Some cd ->
  read (onRemoveRecord h t rowId).1 (values cd) =
  move_last (read h (values cd)) index
    (Z.of_nat (length (read h (_rowIdCol t))) - 1).
Proof.
  intros Hwf Hm Ho Hcd. unfold onRemoveRecord. rewrite Hm. simpl.
  rewrite remove_cell_upd.
  destruct (wf_valid _ _ Hwf o Ho) as (cd' & Hcd' & Hv).
  assert (cd' = cd) as -> by congruence.
  rewrite (upd_col_loop_hit _ _ _ o cd); [done| |done..].
  apply (wf_sep _ _ Hwf).
Qed.

Lemma onRemoveRecord_rowIds h t rowId index :
  table_wf h t -> _rowMap t !! VNum rowId = Some index ->
  read (onRemoveRecord h t rowId).1 (_rowIdCol t) =
  move_last (read h (_rowIdCol t)) index
    (Z.of_nat (length (read h (_rowIdCol t))) - 1).
Proof.
  intros Hwf Hm.
  destruct (wf_id_in h t Hwf) as (oid & cd & Hin & Hcd & Hv).
  rewrite <- Hv at 1 2.
  by apply (onRemoveRecord_column h t rowId index oid cd).
Qed.

Lemma onRemoveRecord_rowMap h t rowId index :
  _rowMap t !! VNum rowId = Some index ->
  _rowMap (onRemoveRecord h t rowId).2 =
  delete (VNum rowId)
    (<[arr_get (read (onRemoveRecord h t rowId).1 (_rowIdCol t))
         (Z.of_nat index) := index]> (_rowMap t)).
Proof. intros Hm. unfold onRemoveRecord. by rewrite Hm. Qed.

Lemma onRemoveRecord_ok h t rowId :
  table_ok h t ->
  table_ok (onRemoveRecord h t rowId).1 (onRemoveRecord h t rowId).2.
Proof.
  intros (Hwf & Hlen & Hidx1 & Hidx2).
  destruct (_rowMap t !! VNum rowId) as [index|] eqn:Hm;
    [|by rewrite onRemoveRecord_absent].
  destruct (onRemoveRecord_frame h t rowId) as (Ho & Hl & Hc & Ha & Hr & _).
  pose proof (onRemoveRecord_rowIds h t rowId index Hwf Hm) as Hids.
  pose proof (onRemoveRecord_rowMap h t rowId index Hm) as Hmap.
  pose proof (Hidx2 _ _ Hm) as Hindex.
  pose proof (lookup_lt_Some _ _ _ Hindex) as Hlt.
  set (ids := read h (_rowIdCol t)) in *.
  set (last := (Z.of_nat (length ids) - 1)%Z) in *.
  split; [|split; [|split]].
  - eapply table_wf_heap; [exact Ho|lia|done..].
  - intros o cd. rewrite Hc, Ho, Hr, Hids. intros Hin Hcd.
    rewrite (onRemoveRecord_column h t rowId index o cd) by done.
    rewrite !move_last_length; [|done|by rewrite (Hlen o cd)].
    by rewrite (Hlen o cd).
  - intros i v. rewrite Hr, Hmap, Hids. intros Hi.
    pose proof (lookup_lt_Some _ _ _ Hi) as Hilt.
    rewrite move_last_length in Hilt by done.
    destruct (decide (i = index)) as [->|Hne].
    + rewrite move_last_lookup_index in Hi by lia.
      destruct (Hidx1 _ _ Hi) as [Hn Hv]. split; [done|].
      rewrite (arr_get_lookup _ _ v)
        by (by rewrite move_last_lookup_index by lia).
      rewrite lookup_delete_ne, lookup_insert_eq; [done|].
      intros <-. rewrite Hm in Hv. injection Hv. lia.
    + rewrite move_last_lookup_other in Hi by lia.
      destruct (Hidx1 _ _ Hi) as [[n ->] Hv]. split; [by eexists|].
      rewrite lookup_delete_ne by (intros Heq; rewrite <- Heq, Hm in Hv;
                                   injection Hv; lia).
      rewrite lookup_insert_ne; [done|].
      destruct (decide (index < length ids - 1)) as [Hlt'|Hge].
      * destruct (lookup_lt_is_Some_2 ids (length ids - 1)) as [x Hx];
          [lia|].
        rewrite (arr_get_lookup _ _ x)
          by (by rewrite move_last_lookup_index by lia).
        intros ->. destruct (Hidx1 _ _ Hx) as [_ Hv']. rewrite Hv in Hv'.
        injection Hv'. lia.
      * rewrite arr_get_ge; [done|]. rewrite move_last_length by done. lia.
  - intros n i. rewrite Hr, Hmap, Hids. intros Hi.
    apply lookup_delete_Some in Hi as [Hne Hi].
    destruct (decide (index < length ids - 1)) as [Hlt'|Hge].
    + destruct (lookup_lt_is_Some_2 ids (length ids - 1)) as [x Hx]; [lia|].
      rewrite (arr_get_lookup _ _ x) in Hi
        by (by rewrite move_last_lookup_index by lia).
      apply lookup_insert_Some in Hi as [[-> <-]|[Hne' Hi]].
      * by rewrite move_last_lookup_index by lia.
      * pose proof (Hidx2 _ _ Hi) as Hi'.
        assert (i ≠ index) by (intros ->; congruence).
        assert (i ≠ length ids - 1) by (intros ->; congruence).
        pose proof (lookup_lt_Some _ _ _ Hi').
        by rewrite move_last_lookup_other by lia.
    + rewrite arr_get_ge in Hi by (rewrite move_last_length by done; lia).
      rewrite lookup_insert_ne in Hi by done.
      pose proof (Hidx2 _ _ Hi) as Hi'.
      assert (i ≠ index) by (intros ->; congruence).
      pose proof (lookup_lt_Some _ _ _ Hi').
      by rewrite move_last_lookup_other by lia.
Qed.

(** ** The [Map] operations *)

Section JsMap_facts.
Context {K V : Type} `{EqDecision K}.
Implicit Types (m : list (K * V)) (k : K) (v : V).

Lemma JsMap_get_elem m k v : JsMap.get m k = Some v -> (k, v) ∈ m.
Proof.
  induction m as [|[k' v'] m IH]; simpl; [done|].
  destruct (decide (k' = k)) as [->|Hne].
  - intros [= ->]. left.
  - intros Hg. right. by apply IH.
Qed.

Lemma JsMap_get_value m k v : JsMap.get m k = Some v -> v ∈ JsMap.values m.
Proof.
  intros Hg. apply JsMap_get_elem in Hg. unfold JsMap.values.
  by apply (list_elem_of_fmap_2 snd) in Hg.
Qed.

Lemma JsMap_get_None m k : k ∉ JsMap.keys m -> JsMap.get m k = None.
Proof.
  induction m as [|[k' v'] m IH]; simpl; [done|].
  intros Hni. apply not_elem_of_cons in Hni as [Hne Hni].
  rewrite decide_False by done. by apply IH.
Qed.

Lemma JsMap_get_is_Some m k : k ∈ JsMap.keys m -> is_Some (JsMap.get m k).
Proof.
  induction m as [|[k' v'] m IH]; simpl.
  - intros Hin. by apply elem_of_nil in Hin.
  - intros Hin. destruct (decide (k' = k)); [by eexists|].
    apply elem_of_cons in Hin as [?|Hin]; [done|]. by apply IH.
Qed.

Lemma JsMap_get_distinct m k1 k2 v1 v2 :
  NoDup (JsMap.values m) ->
  JsMap.get m k1 = Some v1 -> JsMap.get m k2 = Some v2 -> k1 ≠ k2 ->
  v1 ≠ v2.
Proof.
  induction m as [|[k' v'] m IH]; simpl; [done|].
  intros Hnd H1 H2 Hne. apply NoDup_cons in Hnd as [Hni Hnd].
  destruct (decide (k' = k1)) as [->|Hne1].
  - injection H1 as ->. rewrite decide_False in H2 by done.
    intros ->. apply Hni. by eapply JsMap_get_value.
  - destruct (decide (k' = k2)) as [->|Hne2].
    + injection H2 as ->. intros ->. apply Hni. by eapply JsMap_get_value.
    + by apply IH.
Qed.

Lemma JsMap_set_fresh m k v :
  k ∉ JsMap.keys m -> JsMap.set m k v = m ++ [(k, v)].
Proof.
  induction m as [|[k' v'] m IH]; simpl; [done|].
  intros Hni. apply not_elem_of_cons in Hni as [Hne Hni].
  rewrite decide_False by done. by rewrite IH.
Qed.

Lemma JsMap_get_app_l m1 m2 k :
  k ∈ JsMap.keys m1 -> JsMap.get (m1 ++ m2) k = JsMap.get m1 k.
Proof.
  induction m1 as [|[k' v'] m1 IH]; simpl.
  - intros Hin. by apply elem_of_nil in Hin.
  - intros Hin. destruct (decide (k' = k)); [done|].
    apply elem_of_cons in Hin as [?|Hin]; [done|]. by apply IH.
Qed.

Lemma JsMap_get_app_r m1 m2 k :
  k ∉ JsMap.keys m1 -> JsMap.get (m1 ++ m2) k = JsMap.get m2 k.
Proof.
  induction m1 as [|[k' v'] m1 IH]; simpl; [done|].
  intros Hni. apply not_elem_of_cons in Hni as [Hne Hni].
  rewrite decide_False by done. by apply IH.
Qed.
End JsMap_facts.

Lemma NoDup_fmap_eq {A B} (f : A -> B) (l : list A) x y :
  NoDup (map f l) -> x ∈ l -> y ∈ l -> f x = f y -> x = y.
Proof.
  intros Hnd Hx Hy Heq.
  apply list_elem_of_lookup in Hx as [i Hi], Hy as [j Hj].
  assert (i = j) as ->; [|congruence].
  eapply NoDup_lookup; [exact Hnd| |].
  - by rewrite list_lookup_fmap, Hi.
  - rewrite list_lookup_fmap, Hj. simpl. by rewrite Heq.
Qed.

(** ** [onUpdateRecord] and [onBulkUpdateRecord] *)

(** Two heaps with the same objects and arrays of the same lengths, that
    agree on the array [r]. *)
Definition same_shape (r : aref) (h h' : Heap) : Prop :=
  objs h' = objs h /\ length (arrays h') = length (arrays h) /\
  (forall a, length (read h' a) = length (read h a)) /\
  read h' r = read h r.

Lemma same_shape_refl r h : same_shape r h h.
Proof. by repeat split. Qed.

Lemma same_shape_ok h h' t :
  same_shape (_rowIdCol t) h h' -> table_ok h t -> table_ok h' t.
Proof.
  intros (Ho & Hl & Hlen & Hr) (Hwf & Hlen0 & Hidx).
  split; [|split].
  - eapply table_wf_heap; [exact Ho|lia|done..].
  - intros o cd Hin Hcd. rewrite !Hlen. rewrite Ho in Hcd.
    by apply (Hlen0 o cd).
  - unfold idx_ok. by rewrite Hr.
Qed.

(** A column other than [id] is not the view of the row-id array. *)
Lemma wf_column_not_id h t cid cd :
  table_wf h t -> cid ≠ "id" -> column h t cid = Some cd ->
  values cd ≠ _rowIdCol t /\ values cd < length (arrays h) /\
  exists o, o ∈ JsMap.values (_columns t) /\ objs h !! o = Some cd.
Proof.
  intros Hwf Hne Hc. unfold column in Hc.
  destruct (JsMap.get (_columns t) cid) as [o|] eqn:Hg; [|done].
  simpl in Hc.
  destruct (wf_id _ _ Hwf) as (oid & Hgid & Hv & Hp).
  pose proof (JsMap_get_value _ _ _ Hg) as Hin.
  pose proof (JsMap_get_value _ _ _ Hgid) as Hinid.
  destruct (wf_valid _ _ Hwf o Hin) as (cd' & Hcd' & Hvalid).
  assert (cd' = cd) as -> by congruence.
  split; [|split; [done|by exists o]].
  intros Heq.
  assert (o ≠ oid) as Hoo.
  { eapply JsMap_get_distinct; [|exact Hg|exact Hgid|done].
    eapply NoDup_fmap_1. apply (wf_sep _ _ Hwf). }
  apply Hoo. eapply NoDup_fmap_eq; [apply (wf_sep _ _ Hwf)|done|done|].
  unfold values_of at 1. rewrite Hc. simpl. by rewrite Heq.
Qed.

Lemma update_cell_shape h h' t index cid v :
  table_ok h t -> same_shape (_rowIdCol t) h h' ->
  index < length (read h (_rowIdCol t)) -> cid ≠ "id" ->
  same_shape (_rowIdCol t) h (update_cell t index h' cid v).
Proof.
  intros (Hwf & Hlen & _) (Ho & Hl & Hlens & Hr) Hi Hne.
  unfold update_cell.
  assert (Hcol : column h' t cid = column h t cid).
  { unfold column. by rewrite Ho. }
  rewrite Hcol. destruct (column h t cid) as [cd|] eqn:Hc; [|done].
  destruct (wf_column_not_id h t cid cd Hwf Hne Hc)
    as (Hnr & Hv & o & Hin & Hcd).
  unfold arr_store. split; [done|].
  split; [by rewrite length_arrays_write|]. split.
  - intros a. destruct (decide (a = values cd)) as [->|Hna].
    + rewrite read_write_eq by lia.
      rewrite arr_set_length_lt; [done|].
      rewrite Hlens, (Hlen o cd); done.
    + by rewrite read_write_ne.
  - by rewrite read_write_ne.
Qed.

Lemma update_cells_shape {A} (sel : A -> CellValue) h t index
    (l : list (string * A)) h' :
  table_ok h t -> same_shape (_rowIdCol t) h h' ->
  index < length (read h (_rowIdCol t)) ->
  (forall p, p ∈ l -> p.1 ≠ "id") ->
  same_shape (_rowIdCol t) h
    (foldl (fun h p => update_cell t index h p.1 (sel p.2)) h' l).
Proof.
  intros Hok Hs Hi Hl. revert h' Hs.
  induction l as [|p l IH]; intros h' Hs; simpl; [done|].
  apply IH.
  - intros q Hq. apply Hl. by right.
  - apply update_cell_shape; [done..|]. apply Hl. left.
Qed.

Lemma map_to_list_not_id {A} (m : gmap string A) p :
  m !! "id" = None -> p ∈ map_to_list m -> p.1 ≠ "id".
Proof.
  intros Hm Hp Heq. destruct p as [k a]. simpl in Heq. subst k.
  apply elem_of_map_to_list in Hp. congruence.
Qed.

Lemma onUpdateRecord_shape h t rowId colValues :
  table_ok h t -> colValues !! "id" = None ->
  (onUpdateRecord h t rowId colValues).2 = t /\
  same_shape (_rowIdCol t) h (onUpdateRecord h t rowId colValues).1.
Proof.
  intros Hok Hid. unfold onUpdateRecord.
  destruct (_rowMap t !! VNum rowId) as [index|] eqn:Hm; simpl.
  - split; [done|].
    apply (update_cells_shape (fun v => v)); [done|apply same_shape_refl| |].
    + destruct Hok as (_ & _ & _ & Hidx2).
      eapply lookup_lt_Some. by apply Hidx2.
    + intros p. by apply map_to_list_not_id.
  - split; [done|apply same_shape_refl].
Qed.

Lemma bulk_update_rows_shape h t rowIds colValues i h' :
  table_ok h t -> colValues !! "id" = None ->
  same_shape (_rowIdCol t) h h' ->
  same_shape (_rowIdCol t) h (bulk_update_rows t rowIds colValues i h').
Proof.
  intros Hok Hid. revert i h'.
  induction rowIds as [|r rowIds IH]; intros i h' Hs; simpl; [done|].
  apply IH. destruct (_rowMap t !! VNum r) as [index|] eqn:Hm; [|done].
  apply (update_cells_shape (fun vals => arr_get vals (Z.of_nat i)));
    [done|done| |].
  - destruct Hok as (_ & _ & _ & Hidx2).
    eapply lookup_lt_Some. by apply Hidx2.
  - intros p. by apply map_to_list_not_id.
Qed.

Lemma onUpdateRecord_ok h t rowId colValues :
  table_ok h t -> colValues !! "id" = None ->
  table_ok (onUpdateRecord h t rowId colValues).1
    (onUpdateRecord h t rowId colValues).2.
Proof.
  intros Hok Hid.
  destruct (onUpdateRecord_shape h t rowId colValues Hok Hid) as [-> Hs].
  by eapply same_shape_ok.
Qed.

Lemma onBulkUpdateRecord_ok h t rowIds colValues :
  table_ok h t -> colValues !! "id" = None ->
  table_ok (onBulkUpdateRecord h t rowIds colValues).1
    (onBulkUpdateRecord h t rowIds colValues).2.
Proof.
  intros Hok Hid. unfold onBulkUpdateRecord. simpl.
  eapply same_shape_ok; [|done].
  apply bulk_update_rows_shape; [done|done|apply same_shape_refl].
Qed.

(** ** [onBulkAddRecord] *)

(** [idx_ok] on the contents of the row-id array and of the index. *)
Definition idx_rel (ids : list CellValue) (m : gmap CellValue nat) : Prop :=
  (forall i v, ids !! i = Some v -> (exists n, v = VNum n) /\ m !! v = Some i) /\
  (forall n i, m !! VNum n = Some i -> ids !! i = Some (VNum n)).

Lemma idx_rel_append ids m x :
  idx_rel ids m -> VNum x ∉ ids ->
  idx_rel (ids ++ [VNum x]) (<[VNum x := length ids]> m).
Proof.
  intros [H1 H2] Hfresh. split.
  - intros i v Hi. apply lookup_app_Some in Hi as [Hi|[Hge Hi]].
    + destruct (H1 i v Hi) as [Hn Hv]. split; [done|].
      rewrite lookup_insert_ne; [done|].
      intros <-. apply Hfresh. by eapply list_elem_of_lookup_2.
    + apply list_lookup_singleton_Some in Hi as [Hi <-].
      split; [by eexists|]. rewrite lookup_insert_eq. f_equal. lia.
  - intros n i Hi. destruct (decide (n = x)) as [->|Hne].
    + rewrite lookup_insert_eq in Hi. injection Hi as <-.
      rewrite lookup_app_r by done. by rewrite Nat.sub_diag.
    + rewrite lookup_insert_ne in Hi by congruence.
      rewrite lookup_app_l; [by apply H2|].
      eapply lookup_lt_Some. by apply H2.
Qed.

Lemma bulk_add_ids_spec index rowIds i h t :
  _rowIdCol t < length (arrays h) ->
  length (read h (_rowIdCol t)) = index + i ->
  let st := bulk_add_ids index rowIds i (h, t) in
  objs st.1 = objs h /\ length (arrays st.1) = length (arrays h) /\
  _columns st.2 = _columns t /\ _colArray st.2 = _colArray t /\
  _rowIdCol st.2 = _rowIdCol t /\ _isLoaded st.2 = _isLoaded t /\
  read st.1 (_rowIdCol t) = read h (_rowIdCol t) ++ map VNum rowIds /\
  (forall a, a ≠ _rowIdCol t -> read st.1 a = read h a) /\
  (idx_rel (read h (_rowIdCol t)) (_rowMap t) -> NoDup rowIds ->
   (forall x, x ∈ rowIds -> VNum x ∉ read h (_rowIdCol t)) ->
   idx_rel (read st.1 (_rowIdCol t)) (_rowMap st.2)).
Proof.
  revert i h t. induction rowIds as [|x rowIds IH]; intros i h t Hr Hlen;
    cbv zeta.
  { simpl. rewrite app_nil_r. repeat (split; [done|]). done. }
  simpl.
  set (h1 := arr_store h (_rowIdCol t) (index + i) (VNum x)).
  set (t1 := set_rowMap t (<[VNum x := index + i]> (_rowMap t))).
  assert (Hread : read h1 (_rowIdCol t) = read h (_rowIdCol t) ++ [VNum x]).
  { unfold h1, arr_store. rewrite read_write_eq by done.
    rewrite <- Hlen. apply arr_set_append. }
  destruct (IH (S i) h1 t1) as (H1 & H2 & H3 & H4 & H5 & H6 & H7 & H8 & H9).
  { unfold h1, arr_store. by rewrite length_arrays_write. }
  { change (_rowIdCol t1) with (_rowIdCol t). rewrite Hread, length_app.
    simpl. lia. }
  change (_rowIdCol t1) with (_rowIdCol t) in *.
  split; [done|]. split.
  { rewrite H2. unfold h1, arr_store. apply length_arrays_write. }
  split; [done|]. split; [done|]. split; [done|]. split; [done|]. split.
  { rewrite H7, Hread, <- app_assoc. done. }
  split.
  { intros a Ha. rewrite H8 by done. unfold h1, arr_store.
    by rewrite read_write_ne. }
  intros Hrel Hnd Hfresh. apply NoDup_cons in Hnd as [Hx Hnd].
  apply H9; [|done|].
  - rewrite Hread. unfold t1. simpl. rewrite <- Hlen.
    apply idx_rel_append; [done|]. apply Hfresh. left.
  - intros y Hy. rewrite Hread. intros Hin.
    apply elem_of_app in Hin as [Hin|Hin].
    + by apply (Hfresh y); [right|].
    + apply list_elem_of_singleton in Hin. injection Hin as ->. done.
Qed.

Lemma bulk_cells_length colData colValues index n i l :
  length l = index + i ->
  length (bulk_cells colData colValues index n i l) = index + i + n.
Proof.
  revert i l. induction n as [|n IH]; intros i l Hl; simpl; [lia|].
  rewrite IH; [lia|]. rewrite <- Hl, arr_set_append, length_app. simpl. lia.
Qed.

Lemma onBulkAddRecord_ok h t rowIds colValues :
  table_ok h t -> NoDup rowIds ->
  (forall x, x ∈ rowIds -> VNum x ∉ read h (_rowIdCol t)) ->
  table_ok (onBulkAddRecord h t rowIds colValues).1
    (onBulkAddRecord h t rowIds colValues).2.
Proof.
  intros (Hwf & Hlen & Hidx) Hnd Hfresh. unfold onBulkAddRecord.
  set (index := length (read h (_rowIdCol t))).
  destruct (bulk_add_ids_spec index rowIds 0 h t)
    as (H1 & H2 & H3 & H4 & H5 & H6 & H7 & H8 & H9).
  { apply (wf_rowIdCol _ _ Hwf). }
  { unfold index. lia. }
  destruct (bulk_add_ids index rowIds 0 (h, t)) as [h1 t1] eqn:Hst.
  simpl in *.
  assert (Hwf1 : table_wf h1 t1).
  { eapply table_wf_heap; [exact H1|lia|done..]. }
  set (g := fun cd l => bulk_cells cd colValues index (length rowIds) 0 l).
  rewrite (foldl_pointwise _ (upd_col g))
    by (intros; apply bulk_add_column_upd).
  set (h2 := foldl (upd_col g) h1 (_colArray t1)).
  assert (Ho2 : objs h2 = objs h1)
    by apply (loop_objs _ (upd_col_step g)).
  assert (Hl2 : length (arrays h2) = length (arrays h1))
    by apply upd_col_arrays_length.
  assert (Hr2 : read h2 (_rowIdCol t) = read h1 (_rowIdCol t)).
  { apply (loop_frame _ (upd_col_step g)).
    - rewrite H2. apply (wf_rowIdCol _ _ Hwf).
    - intros o Ho. rewrite <- H5. by apply wf_colArray_not_id. }
  split; [|split].
  - apply (table_wf_heap h1 h2 t1 t1); [exact Ho2|lia|done..].
  - intros o cd. rewrite H5, Hr2, H7, Ho2. intros Hin Hcd.
    destruct (wf_columns_cases h1 t1 Hwf1 o cd Hin Hcd) as [Heq|[Hin' Hne]].
    + by rewrite Heq, H5, Hr2, H7.
    + destruct (wf_valid _ _ Hwf1 o Hin) as (cd' & Hcd' & Hv).
      assert (cd' = cd) as -> by congruence.
      unfold h2. rewrite (upd_col_loop_hit g _ _ o cd);
        [|by apply wf_colArray_sep|done..].
      unfold g. rewrite bulk_cells_length.
      * rewrite length_app, length_map. unfold index. lia.
      * rewrite H8 by congruence. rewrite Nat.add_0_r.
        apply (Hlen o cd); [by rewrite <- H3|by rewrite <- H1].
  - unfold idx_ok. rewrite H5, Hr2. by apply H9.
Qed.

(** ** [loadData] *)

Lemma arraySplice_empty l : arraySplice [] 0 l = l.
Proof. unfold arraySplice. simpl. apply app_nil_r. Qed.

Lemma reassignArray_objs h a b : objs (reassignArray h a b) = objs h.
Proof. done. Qed.

Lemma reassignArray_length h a b :
  length (arrays (reassignArray h a b)) = length (arrays h).
Proof. unfold reassignArray. by rewrite !length_arrays_write. Qed.

Lemma reassignArray_other h a b c :
  c ≠ a -> read (reassignArray h a b) c = read h c.
Proof.
  intros Hne. unfold reassignArray. by rewrite !read_write_ne.
Qed.

(** The target receives the contents of a different array. *)
Lemma reassignArray_target h a b :
  a < length (arrays h) -> a ≠ b ->
  read (reassignArray h a b) a = read h b.
Proof.
  intros Ha Hne. unfold reassignArray.
  rewrite read_write_eq by (by rewrite length_arrays_write).
  rewrite read_write_eq by done.
  by rewrite arraySplice_empty, read_write_ne.
Qed.

(** Reassigning an array from itself empties it. *)
Lemma reassignArray_self h a :
  a < length (arrays h) -> read (reassignArray h a a) a = [].
Proof.
  intros Ha. unfold reassignArray.
  rewrite read_write_eq by (by rewrite length_arrays_write).
  by rewrite read_write_eq.
Qed.

Lemma loadData_column_step r colValues : col_step (loadData_column r colValues).
Proof.
  split; intros h o; unfold loadData_column.
  - destruct (objs h !! o) as [cd|]; [|done].
    by destruct (colValues !! colId cd).
  - destruct (objs h !! o) as [cd|]; [|done].
    destruct (colValues !! colId cd).
    + by rewrite reassignArray_length.
    + unfold alloc. lazy beta iota zeta. rewrite reassignArray_length.
      simpl. rewrite length_app. lia.
  - intros a Ha Hne. unfold values_of in Hne.
    destruct (objs h !! o) as [cd|]; [|done]. simpl in Hne.
    destruct (colValues !! colId cd).
    + apply reassignArray_other. congruence.
    + unfold alloc. lazy beta iota zeta.
      rewrite reassignArray_other by congruence.
      by apply (read_alloc_old h).
Qed.

(** The new contents of a column after [loadData]. *)
Definition loaded_values (h : Heap) (colValues : gmap string aref)
    (n : nat) (cd : ColData) : list CellValue :=
  match colValues !! colId cd with
  | Some a => read h a
  | None => replicate n (defl cd)
  end.

Lemma map_const_replicate {A B} (l : list A) (b : B) :
  map (fun _ => b) l = replicate (length l) b.
Proof. induction l; simpl; by f_equal. Qed.

Lemma loadData_column_read r colValues h o cd :
  objs h !! o = Some cd -> values cd < length (arrays h) ->
  (forall a, colValues !! colId cd = Some a -> a ≠ values cd) ->
  read (loadData_column r colValues h o) (values cd) =
  loaded_values h colValues (length (read h r)) cd.
Proof.
  intros Hcd Hv Hsrc. unfold loadData_column, loaded_values. rewrite Hcd.
  destruct (colValues !! colId cd) as [a|] eqn:Ha.
  - apply reassignArray_target; [done|]. intros Heq. by apply (Hsrc a).
  - unfold alloc. lazy beta iota zeta. rewrite reassignArray_target.
    + pose proof (read_alloc_new h (map (fun _ => defl cd) (read h r))) as Hn.
      unfold alloc in Hn. simpl in Hn. rewrite Hn. apply map_const_replicate.
    + simpl. rewrite length_app. lia.
    + lia.
Qed.

(** An array that the table does not own. *)
Definition foreign (h : Heap) (t : TableData) (a : aref) : Prop :=
  a < length (arrays h) /\ a ≠ _rowIdCol t /\
  forall o, o ∈ JsMap.values (_columns t) -> values_of h o ≠ Some a.

Lemma loadData_frame h t d :
  let st := loadData h t d in
  st.2 = read h (_rowIdCol t) /\
  objs st.1.1 = objs h /\ length (arrays h) <= length (arrays st.1.1) /\
  _columns st.1.2 = _columns t /\ _colArray st.1.2 = _colArray t /\
  _rowIdCol st.1.2 = _rowIdCol t /\ _isLoaded st.1.2 = true /\
  _tableId st.1.2 = _tableId t /\
  _rowMap st.1.2 = index_rows (read st.1.1 (tda_rowIds d)) 0 ∅.
Proof.
  unfold loadData. simpl. split; [done|].
  split; [by rewrite (loop_objs _ (loadData_column_step _ _))|].
  split; [|done].
  etrans; [|apply (loop_length _ (loadData_column_step _ _))].
  by rewrite reassignArray_length.
Qed.

Lemma loadData_foreign h t d a :
  table_wf h t -> foreign h t a ->
  read (loadData h t d).1.1 a = read h a.
Proof.
  intros Hwf (Ha & Hr & Hcols). unfold loadData. simpl.
  rewrite (loop_frame _ (loadData_column_step _ _)).
  - by apply reassignArray_other.
  - by rewrite reassignArray_length.
  - intros o Ho. apply Hcols. by apply (wf_colArray_in h t Hwf).
Qed.

Lemma loadData_rowIds h t d :
  table_wf h t -> foreign h t (tda_rowIds d) ->
  read (loadData h t d).1.1 (_rowIdCol t) = read h (tda_rowIds d).
Proof.
  intros Hwf (Ha & Hr & Hcols). unfold loadData. simpl.
  rewrite (loop_frame _ (loadData_column_step _ _)).
  - apply reassignArray_target; [apply (wf_rowIdCol _ _ Hwf)|done].
  - rewrite reassignArray_length. apply (wf_rowIdCol _ _ Hwf).
  - intros o Ho. apply (wf_colArray_not_id h t Hwf o Ho).
Qed.

Lemma loadData_column_values h t d o cd :
  table_wf h t -> foreign h t (tda_rowIds d) ->
  (forall c a, tda_colValues d !! c = Some a -> foreign h t a) ->
  o ∈ _colArray t -> objs h !! o = Some cd ->
  read (loadData h t d).1.1 (values cd) =
  loaded_values h (tda_colValues d) (length (read h (tda_rowIds d))) cd.
Proof.
  intros Hwf Hrow Hcols Ho Hcd. unfold loadData. simpl.
  set (h1 := reassignArray h (_rowIdCol t) (tda_rowIds d)).
  pose proof (wf_colArray_in h t Hwf o Ho) as Hin.
  destruct (wf_valid _ _ Hwf o Hin) as (cd' & Hcd' & Hv).
  assert (cd' = cd) as -> by congruence.
  assert (Hvo : values_of h o = Some (values cd)).
  { unfold values_of. by rewrite Hcd. }
  assert (Hagree : forall b h',
    b < length (arrays h) ->
    (forall b', b' < length (arrays h1) ->
       (forall o', o' ∈ _colArray t -> o' ≠ o -> values_of h1 o' ≠ Some b') ->
       read h' b' = read h1 b') ->
    (forall o', o' ∈ _colArray t -> values_of h o' ≠ Some b) ->
    read h' b = read h1 b).
  { intros b h' Hb Hag Hno. apply Hag.
    - unfold h1. by rewrite reassignArray_length.
    - intros o' Ho' _. by apply Hno. }
  destruct (loop_hit _ (loadData_column_step (_rowIdCol t) (tda_colValues d))
              (_colArray t) h1 o (values cd))
    as (h' & H1 & H2 & H3 & H4).
  { apply (wf_colArray_sep h t Hwf). }
  { done. }
  { done. }
  { unfold h1. by rewrite reassignArray_length. }
  rewrite H4.
  assert (Hown : read h' (values cd) = read h1 (values cd)).
  { apply H3; [unfold h1; by rewrite reassignArray_length|].
    intros o' Ho' Hne Heq. apply Hne.
    eapply (NoDup_fmap_eq (values_of h)); [apply (wf_colArray_sep h t Hwf)|..];
      [done|done|]. by rewrite Hvo. }
  rewrite loadData_column_read.
  - unfold loaded_values.
    destruct (tda_colValues d !! colId cd) as [a|] eqn:Ha.
    + destruct (Hcols _ _ Ha) as (Hav & Har & Hac).
      rewrite (Hagree a h' Hav H3).
      * unfold h1. by rewrite reassignArray_other.
      * intros o' Ho'. apply Hac. by apply (wf_colArray_in h t Hwf).
    + f_equal. rewrite (Hagree (_rowIdCol t) h' (wf_rowIdCol _ _ Hwf) H3).
      * unfold h1. f_equal. apply reassignArray_target;
          [apply (wf_rowIdCol _ _ Hwf)|]. by destruct Hrow as (_ & ? & _).
      * intros o' Ho'. apply (wf_colArray_not_id h t Hwf o' Ho').
  - by rewrite H1.
  - unfold h1 in H2. rewrite reassignArray_length in H2. lia.
  - intros a Ha Heq. destruct (Hcols _ _ Ha) as (_ & _ & Hac).
    apply (Hac o Hin). by rewrite Hvo, Heq.
Qed.

(** The index that [loadData] builds. *)
Lemma index_rows_spec l i m :
  NoDup l ->
  (forall j v, l !! j = Some v -> index_rows l i m !! v = Some (i + j)) /\
  (forall v, v ∉ l -> index_rows l i m !! v = m !! v).
Proof.
  revert i m. induction l as [|x l IH]; intros i m Hnd.
  { split; [done|]. done. }
  apply NoDup_cons in Hnd as [Hx Hnd].
  destruct (IH (S i) (<[x := i]> m) Hnd) as [IH1 IH2]. simpl. split.
  - intros [|j] v Hj; simpl in Hj.
    + injection Hj as ->. rewrite IH2 by done.
      rewrite lookup_insert_eq. f_equal. lia.
    + rewrite (IH1 j v Hj). f_equal. lia.
  - intros v Hv. apply not_elem_of_cons in Hv as [Hne Hv].
    rewrite IH2 by done. by rewrite lookup_insert_ne.
Qed.

Lemma index_rows_rel ids :
  NoDup ids -> (forall v, v ∈ ids -> exists n, v = VNum n) ->
  idx_rel ids (index_rows ids 0 ∅).
Proof.
  intros Hnd Hnum. destruct (index_rows_spec ids 0 ∅ Hnd) as [H1 H2]. split.
  - intros i v Hi. split; [|by apply H1].
    apply Hnum. by eapply list_elem_of_lookup_2.
  - intros n i Hi. destruct (decide (VNum n ∈ ids)) as [Hin|Hni].
    + apply list_elem_of_lookup in Hin as [j Hj].
      rewrite (H1 j _ Hj) in Hi. simpl in Hi. by injection Hi as <-.
    + by rewrite H2 in Hi.
Qed.

(** ** The constructor *)

Section constructor.

Variable getDefaultForType : string -> CellValue.

(** The constructor's state after the columns [done_] of [colTypes], on top
    of a heap [h0] of [n0] arrays. *)
Record building (n0 : nat) (h0 h : Heap) (t : TableData)
    (done_ : list (string * string)) : Prop := {
  b_rowIdCol : n0 <= _rowIdCol t < length (arrays h);
  b_keys : JsMap.keys (_columns t) = done_.*1;
  b_values : JsMap.values (_columns t) = _colArray t;
  b_cols : forall o, o ∈ _colArray t ->
    exists cd, objs h !! o = Some cd /\
      n0 <= values cd < length (arrays h) /\ values cd ≠ _rowIdCol t /\
      read h (values cd) = [] /\
      JsMap.get (_columns t) (colId cd) = Some o /\
      (colId cd, type cd) ∈ done_ /\
      defl cd = getDefaultForType (type cd);
  b_sep : NoDup (map (values_of h) (_colArray t));
  b_empty : read h (_rowIdCol t) = [] /\ _rowMap t = ∅;
  b_old : forall a, a < n0 -> read h a = read h0 a;
  b_flags : _isLoaded t = false /\ _fetchPromise t = None;
}.

Lemma JsMap_get_key {V} (m : list (string * V)) k v :
  JsMap.get m k = Some v -> k ∈ JsMap.keys m.
Proof.
  intros Hg. apply JsMap_get_elem in Hg.
  by apply (list_elem_of_fmap_2 fst) in Hg.
Qed.

Lemma new_column_building n0 h0 h t done_ c :
  building n0 h0 h t done_ -> c.1 ∉ done_.*1 ->
  building n0 h0 (new_column getDefaultForType (h, t) c).1
    (new_column getDefaultForType (h, t) c).2 (done_ ++ [c]).
Proof.
  intros [B1 B2 B3 B4 B5 [B6 B6'] B7 B8] Hfresh. destruct c as [cid ty].
  simpl in Hfresh. unfold new_column, alloc, alloc_obj. simpl.
  assert (Hset : JsMap.set (_columns t) cid (length (objs h)) =
                 _columns t ++ [(cid, length (objs h))]).
  { apply JsMap_set_fresh. by rewrite B2. }
  rewrite Hset.
  assert (Hold : forall o, o ∈ _colArray t -> o < length (objs h)).
  { intros o Ho. destruct (B4 o Ho) as (cd & Hcd & _).
    by eapply lookup_lt_Some. }
  split; simpl.
  - rewrite length_app. simpl. lia.
  - unfold JsMap.keys. rewrite !fmap_app. simpl. f_equal. apply B2.
  - unfold JsMap.values. rewrite fmap_app. simpl. f_equal. apply B3.
  - intros o Ho. apply elem_of_app in Ho as [Ho|Ho].
    + destruct (B4 o Ho) as (cd & Hcd & Hv & Hr & He & Hg & Hd & Hdef).
      exists cd. rewrite lookup_app_l by (by eapply lookup_lt_Some).
      split; [done|]. rewrite length_app. simpl.
      split; [lia|]. split; [done|]. split.
      { unfold read. simpl. rewrite lookup_app_l by lia. apply He. }
      split.
      { rewrite JsMap_get_app_l; [done|]. by eapply JsMap_get_key. }
      split; [|done]. apply elem_of_app. by left.
    + apply list_elem_of_singleton in Ho as ->.
      eexists. rewrite lookup_app_r by done. rewrite Nat.sub_diag. simpl.
      split; [done|]. simpl. rewrite length_app. simpl.
      split; [lia|]. split; [lia|]. split.
      { unfold read. simpl. rewrite lookup_app_r by done.
        by rewrite Nat.sub_diag. }
      split.
      { rewrite JsMap_get_app_r by (by rewrite B2). simpl.
        by rewrite decide_True. }
      split; [|done]. apply elem_of_app. right. left.
  - rewrite map_app. simpl. apply NoDup_app. split; [|split].
    + erewrite map_ext_in; [exact B5|]. intros o Ho.
      apply list_elem_of_In in Ho. unfold values_of. simpl.
      by rewrite lookup_app_l by (by apply Hold).
    + intros x Hx Hx'. apply list_elem_of_singleton in Hx' as ->.
      apply list_elem_of_fmap in Hx as (o & Heq & Ho).
      destruct (B4 o Ho) as (cd & Hcd & Hv & _).
      unfold values_of in Heq. simpl in Heq.
      rewrite (lookup_app_l _ _ o) in Heq by (by apply Hold).
      rewrite (lookup_app_r _ _ (length (objs h))) in Heq by done.
      rewrite Nat.sub_diag, Hcd in Heq. simpl in Heq.
      injection Heq. lia.
    + apply NoDup_singleton.
  - split; [|done]. unfold read. simpl. rewrite lookup_app_l by lia.
    apply B6.
  - intros a Ha. rewrite <- (B7 a Ha). unfold read. simpl.
    by rewrite lookup_app_l by lia.
  - done.
Qed.

Lemma new_columns_building n0 h0 l h t done_ :
  building n0 h0 h t done_ -> NoDup (done_.*1 ++ l.*1) ->
  building n0 h0 (foldl (new_column getDefaultForType) (h, t) l).1
    (foldl (new_column getDefaultForType) (h, t) l).2 (done_ ++ l).
Proof.
  revert h t done_. induction l as [|c l IH]; intros h t done_ Hb Hnd.
  { simpl. by rewrite app_nil_r. }
  change (foldl (new_column getDefaultForType) (h, t) (c :: l))
    with (foldl (new_column getDefaultForType)
            (new_column getDefaultForType (h, t) c) l).
  destruct (new_column getDefaultForType (h, t) c) as [h1 t1] eqn:Hst.
  replace (done_ ++ c :: l) with ((done_ ++ [c]) ++ l)
    by (by rewrite <- app_assoc).
  apply IH.
  - pose proof (new_column_building n0 h0 h t done_ c Hb) as Hn.
    rewrite Hst in Hn. apply Hn.
    apply NoDup_app in Hnd as (_ & Hd & _).
    intros Hin. apply (Hd _ Hin). simpl. left.
  - rewrite fmap_app. simpl. rewrite <- app_assoc. done.
Qed.

(** What the constructor establishes, for a table built on top of the heap
    [h0]: a well-formed table whose arrays are new, with one column per
    entry of [colTypes]. *)
Record constructed (h0 h : Heap) (t : TableData)
    (colTypes : gmap string string) : Prop := {
  c_wf : table_wf h t;
  c_fresh : forall a, a < length (arrays h0) -> foreign h t a;
  c_cols : forall o, o ∈ _colArray t ->
    exists cd, objs h !! o = Some cd /\
      JsMap.get (_columns t) (colId cd) = Some o /\
      colTypes !! colId cd = Some (type cd) /\
      defl cd = getDefaultForType (type cd);
  c_keys : forall c, c ∈ JsMap.keys (_columns t) <->
                     c = "id" \/ is_Some (colTypes !! c);
}.

Lemma TableData_new_empty h tableId colTypes h' t' :
  colTypes !! "id" = None ->
  TableData_new getDefaultForType h tableId None colTypes = (h', t') ->
  constructed h h' t' colTypes /\
  len_ok h' t' /\ idx_ok h' t' /\
  read h' (_rowIdCol t') = [] /\
  (forall a, a < length (arrays h) -> read h' a = read h a) /\
  _isLoaded t' = false /\ _fetchPromise t' = None /\
  _tableId t' = tableId.
Proof.
  intros Hid Hnew. unfold TableData_new, alloc in Hnew.
  lazy beta iota zeta in Hnew.
  set (h0 := {| arrays := arrays h ++ [[]]; objs := objs h |}) in *.
  set (t0 := mkTableData tableId false None [] [] (length (arrays h)) ∅) in *.
  assert (Hb0 : building (length (arrays h)) h h0 t0 []).
  { split; simpl; try done.
    - rewrite length_app. simpl. lia.
    - intros o Ho. by apply elem_of_nil in Ho.
    - constructor.
    - split; [|done]. unfold read. simpl.
      rewrite lookup_app_r by done. by rewrite Nat.sub_diag.
    - intros a Ha. unfold read. simpl. by rewrite lookup_app_l. }
  pose proof (new_columns_building _ h (map_to_list colTypes) h0 t0 [] Hb0)
    as Hb.
  simpl in Hb. specialize (Hb (NoDup_fst_map_to_list colTypes)).
  assert (Htid : forall l st,
    _tableId (foldl (new_column getDefaultForType) st l).2 = _tableId st.2 /\
    _rowIdCol (foldl (new_column getDefaultForType) st l).2 = _rowIdCol st.2).
  { induction l as [|c l IH]; intros st; simpl; [done|].
    destruct (IH (new_column getDefaultForType st c)) as [-> ->].
    by destruct st as [? ?], c as [? ?]. }
  specialize (Htid (map_to_list colTypes) (h0, t0)).
  destruct (foldl (new_column getDefaultForType) (h0, t0)
              (map_to_list colTypes)) as [h1 t1].
  simpl in Hb, Htid. destruct Htid as [Htid Hrid].
  destruct Hb as [B1 B2 B3 B4 B5 [B6 B6'] B7 [B8 B8']].
  unfold alloc_obj in Hnew. lazy beta iota zeta in Hnew.
  rewrite <- Hrid in Hnew.
  assert (Hidkey : "id" ∉ JsMap.keys (_columns t1)).
  { rewrite B2. intros Hin.
    apply list_elem_of_fmap in Hin as ([k v] & Heq & Hin).
    simpl in Heq. subst k. apply elem_of_map_to_list in Hin. congruence. }
  rewrite (JsMap_set_fresh _ _ _ Hidkey) in Hnew.
  assert (Hold : forall o, o ∈ _colArray t1 -> o < length (objs h1)).
  { intros o Ho. destruct (B4 o Ho) as (cd & Hcd & _).
    by eapply lookup_lt_Some. }
  assert (Hvo : forall o, o ∈ _colArray t1 ->
    values_of {| arrays := arrays h1;
                 objs := objs h1 ++
                   [mkColData "id" "Id" (VNum 0) (_rowIdCol t1)] |} o =
    values_of h1 o).
  { intros o Ho. unfold values_of. simpl.
    by rewrite lookup_app_l by (by apply Hold). }
  assert (Hvid :
    values_of {| arrays := arrays h1;
                 objs := objs h1 ++
                   [mkColData "id" "Id" (VNum 0) (_rowIdCol t1)] |}
      (length (objs h1)) = Some (_rowIdCol t1)).
  { unfold values_of. simpl. rewrite lookup_app_r by done.
    by rewrite Nat.sub_diag. }
  assert (Hwf : table_wf
    {| arrays := arrays h1;
       objs := objs h1 ++ [mkColData "id" "Id" (VNum 0) (_rowIdCol t1)] |}
    (set_columns t1 (_columns t1 ++ [("id", length (objs h1))]))).
  { split; simpl.
    - lia.
    - exists (length (objs h1)). split; [|split].
      + by rewrite JsMap_get_app_r by done.
      + done.
      + unfold JsMap.values. rewrite fmap_app. simpl.
        fold (JsMap.values (_columns t1)). rewrite B3.
        by rewrite Permutation_app_comm.
    - unfold JsMap.values. rewrite fmap_app. simpl.
      fold (JsMap.values (_columns t1)). rewrite B3.
      intros o Ho. apply elem_of_app in Ho as [Ho|Ho].
      + destruct (B4 o Ho) as (cd & Hcd & Hv & _). exists cd.
        rewrite lookup_app_l by (by apply Hold). split; [done|lia].
      + apply list_elem_of_singleton in Ho as ->. eexists.
        rewrite lookup_app_r by done. rewrite Nat.sub_diag. simpl.
        split; [done|]. simpl. lia.
    - unfold JsMap.values. rewrite fmap_app. simpl.
      fold (JsMap.values (_columns t1)). rewrite B3, map_app. simpl.
      apply NoDup_app. split; [|split].
      + erewrite map_ext_in; [exact B5|]. intros o Ho.
        apply list_elem_of_In in Ho. by apply Hvo.
      + intros x Hx Hx'. apply list_elem_of_singleton in Hx' as ->.
        apply list_elem_of_fmap in Hx as (o & Heq & Ho).
        rewrite Hvid, (Hvo o Ho) in Heq.
        destruct (B4 o Ho) as (cd & Hcd & _ & Hne & _).
        unfold values_of in Heq. rewrite Hcd in Heq. simpl in Heq.
        by injection Heq.
      + apply NoDup_singleton. }
  injection Hnew as <- <-.
  split; [|split; [|split; [|split; [|split; [|done]]]]].
  - split; [done| | |]; simpl.
    + intros a Ha. unfold foreign. simpl. split; [lia|]. split; [lia|].
      unfold JsMap.values. rewrite fmap_app. simpl.
      fold (JsMap.values (_columns t1)). rewrite B3.
      intros o Ho. apply elem_of_app in Ho as [Ho|Ho].
      * rewrite (Hvo o Ho). destruct (B4 o Ho) as (cd & Hcd & Hv & _).
        unfold values_of. rewrite Hcd. simpl. intros [= Heq]. lia.
      * apply list_elem_of_singleton in Ho as ->. rewrite Hvid.
        intros [= Heq]. lia.
    + intros o Ho.
      destruct (B4 o Ho) as (cd & Hcd & _ & _ & _ & Hg & Hd & Hdef).
      exists cd. rewrite lookup_app_l by (by apply Hold).
      split; [done|]. split.
      { rewrite JsMap_get_app_l; [done|]. by eapply JsMap_get_key. }
      split; [|done]. by apply elem_of_map_to_list in Hd.
    + intros c. unfold JsMap.keys. rewrite fmap_app. simpl.
      fold (JsMap.keys (_columns t1)). rewrite B2, elem_of_app.
      rewrite list_elem_of_singleton. split.
      * intros [Hin| ->]; [|by left]. right.
        apply list_elem_of_fmap in Hin as ([k v] & -> & Hin).
        apply elem_of_map_to_list in Hin. by eexists.
      * intros [->|[ty Hty]]; [by right|]. left.
        apply elem_of_map_to_list in Hty.
        by apply (list_elem_of_fmap_2 fst) in Hty.
  - intros o cd. simpl. unfold JsMap.values. rewrite fmap_app. simpl.
    fold (JsMap.values (_columns t1)). rewrite B3.
    unfold read at 2. simpl. fold (read h1 (_rowIdCol t1)). rewrite B6.
    intros Ho Hcd. apply elem_of_app in Ho as [Ho|Ho].
    + destruct (B4 o Ho) as (cd' & Hcd' & _ & _ & He & _).
      rewrite lookup_app_l in Hcd by (by apply Hold).
      assert (cd' = cd) as -> by congruence.
      unfold read. simpl. fold (read h1 (values cd)). by rewrite He.
    + apply list_elem_of_singleton in Ho as ->.
      rewrite lookup_app_r in Hcd by done.
      rewrite Nat.sub_diag in Hcd. simpl in Hcd. injection Hcd as <-.
      simpl. unfold read. simpl. fold (read h1 (_rowIdCol t1)).
      by rewrite B6.
  - unfold idx_ok. simpl. unfold read. simpl.
    fold (read h1 (_rowIdCol t1)). rewrite B6, B6'. split; [done|].
    intros n i Hi. by rewrite lookup_empty in Hi.
  - simpl. unfold read. simpl. fold (read h1 (_rowIdCol t1)). done.
  - intros a Ha. unfold read at 1. simpl. fold (read h1 a). by apply B7.
Qed.

End constructor.

Lemma loadData_ok h t d :
  table_wf h t -> foreign h t (tda_rowIds d) ->
  (forall c a, tda_colValues d !! c = Some a ->
     foreign h t a /\
     length (read h a) = length (read h (tda_rowIds d))) ->
  NoDup (read h (tda_rowIds d)) ->
  (forall v, v ∈ read h (tda_rowIds d) -> exists n, v = VNum n) ->
  table_ok (loadData h t d).1.1 (loadData h t d).1.2.
Proof.
  intros Hwf Hrow Hcols Hnd Hnum.
  destruct (loadData_frame h t d)
    as (_ & Ho & Hl & Hc & Ha & Hr & _ & _ & Hm).
  pose proof (loadData_rowIds h t d Hwf Hrow) as Hids.
  pose proof (loadData_foreign h t d _ Hwf Hrow) as Hsrc.
  split; [|split].
  - by eapply table_wf_heap.
  - intros o cd. rewrite Hc, Ho, Hr, Hids. intros Hin Hcd.
    destruct (wf_columns_cases h t Hwf o cd Hin Hcd) as [Heq|[Hin' _]].
    + by rewrite Heq, Hids.
    + rewrite (loadData_column_values h t d o cd); [|done|done| |done|done].
      * unfold loaded_values.
        destruct (tda_colValues d !! colId cd) as [a|] eqn:Hcv.
        -- by apply Hcols in Hcv as [_ ?].
        -- apply length_replicate.
      * intros c a Hcv. by apply Hcols in Hcv as [? _].
  - unfold idx_ok. rewrite Hr, Hm, Hids, Hsrc. by apply index_rows_rel.
Qed.

(** ** Index consistency *)

(** The invariant of the design document: [_rowMap] sends the id at every
    storage position to that position, every resident id is found again at
    the position that [_rowMap] gives, and every column has one value per
    row. *)
Definition index_consistent (h : Heap) (t : TableData) : Prop :=
  let rowIdCol := read h (_rowIdCol t) in
  (forall i v, rowIdCol !! i = Some v -> _rowMap t !! v = Some i) /\
  (forall v, v ∈ rowIdCol ->
     exists i, _rowMap t !! v = Some i /\ rowIdCol !! i = Some v) /\
  (forall o cd, o ∈ JsMap.values (_columns t) \/ o ∈ _colArray t ->
     objs h !! o = Some cd ->
     length (read h (values cd)) = length rowIdCol).

Lemma table_ok_consistent h t : table_ok h t -> index_consistent h t.
Proof.
  intros (Hwf & Hlen & Hidx1 & Hidx2). split; [|split].
  - intros i v Hi. by apply Hidx1.
  - intros v Hv. apply list_elem_of_lookup in Hv as [i Hi].
    exists i. split; [by apply Hidx1|done].
  - intros o cd [Ho|Ho] Hcd.
    + by apply (Hlen o cd).
    + apply (Hlen o cd); [|done]. by apply (wf_colArray_in h t Hwf).
Qed.

(** A snapshot that can be loaded into a table built on top of [h]: its
    arrays are on the heap, the row ids are pairwise distinct numbers, and
    every column has one value per row id. *)
Definition snapshot_ok (h : Heap) (d : TableDataAction) : bool :=
  bool_decide (tda_rowIds d < length (arrays h)) &&
  match as_numbers (read h (tda_rowIds d)) with
  | Some ns => bool_decide (NoDup ns)
  | None => false
  end &&
  bool_decide
    (map_Forall (fun _ a =>
                   a < length (arrays h) /\
                   length (read h a) = length (read h (tda_rowIds d)))
       (tda_colValues d)).

(** The side condition of a row action in the current state: an added row
    id is not resident (and the ids of a bulk addition are pairwise
    distinct); an update does not name the [id] column. *)
Definition action_ok (h : Heap) (t : TableData) (a : DocAction) : bool :=
  match a with
  | AddRecord _ rowId _ =>
      bool_decide (VNum rowId ∉ read h (_rowIdCol t))
  | BulkAddRecord _ rowIds _ =>
      bool_decide (NoDup rowIds) &&
      forallb (fun r => bool_decide (VNum r ∉ read h (_rowIdCol t))) rowIds
  | RemoveRecord _ _ => true
  | UpdateRecord _ _ colValues => bool_decide (colValues !! "id" = None)
  | BulkUpdateRecord _ _ colValues => bool_decide (colValues !! "id" = None)
  | _ => false
  end.

Section run.

Variable getDefaultForType : string -> CellValue.

Fixpoint actions_ok (h : Heap) (t : TableData) (actions : list DocAction)
    : bool :=
  match actions with
  | [] => true
  | a :: rest =>
      action_ok h t a &&
      actions_ok (dispatchAction getDefaultForType h t a).1
        (dispatchAction getDefaultForType h t a).2 rest
  end.

Lemma dispatchAction_ok h t a :
  table_ok h t -> action_ok h t a = true ->
  table_ok (dispatchAction getDefaultForType h t a).1
    (dispatchAction getDefaultForType h t a).2.
Proof.
  intros Hok Ha. destruct a; simpl in Ha; try done; simpl.
  - apply bool_decide_eq_true in Ha. by apply onAddRecord_ok.
  - apply andb_true_iff in Ha as [Hnd Hfresh].
    apply bool_decide_eq_true in Hnd.
    apply onBulkAddRecord_ok; [done|done|].
    intros x Hx. rewrite forallb_forall in Hfresh.
    apply list_elem_of_In in Hx. apply Hfresh in Hx.
    by apply bool_decide_eq_true in Hx.
  - by apply onRemoveRecord_ok.
  - apply bool_decide_eq_true in Ha. by apply onUpdateRecord_ok.
  - apply bool_decide_eq_true in Ha. by apply onBulkUpdateRecord_ok.
Qed.

Lemma dispatchActions_cons h t a actions :
  dispatchActions getDefaultForType h t (a :: actions) =
  dispatchActions getDefaultForType
    (dispatchAction getDefaultForType h t a).1
    (dispatchAction getDefaultForType h t a).2 actions.
Proof.
  unfold dispatchActions. simpl.
  by destruct (dispatchAction getDefaultForType h t a).
Qed.

Lemma dispatchActions_ok actions k h t :
  table_ok h t -> actions_ok h t actions = true ->
  table_ok (dispatchActions getDefaultForType h t (take k actions)).1
    (dispatchActions getDefaultForType h t (take k actions)).2.
Proof.
  revert k h t. induction actions as [|a actions IH]; intros k h t Hok Ha.
  { by rewrite take_nil. }
  destruct k as [|k]; [done|].
  simpl in Ha. apply andb_true_iff in Ha as [Ha Hrest].
  rewrite firstn_cons, dispatchActions_cons.
  apply (IH k); [|done]. by apply dispatchAction_ok.
Qed.

Lemma as_numbers_Some l ns : as_numbers l = Some ns -> l = map VNum ns.
Proof.
  unfold as_numbers. intros Hm. apply mapM_Some in Hm.
  induction Hm as [|v n l ns Hv _ IH]; [done|].
  simpl. rewrite <- IH. f_equal. by destruct v; try done; injection Hv as ->.
Qed.

Lemma TableData_new_loaded_ok h tableId d colTypes :
  colTypes !! "id" = None -> snapshot_ok h d = true ->
  table_ok (TableData_new getDefaultForType h tableId (Some d) colTypes).1
    (TableData_new getDefaultForType h tableId (Some d) colTypes).2.
Proof.
  intros Hid Hsnap. unfold snapshot_ok in Hsnap.
  apply andb_true_iff in Hsnap as [Hsnap Hcols].
  apply andb_true_iff in Hsnap as [Hrow Hnums].
  apply bool_decide_eq_true in Hrow, Hcols.
  destruct (as_numbers (read h (tda_rowIds d))) as [ns|] eqn:Hns; [|done].
  apply bool_decide_eq_true in Hnums. apply as_numbers_Some in Hns.
  destruct (TableData_new getDefaultForType h tableId None colTypes)
    as [h' t'] eqn:Hnew.
  destruct (TableData_new_empty _ h tableId colTypes h' t' Hid Hnew)
    as ([Hwf Hfresh _ _] & _ & _ & _ & Hold & _).
  assert (Hnew' :
    TableData_new getDefaultForType h tableId (Some d) colTypes =
    (loadData h' t' d).1).
  { unfold TableData_new in *.
    destruct (alloc h []) as [h0 r].
    destruct (foldl (new_column getDefaultForType) _ _) as [h1 t1].
    destruct (alloc_obj h1 _) as [h2 oid]. by injection Hnew as <- <-. }
  rewrite Hnew'. apply loadData_ok.
  - done.
  - by apply Hfresh.
  - intros c a Hca. destruct (Hcols c a Hca) as [Ha Hlen].
    split; [by apply Hfresh|]. by rewrite !Hold.
  - rewrite Hold, Hns by done. by apply (NoDup_fmap_2 VNum).
  - intros v. rewrite Hold, Hns by done. intros Hv.
    apply list_elem_of_fmap in Hv as (n & -> & _). by eexists.
Qed.

End run.

(** * Index consistency (claim C1) *)

(** A concrete table used to exercise the statements below: rows 1 and 2
    with a text column [name], loaded from a snapshot on the heap. *)
Definition example_default (ty : string) : CellValue :=
  if decide (ty = "Text") then VStr "" else VNum 0.

Definition example_heap : Heap :=
  mkHeap [[VNum 1; VNum 2]; [VStr "a"; VStr "b"]] [].

Definition example_snapshot : TableDataAction :=
  mkTableDataAction "T" 0 {[ "name" := 1 ]}.

Definition example_colTypes : gmap string string :=
  {[ "name" := "Text"; "n" := "Int" ]}.

Definition example_table : Heap * TableData :=
  TableData_new example_default example_heap "T" (Some example_snapshot)
    example_colTypes.

(** C1, as stated, fails: [AddRecord] with a row id that is already
    resident appends a second row with that id, and [_rowMap] then sends the
    id at position 0 to position 2. *)
Lemma index_consistency_duplicate_add :
  let st := dispatchActions example_default example_table.1 example_table.2
              [AddRecord "T" 1 ∅] in
  ~ index_consistent st.1 st.2.
Proof.
  intros st [H1 _].
  specialize (H1 0 (VNum 1) eq_refl).
  vm_compute in H1. discriminate H1.
Qed.

(** C1 (amended).  For a table built by the constructor from a column-type
    map without an [id] key and loaded from a snapshot whose row ids are
    pairwise distinct numbers and whose columns have one value per row id,
    and for every sequence of AddRecord, BulkAddRecord, RemoveRecord,
    UpdateRecord and BulkUpdateRecord actions in which every added row id is
    not resident when it is added (the ids of one bulk addition being
    pairwise distinct) and no update names the [id] column: after each
    action, [_rowMap] sends the id at every storage position to that
    position, every resident id is found at the position [_rowMap] gives
    for it, and every column's array is as long as the row-id array. *)
Theorem index_consistency getDefaultForType h tableId d colTypes actions k :
  colTypes !! "id" = None ->
  snapshot_ok h d = true ->
  actions_ok getDefaultForType
    (TableData_new getDefaultForType h tableId (Some d) colTypes).1
    (TableData_new getDefaultForType h tableId (Some d) colTypes).2
    actions = true ->
  index_consistent
    (dispatchActions getDefaultForType
       (TableData_new getDefaultForType h tableId (Some d) colTypes).1
       (TableData_new getDefaultForType h tableId (Some d) colTypes).2
       (take k actions)).1
    (dispatchActions getDefaultForType
       (TableData_new getDefaultForType h tableId (Some d) colTypes).1
       (TableData_new getDefaultForType h tableId (Some d) colTypes).2
       (take k actions)).2.
Proof.
  intros Hid Hsnap Hacts. apply table_ok_consistent.
  apply dispatchActions_ok; [|done].
  by apply TableData_new_loaded_ok.
Qed.

Definition example_actions : list DocAction :=
  [ AddRecord "T" 3 {[ "name" := VStr "c" ]};
    BulkAddRecord "T" [4%Z; 5%Z] {[ "name" := [VStr "d"; VStr "e"] ]};
    RemoveRecord "T" 2;
    UpdateRecord "T" 5 {[ "n" := VNum 7 ]};
    BulkUpdateRecord "T" [1%Z; 4%Z] {[ "name" := [VStr "x"; VStr "y"] ]};
    RemoveRecord "T" 5 ].

Lemma index_consistency_witness :
  index_consistent
    (dispatchActions example_default example_table.1 example_table.2
       (take 6 example_actions)).1
    (dispatchActions example_default example_table.1 example_table.2
       (take 6 example_actions)).2.
Proof.
  apply (index_consistency example_default example_heap "T" example_snapshot
           example_colTypes example_actions 6);
    vm_compute; reflexivity.
Defined.

(** An update that names the [id] column writes into the row-id array: the
    second restriction of [action_ok] is needed as well. *)
Lemma index_consistency_update_id :
  let st := dispatchActions example_default example_table.1 example_table.2
              [UpdateRecord "T" 1 {[ "id" := VNum 9 ]}] in
  ~ index_consistent st.1 st.2.
Proof.
  intros st [H1 _].
  specialize (H1 0 (VNum 9) eq_refl).
  vm_compute in H1. discriminate H1.
Qed.

(** Removing the last row leaves an entry for the key [undefined] in
    [_rowMap] ([this._rowIdCol[index]] is read after the [pop]); no row id
    reaches it, and the invariant above does not count it. *)
Lemma onRemoveRecord_last_row :
  let st := dispatchActions example_default example_table.1 example_table.2
              [RemoveRecord "T" 2] in
  read st.1 (_rowIdCol st.2) = [VNum 1] /\
  _rowMap st.2 !! Undefined = Some 1 /\ _rowMap st.2 !! VNum 2 = None.
Proof. vm_compute. done. Qed.

(** * Removal reordering (claim C4) *)

Lemma example_table_ok : table_ok example_table.1 example_table.2.
Proof. by apply TableData_new_loaded_ok. Qed.

Opaque example_table.

(** C4.  In a well-formed table whose row ids are [1,2,3,4] in storage
    order, RemoveRecord for id 2 puts id 4, and in every column the value of
    the row of id 4, at position 1 (the former position of id 2), shortens
    every array by one, and [getSortedRowIds] then returns [1,3,4]. *)
Theorem removal_reordering getDefaultForType h t tableId :
  table_ok h t ->
  read h (_rowIdCol t) = [VNum 1; VNum 2; VNum 3; VNum 4] ->
  let st := dispatchAction getDefaultForType h t (RemoveRecord tableId 2) in
  read st.1 (_rowIdCol st.2) = [VNum 1; VNum 4; VNum 3] /\
  _rowMap st.2 !! VNum 4 = Some 1 /\ _rowMap st.2 !! VNum 2 = None /\
  objs st.1 = objs h /\ _columns st.2 = _columns t /\
  (forall o cd, o ∈ JsMap.values (_columns t) -> objs h !! o = Some cd ->
     exists v1 v2 v3 v4,
       read h (values cd) = [v1; v2; v3; v4] /\
       read st.1 (values cd) = [v1; v4; v3]) /\
  getSortedRowIds st.1 st.2 = Some [1; 3; 4]%Z.
Proof.
  intros Hok Hids st. subst st. simpl.
  destruct Hok as (Hwf & Hlen & Hidx1 & Hidx2).
  assert (Hm : _rowMap t !! VNum 2 = Some 1).
  { apply (Hidx1 1 (VNum 2)). by rewrite Hids. }
  destruct (onRemoveRecord_frame h t 2) as (Ho & _ & Hc & _ & Hr & _).
  pose proof (onRemoveRecord_rowIds h t 2 1 Hwf Hm) as Hids'.
  rewrite Hids in Hids'. rewrite Hr.
  assert (Hids'' : read (onRemoveRecord h t 2).1 (_rowIdCol t) =
                   [VNum 1; VNum 4; VNum 3]) by (by rewrite Hids').
  split; [done|].
  rewrite (onRemoveRecord_rowMap h t 2 1 Hm), Hids''.
  split.
  { rewrite lookup_delete_ne by done. by rewrite lookup_insert_eq. }
  split; [by rewrite lookup_delete_eq|].
  split; [done|]. split; [done|]. split.
  - intros o cd Hin Hcd.
    rewrite (onRemoveRecord_column h t 2 1 o cd Hwf Hm Hin Hcd), Hids.
    pose proof (Hlen o cd Hin Hcd) as Hl. rewrite Hids in Hl.
    destruct (read h (values cd)) as [|v1 [|v2 [|v3 [|v4 [|]]]]];
      try done.
    by exists v1, v2, v3, v4.
  - unfold getSortedRowIds. rewrite Hr, Hids''. reflexivity.
Qed.

Definition example_heap4 : Heap :=
  mkHeap [[VNum 1; VNum 2; VNum 3; VNum 4];
          [VStr "a"; VStr "b"; VStr "c"; VStr "d"]] [].

Definition example_table4 : Heap * TableData :=
  TableData_new example_default example_heap4 "T" (Some example_snapshot)
    example_colTypes.

Lemma removal_reordering_witness :
  let st := dispatchAction example_default example_table4.1 example_table4.2
              (RemoveRecord "T" 2) in
  read st.1 (_rowIdCol st.2) = [VNum 1; VNum 4; VNum 3] /\
  _rowMap st.2 !! VNum 4 = Some 1 /\ _rowMap st.2 !! VNum 2 = None /\
  objs st.1 = objs example_table4.1 /\
  _columns st.2 = _columns example_table4.2 /\
  (forall o cd, o ∈ JsMap.values (_columns example_table4.2) ->
     objs example_table4.1 !! o = Some cd ->
     exists v1 v2 v3 v4,
       read example_table4.1 (values cd) = [v1; v2; v3; v4] /\
       read st.1 (values cd) = [v1; v4; v3]) /\
  getSortedRowIds st.1 st.2 = Some [1; 3; 4]%Z.
Proof.
  apply (removal_reordering example_default example_table4.1
           example_table4.2 "T").
  - by apply TableData_new_loaded_ok.
  - vm_compute. reflexivity.
Defined.

(** * Round trip (claim C5) *)

Arguments loadData : simpl never.
Arguments getTableDataAction : simpl never.
Arguments TableData_new : simpl never.

(** No dangling reference: the arrays of the table are on the heap. *)
Definition table_closed (h : Heap) (t : TableData) : Prop :=
  _rowIdCol t < length (arrays h) /\
  forall c cd, column h t c = Some cd -> values cd < length (arrays h).

(** The column types of a table, as a constructor takes them: the declared
    type of every column of the lookup except [id]. *)
Definition schema_of (h : Heap) (t : TableData) : gmap string string :=
  foldl (fun m cid =>
           match getColType h t cid with
           | Some ty => <[cid := ty]> m
           | None => m
           end)
    ∅ (filter (fun cid => cid ≠ "id") (getColIds t)).

Lemma foldl_insert_lookup {V} (f : string -> option V) (l : list string)
    (m0 : gmap string V) (c : string) :
  foldl (fun m k => match f k with Some v => <[k := v]> m | None => m end)
    m0 l !! c =
  if decide (c ∈ l) then match f c with Some v => Some v | None => m0 !! c end
  else m0 !! c.
Proof.
  revert m0. induction l as [|k l IH]; intros m0.
  { simpl. destruct (decide (c ∈ [])) as [Hin|]; [|done].
    by apply elem_of_nil in Hin. }
  cbn [foldl]. rewrite IH.
  assert (Hm : c ≠ k ->
    (match f k with Some v => <[k := v]> m0 | None => m0 end) !! c = m0 !! c).
  { intros Hne. destruct (f k); [by rewrite lookup_insert_ne|done]. }
  destruct (decide (c ∈ l)) as [Hin|Hni];
    destruct (decide (c ∈ k :: l)) as [Hin'|Hni'].
  - destruct (f c) eqn:Hf; [done|].
    destruct (decide (c = k)) as [->|Hne]; [by rewrite Hf|by apply Hm].
  - destruct Hni'. by right.
  - apply elem_of_cons in Hin' as [->|?]; [|done].
    destruct (f k); [by rewrite lookup_insert_eq|done].
  - apply Hm. intros ->. apply Hni'. left.
Qed.

Lemma column_None h t c : c ∉ getColIds t -> column h t c = None.
Proof.
  intros Hc. unfold column. by rewrite JsMap_get_None.
Qed.

Lemma getTableDataAction_lookup h t c :
  tda_colValues (getTableDataAction h t) !! c =
  if decide (c = "id") then None else getColValues h t c.
Proof.
  unfold getTableDataAction. simpl.
  rewrite (foldl_insert_lookup (getColValues h t)), lookup_empty.
  destruct (decide (c = "id")) as [->|Hne].
  - rewrite decide_False; [done|].
    intros Hin. by apply list_elem_of_filter in Hin as [? _].
  - destruct (decide (c ∈ filter (fun cid => cid ≠ "id") (getColIds t)))
      as [Hin|Hni].
    + by destruct (getColValues h t c).
    + unfold getColValues. rewrite column_None; [done|].
      intros Hin. apply Hni. by apply list_elem_of_filter.
Qed.

Lemma schema_of_lookup h t c :
  schema_of h t !! c = if decide (c = "id") then None else getColType h t c.
Proof.
  unfold schema_of.
  rewrite (foldl_insert_lookup (getColType h t)), lookup_empty.
  destruct (decide (c = "id")) as [->|Hne].
  - rewrite decide_False; [done|].
    intros Hin. by apply list_elem_of_filter in Hin as [? _].
  - destruct (decide (c ∈ filter (fun cid => cid ≠ "id") (getColIds t)))
      as [Hin|Hni].
    + by destruct (getColType h t c).
    + unfold getColType. rewrite column_None; [done|].
      intros Hin. apply Hni. by apply list_elem_of_filter.
Qed.

(** In a constructed table, a declared column is found under its id. *)
Lemma constructed_column gd h0 h t colTypes c :
  constructed gd h0 h t colTypes -> c ≠ "id" ->
  is_Some (colTypes !! c) ->
  exists o cd, JsMap.get (_columns t) c = Some o /\ o ∈ _colArray t /\
    objs h !! o = Some cd /\ colId cd = c.
Proof.
  intros [Hwf _ Hcols Hkeys] Hne Hc.
  assert (Hin : c ∈ JsMap.keys (_columns t)) by (apply Hkeys; by right).
  destruct (JsMap_get_is_Some _ _ Hin) as [o Hg].
  destruct (wf_id _ _ Hwf) as (oid & Hgid & _ & Hp).
  assert (Hnd : NoDup (JsMap.values (_columns t))).
  { eapply NoDup_fmap_1. apply (wf_sep _ _ Hwf). }
  assert (Ho : o ∈ _colArray t).
  { pose proof (JsMap_get_value _ _ _ Hg) as Hv. rewrite Hp in Hv.
    apply elem_of_cons in Hv as [->|?]; [|done].
    by destruct (JsMap_get_distinct _ _ _ _ _ Hnd Hg Hgid Hne). }
  destruct (Hcols o Ho) as (cd & Hcd & Hg' & _).
  exists o, cd. repeat (split; [done|]).
  destruct (decide (colId cd = c)) as [|Hne']; [done|].
  by destruct (JsMap_get_distinct _ _ _ _ _ Hnd Hg' Hg Hne').
Qed.

(** C5.  For every table whose arrays are on the heap, loading the result of
    [getTableDataAction] into a new table constructed with the same column
    types gives the same row ids and, for every column id other than [id],
    the same values in the same order (or no column where the source has
    none).  The value map of the action has no [id] key, and the action
    carries the row-id array separately. *)
Theorem round_trip getDefaultForType h A tableId :
  table_closed h A ->
  let act := getTableDataAction h A in
  let new := TableData_new getDefaultForType h tableId None (schema_of h A) in
  let st := (loadData new.1 new.2 act).1 in
  read st.1 (getRowIds st.2) = read h (getRowIds A) /\
  (forall c, c ≠ "id" ->
     read st.1 <$> getColValues st.1 st.2 c =
     read h <$> getColValues h A c) /\
  _isLoaded st.2 = true /\
  tda_colValues act !! "id" = None /\ tda_rowIds act = getRowIds A.
Proof.
  intros [Hr Hcl] act new st.
  destruct new as [h1 B] eqn:Hnew. unfold new in Hnew.
  assert (Hid : schema_of h A !! "id" = None).
  { rewrite schema_of_lookup. by rewrite decide_True. }
  destruct (TableData_new_empty _ h tableId _ h1 B Hid Hnew)
    as (Hcon & _ & _ & _ & Hold & _).
  pose proof (c_wf _ _ _ _ _ Hcon) as Hwf.
  pose proof (c_fresh _ _ _ _ _ Hcon) as Hfresh.
  subst st. cbn [fst snd].
  assert (Hfrow : foreign h1 B (tda_rowIds act)) by (by apply Hfresh).
  assert (Hfcols : forall c a, tda_colValues act !! c = Some a ->
                               foreign h1 B a).
  { intros c a Hca. apply Hfresh. unfold act in Hca.
    rewrite getTableDataAction_lookup in Hca.
    destruct (decide (c = "id")); [done|].
    unfold getColValues in Hca.
    destruct (column h A c) as [cd|] eqn:Hcol; [|done].
    injection Hca as <-. by apply (Hcl c). }
  pose proof (loadData_frame h1 B act) as Hframe.
  pose proof (loadData_rowIds h1 B act Hwf Hfrow) as Hrow.
  pose proof (fun o cd =>
                loadData_column_values h1 B act o cd Hwf Hfrow Hfcols)
    as Hcolv.
  destruct (loadData h1 B act) as [[h2 B'] old].
  cbn [fst snd] in *.
  destruct Hframe as (_ & Ho & Hl & Hc & Ha & Hrid & Hload & _ & _).
  split; [|split; [|split; [done|split; [|done]]]].
  - unfold getRowIds. rewrite Hrid, Hrow. by apply Hold.
  - intros c Hne.
    destruct (getColType h A c) as [ty|] eqn:Hty.
    + assert (Hs : is_Some (schema_of h A !! c)).
      { rewrite schema_of_lookup, decide_False by done. by eexists. }
      destruct (constructed_column _ _ _ _ _ c Hcon Hne Hs)
        as (o & cd & Hg & Hin & Hcd & Hcid).
      unfold getColType in Hty.
      destruct (column h A c) as [cdA|] eqn:HcolA; [|done].
      unfold getColValues at 1. unfold column. rewrite Hc, Hg. simpl.
      rewrite Ho, Hcd. simpl.
      rewrite (Hcolv o cd Hin Hcd).
      unfold loaded_values, act. rewrite getTableDataAction_lookup, Hcid.
      rewrite decide_False by done.
      unfold getColValues. rewrite HcolA. simpl.
      f_equal. apply Hold. by apply (Hcl c).
    + unfold getColType in Hty. unfold getColValues at 2.
      destruct (column h A c) as [cdA|] eqn:HcolA; [done|]. simpl.
      unfold getColValues. rewrite column_None; [done|].
      unfold getColIds. rewrite Hc. intros Hin.
      apply (c_keys _ _ _ _ _ Hcon) in Hin as [?|[ty Hs]]; [done|].
      rewrite schema_of_lookup, decide_False in Hs by done.
      unfold getColType in Hs. by rewrite HcolA in Hs.
  - unfold act. rewrite getTableDataAction_lookup. by rewrite decide_True.
Qed.

Lemma example_table_closed : table_closed example_table.1 example_table.2.
Proof.
  split; [vm_compute; lia|].
  intros c cd Hc. unfold column in Hc.
  destruct (JsMap.get (_columns example_table.2) c) as [o|] eqn:Hg; [|done].
  simpl in Hc. apply JsMap_get_value in Hg.
  destruct example_table_ok as (Hwf & _).
  destruct (wf_valid _ _ Hwf o Hg) as (cd' & Hcd' & Hv). congruence.
Qed.

Lemma round_trip_witness :
  let A := example_table.2 in
  let h := example_table.1 in
  let act := getTableDataAction h A in
  let new := TableData_new example_default h "Copy" None (schema_of h A) in
  let st := (loadData new.1 new.2 act).1 in
  read st.1 (getRowIds st.2) = read h (getRowIds A) /\
  (forall c, c ≠ "id" ->
     read st.1 <$> getColValues st.1 st.2 c =
     read h <$> getColValues h A c) /\
  _isLoaded st.2 = true /\
  tda_colValues act !! "id" = None /\ tda_rowIds act = getRowIds A.
Proof.
  apply (round_trip example_default example_table.1 example_table.2 "Copy").
  apply example_table_closed.
Defined.

(** * Full replacement by [loadData] (claim C6) *)

(** What [loadData] is said to do with a snapshot [d], read in the heap [h]
    of the call: the row ids and the values of every declared column are
    those of the snapshot, a declared column that the snapshot lacks holds
    its default once per row, the index is built from the row ids alone, the
    table is loaded, and the result is the previous row ids. *)
Definition replaces_wholesale (h : Heap) (t : TableData)
    (d : TableDataAction) : Prop :=
  let st := loadData h t d in
  let ids := read h (tda_rowIds d) in
  read st.1.1 (_rowIdCol st.1.2) = ids /\
  (forall o cd, o ∈ _colArray t -> objs h !! o = Some cd ->
     objs st.1.1 !! o = Some cd /\
     read st.1.1 (values cd) =
     match tda_colValues d !! colId cd with
     | Some a => read h a
     | None => replicate (length ids) (defl cd)
     end) /\
  _rowMap st.1.2 = index_rows ids 0 ∅ /\
  _columns st.1.2 = _columns t /\ _colArray st.1.2 = _colArray t /\
  _isLoaded st.1.2 = true /\
  st.2 = read h (_rowIdCol t).

(** C6, as stated, fails for a snapshot that shares its arrays with the
    table, such as the table's own [getTableDataAction()]: [reassignArray]
    empties the target before it reads the source, and the table is left
    without rows. *)
Lemma loadData_own_snapshot :
  ~ replaces_wholesale example_table.1 example_table.2
      (getTableDataAction example_table.1 example_table.2).
Proof.
  intros [H1 _]. vm_compute in H1. discriminate H1.
Qed.

(** What that call does: the previous row ids are returned, and the table
    is loaded and empty. *)
Lemma loadData_own_snapshot_result :
  let st := loadData example_table.1 example_table.2
              (getTableDataAction example_table.1 example_table.2) in
  st.2 = [VNum 1; VNum 2] /\
  read st.1.1 (_rowIdCol st.1.2) = [] /\
  _isLoaded st.1.2 = true /\
  getRecords st.1.1 st.1.2 = [].
Proof. vm_compute. done. Qed.

(** C6 (amended).  For every well-formed table, loaded or not, and every
    snapshot whose arrays are not arrays of the table itself, [loadData]
    replaces the row ids and the values of all declared columns by those of
    the snapshot, fills every declared column absent from the snapshot with
    the column's default repeated once per row, rebuilds the index from the
    new row ids alone, marks the table loaded, and returns the row ids that
    were resident before the call. *)
Theorem loadData_replaces h t d :
  table_wf h t ->
  foreign h t (tda_rowIds d) ->
  (forall c a, tda_colValues d !! c = Some a -> foreign h t a) ->
  replaces_wholesale h t d.
Proof.
  intros Hwf Hrow Hcols. unfold replaces_wholesale. cbv zeta.
  destruct (loadData_frame h t d)
    as (Hold & Ho & Hl & Hc & Ha & Hr & Hload & _ & Hm).
  split; [|split; [|split; [|done]]].
  - rewrite Hr. by apply loadData_rowIds.
  - intros o cd Hin Hcd. split; [by rewrite Ho|].
    by rewrite (loadData_column_values h t d o cd).
  - by rewrite Hm, (loadData_foreign h t d _ Hwf Hrow).
Qed.

(** The column default that [loadData] uses is the default of the column's
    type, in every table that the constructor built. *)
Lemma constructed_default gd h0 h t colTypes o :
  constructed gd h0 h t colTypes -> o ∈ _colArray t ->
  exists cd, objs h !! o = Some cd /\ defl cd = gd (type cd).
Proof.
  intros Hcon Ho. destruct (c_cols _ _ _ _ _ Hcon o Ho) as (cd & ? & _ & _ & ?).
  by exists cd.
Qed.

Definition example_heap_reload : Heap :=
  mkHeap (arrays example_table.1 ++ [[VNum 7; VNum 8; VNum 9]])
    (objs example_table.1).

Definition example_reload : TableDataAction :=
  mkTableDataAction "T" (length (arrays example_table.1)) ∅.

Lemma example_reload_ok :
  table_wf example_heap_reload example_table.2 /\
  foreign example_heap_reload example_table.2 (tda_rowIds example_reload).
Proof.
  destruct example_table_ok as (Hwf & _). split.
  - eapply table_wf_heap; [| | | | |exact Hwf]; try reflexivity.
    vm_compute. lia.
  - split; [vm_compute; lia|]. split; [vm_compute; lia|].
    intros o Ho. destruct (wf_valid _ _ Hwf o Ho) as (cd & Hcd & Hv).
    rewrite (values_of_objs example_heap_reload example_table.1)
      by reflexivity.
    change (tda_rowIds example_reload)
      with (length (arrays example_table.1)).
    set (n := length (arrays example_table.1)) in *. clearbody n.
    unfold values_of. rewrite Hcd. intros [= Heq]. lia.
Qed.

Lemma loadData_replaces_witness :
  replaces_wholesale example_heap_reload example_table.2 example_reload.
Proof.
  apply (loadData_replaces example_heap_reload example_table.2
           example_reload).
  - apply example_reload_ok.
  - apply example_reload_ok.
  - intros c a Hca. vm_compute in Hca. discriminate Hca.
Defined.

(** * The skip policy of [receiveAction] (claim C8) *)

(** The actions that carry row data. *)
Definition isRowAction (a : DocAction) : bool :=
  match a with
  | AddRecord _ _ _ | BulkAddRecord _ _ _ | RemoveRecord _ _
  | BulkRemoveRecord _ _ | UpdateRecord _ _ _ | BulkUpdateRecord _ _ _
  | ReplaceTableData _ => true
  | _ => false
  end.

(** C8.  [receiveAction] returns [true] exactly when the table is loaded or
    the action is a schema action, and then the state is the one that the
    dispatched handler leaves; otherwise, and so for every row action
    received by a table that is not loaded, it returns [false] and the state
    is unchanged.  No outcome is an error. *)
Theorem receiveAction_skip_policy getDefaultForType h t action :
  ((receiveAction getDefaultForType h t action).2 = true <->
   (_isLoaded t = true \/ isSchemaAction action = true)) /\
  ((receiveAction getDefaultForType h t action).2 = true ->
   (receiveAction getDefaultForType h t action).1 =
   dispatchAction getDefaultForType h t action) /\
  ((receiveAction getDefaultForType h t action).2 = false ->
   (receiveAction getDefaultForType h t action).1 = (h, t)) /\
  (_isLoaded t = false -> isRowAction action = true ->
   receiveAction getDefaultForType h t action = (h, t, false)).
Proof.
  unfold receiveAction.
  destruct (_isLoaded t) eqn:Hl, (isSchemaAction action) eqn:Hs; simpl;
    (split; [split; [intros; auto|intros [?|?]; done]|]);
    (split; [done|]); (split; [done|]); try done.
  intros _ Hrow. by destruct action.
Qed.

Lemma receiveAction_skip_policy_witness :
  receiveAction example_default example_heap
    (TableData_new example_default example_heap "T" None example_colTypes).2
    (AddRecord "T" 3 ∅) =
  (example_heap,
   (TableData_new example_default example_heap "T" None example_colTypes).2,
   false).
Proof.
  apply (receiveAction_skip_policy example_default example_heap
           (TableData_new example_default example_heap "T" None
              example_colTypes).2 (AddRecord "T" 3 ∅));
    reflexivity.
Defined.

(** * Absent rows and columns (claim C9) *)

(** C9 fails in the code: [filterRecords] with a key that names no column
    throws a [TypeError] as soon as the table has a row, because
    [this._columns.get(p)] is [undefined] and its [values] are read. *)
Theorem filterRecords_absent_column_throws :
  filterRecords example_table.1 example_table.2 [("nosuch", VNum 1)] =
  ThrowsTypeError.
Proof. vm_compute. reflexivity. Qed.

(** The other queries do answer an absent row or column with an explicit
    absent result. *)
Lemma queries_absent h t rowId cid v :
  (column h t cid = None ->
     getValue h t rowId cid = None /\ getColValues h t cid = None /\
     findRow h t cid v = VNum 0) /\
  (_rowMap t !! VNum rowId = None ->
     getValue h t rowId cid = None /\ getRecord h t rowId = None).
Proof.
  split.
  - intros Hc. unfold getValue, getColValues, findRow. by rewrite Hc.
  - intros Hr. unfold getValue, getRecord. rewrite Hr.
    by destruct (column h t cid).
Qed.

(** [filterRecords] itself returns when every key names a column. *)
Lemma row_matches_present h props i :
  Forall (fun p => is_Some p.2) props ->
  exists b, row_matches h props i = Returns b.
Proof.
  induction 1 as [|[v [cd|]] props [cd' Hp] _ IH]; simpl.
  - by eexists.
  - destruct (strict_eq _ _); [done|by eexists].
  - done.
Qed.

Lemma filterRecords_present h t properties :
  Forall (fun p => is_Some (column h t p.1)) properties ->
  exists records, filterRecords h t properties = Returns records.
Proof.
  intros Hall. unfold filterRecords.
  set (props := map (fun p => (p.2, column h t p.1)) properties).
  assert (Hp : Forall (fun p => is_Some p.2) props).
  { unfold props. apply Forall_fmap. eapply Forall_impl; [exact Hall|].
    by intros [k v]. }
  assert (Hm : forall ids i, exists l,
            matching_rows h props ids i = Returns l).
  { induction ids as [|x ids IH]; intros i; simpl; [by eexists|].
    destruct (row_matches_present h props i Hp) as [b ->].
    destruct (IH (S i)) as [l ->]. by eexists. }
  destruct (Hm (read h (_rowIdCol t)) 0) as [l ->]. by eexists.
Qed.

(** * [fetchData] *)

(** The promise that [fetchData] stores and returns is the one made by
    [fetchFunc(tableId).then(...)].  The client state records, besides the
    heap and the table, the calls of the fetch function so far and the state
    of the promise made at each call; [_fetchPromise] names a promise by the
    number of its call. *)
Inductive PromiseState : Type :=
| Pending
| Fulfilled
| Rejected (reason : string).

Record Client : Type := mkClient {
  heap : Heap;
  table : TableData;
  fetchCalls : list string;        (* the [tableId] passed at each call *)
  promises : list PromiseState;
}.

(** [fetchData(fetchFunc)]: the state after the call and the promise
    returned.  The callback passed to [then] runs when the promise of the
    fetch function is fulfilled (see [settle]). *)
Definition fetchData (c : Client) : Client * nat :=
  match _fetchPromise (table c) with
  | Some p => (c, p)
  | None =>
      let p := length (promises c) in
      (mkClient (heap c) (set_fetchPromise (table c) (Some p))
         (fetchCalls c ++ [_tableId (table c)])
         (promises c ++ [Pending]),
       p)
  end.

(** How the promise of the fetch function is settled. *)
Inductive Settlement : Type :=
| Resolve (data : TableDataAction)
| Reject (reason : string).

(** The promise of call [k] is settled.  When it is fulfilled with [data],
    the callback [data => { this._fetchPromise = undefined;
    this.loadData(data); }] runs and the promise of [then] is fulfilled; when
    it is rejected, the callback does not run and the promise of [then] is
    rejected for the same reason.  A promise is settled once. *)
Definition settle (c : Client) (k : nat) (s : Settlement) : Client :=
  match promises c !! k with
  | Some Pending =>
      match s with
      | Resolve data =>
          let t1 := set_fetchPromise (table c) None in
          let st := (loadData (heap c) t1 data).1 in
          mkClient st.1 st.2 (fetchCalls c) (<[k := Fulfilled]> (promises c))
      | Reject reason =>
          mkClient (heap c) (table c) (fetchCalls c)
            (<[k := Rejected reason]> (promises c))
      end
  | _ => c
  end.

(** What can happen to a client through [fetchData]: a call, or the
    settlement of a promise of the fetch function. *)
Inductive FetchEvent : Type :=
| CallFetchData
| Settle (k : nat) (s : Settlement).

Definition fetch_step (c : Client) (e : FetchEvent) : Client :=
  match e with
  | CallFetchData => (fetchData c).1
  | Settle k s => settle c k s
  end.

Definition fetch_run (c : Client) (events : list FetchEvent) : Client :=
  foldl fetch_step c events.

(** C3.  When no fetch is in flight, a call of [fetchData] followed by a
    second call before the fetch is settled invokes the fetch function once
    (with the table id); both calls return the same promise, which is
    pending; and when the fetch succeeds, its result is passed to
    [loadData] (after [_fetchPromise] is cleared) and the promise is
    fulfilled. *)
Theorem fetch_deduplication c data :
  _fetchPromise (table c) = None ->
  let first := fetchData c in
  let second := fetchData first.1 in
  first.2 = second.2 /\
  promises second.1 !! first.2 = Some Pending /\
  fetchCalls second.1 = fetchCalls c ++ [_tableId (table c)] /\
  let done_ := settle second.1 first.2 (Resolve data) in
  (heap done_, table done_) =
    (loadData (heap c) (set_fetchPromise (table c) None) data).1 /\
  promises done_ !! first.2 = Some Fulfilled /\
  fetchCalls done_ = fetchCalls c ++ [_tableId (table c)].
Proof.
  intros Hnone. unfold fetchData. rewrite Hnone. simpl.
  unfold settle. simpl.
  rewrite lookup_app_r by done. rewrite Nat.sub_diag. simpl.
  split; [done|]. split; [done|]. split; [done|]. split; [reflexivity|].
  split; [|done].
  rewrite list_lookup_insert_eq; [done|]. rewrite length_app. simpl. lia.
Qed.

Definition example_client : Client :=
  mkClient
    (TableData_new example_default example_heap "T" None example_colTypes).1
    (TableData_new example_default example_heap "T" None example_colTypes).2
    [] [].

Lemma fetch_deduplication_witness :
  let c := example_client in
  let first := fetchData c in
  let second := fetchData first.1 in
  first.2 = second.2 /\
  promises second.1 !! first.2 = Some Pending /\
  fetchCalls second.1 = fetchCalls c ++ [_tableId (table c)] /\
  let done_ := settle second.1 first.2 (Resolve example_snapshot) in
  (heap done_, table done_) =
    (loadData (heap c) (set_fetchPromise (table c) None)
       example_snapshot).1 /\
  promises done_ !! first.2 = Some Fulfilled /\
  fetchCalls done_ = fetchCalls c ++ [_tableId (table c)].
Proof.
  apply (fetch_deduplication example_client example_snapshot).
  vm_compute. reflexivity.
Defined.

(** After the rejection of the promise that [_fetchPromise] names, no event
    changes anything but the promise list, where that promise stays
    rejected. *)
Lemma fetch_step_rejected c p reason e :
  _fetchPromise (table c) = Some p ->
  promises c !! p = Some (Rejected reason) ->
  Forall (fun s => s ≠ Pending) (promises c) ->
  let c' := fetch_step c e in
  heap c' = heap c /\ table c' = table c /\ fetchCalls c' = fetchCalls c /\
  promises c' = promises c.
Proof.
  intros Hp Hr Hall. destruct e as [|k s]; simpl.
  - unfold fetchData. by rewrite Hp.
  - unfold settle. destruct (promises c !! k) as [[| |]|] eqn:Hk; try done.
    rewrite Forall_lookup in Hall. by destruct (Hall k Pending Hk).
Qed.

Lemma fetch_run_rejected events c p reason :
  _fetchPromise (table c) = Some p ->
  promises c !! p = Some (Rejected reason) ->
  Forall (fun s => s ≠ Pending) (promises c) ->
  let c' := fetch_run c events in
  heap c' = heap c /\ table c' = table c /\ fetchCalls c' = fetchCalls c /\
  promises c' = promises c.
Proof.
  revert c. induction events as [|e events IH]; intros c Hp Hr Hall; [done|].
  simpl. unfold fetch_run. simpl.
  destruct (fetch_step_rejected c p reason e Hp Hr Hall)
    as (H1 & H2 & H3 & H4).
  destruct (IH (fetch_step c e)) as (I1 & I2 & I3 & I4).
  - by rewrite H2.
  - by rewrite H4.
  - by rewrite H4.
  - unfold fetch_run in *. by rewrite I1, I2, I3, I4.
Qed.

(** The state of a client that only [fetchData] drives: a pending promise is
    the one that [_fetchPromise] names. *)
Definition fetch_inv (c : Client) : Prop :=
  forall k, promises c !! k = Some Pending ->
            _fetchPromise (table c) = Some k.

Lemma fetch_inv_step c e : fetch_inv c -> fetch_inv (fetch_step c e).
Proof.
  intros Hinv. destruct e as [|k s]; simpl.
  - unfold fetchData.
    destruct (_fetchPromise (table c)) as [p|] eqn:Hp; simpl; [done|].
    intros k Hk. simpl in *.
    apply lookup_app_Some in Hk as [Hk|[Hge Hk]].
    + apply Hinv in Hk. congruence.
    + apply list_lookup_singleton_Some in Hk as [Hk _].
      f_equal. lia.
  - unfold settle. destruct (promises c !! k) as [[| |]|] eqn:Hk; try done.
    pose proof (Hinv k Hk) as Hp.
    assert (Hother : forall st k',
              <[k := st]> (promises c) !! k' = Some Pending ->
              st ≠ Pending -> False).
    { intros st k' Hk' Hst. destruct (decide (k = k')) as [<-|Hne].
      - rewrite list_lookup_insert_eq in Hk' by (by eapply lookup_lt_Some).
        congruence.
      - rewrite list_lookup_insert_ne in Hk' by done.
        apply Hinv in Hk'. congruence. }
    destruct s as [data|reason]; intros k' Hk'; simpl in Hk'.
    + by destruct (Hother _ _ Hk').
    + by destruct (Hother _ _ Hk').
Qed.

Lemma fetch_inv_idle c :
  fetch_inv c -> _fetchPromise (table c) = None ->
  Forall (fun s => s ≠ Pending) (promises c).
Proof.
  intros Hinv Hnone. apply Forall_lookup. intros k s Hk ->.
  apply Hinv in Hk. congruence.
Qed.

(** C10.  When no fetch is in flight and no earlier promise is pending, and
    the fetch started by [fetchData] is rejected, then after any further
    calls of [fetchData] and settlements: the stored promise is still the
    rejected one, every call of [fetchData] returns it, the fetch function
    has not been called again, and the table and the heap are as they were,
    so the table is loaded only if it was before. *)
Theorem fetch_rejection_sticks c reason events :
  _fetchPromise (table c) = None ->
  Forall (fun s => s ≠ Pending) (promises c) ->
  let started := fetchData c in
  let failed := settle started.1 started.2 (Reject reason) in
  let later := fetch_run failed events in
  _fetchPromise (table later) = Some started.2 /\
  promises later !! started.2 = Some (Rejected reason) /\
  (fetchData later).2 = started.2 /\
  fetchCalls (fetchData later).1 = fetchCalls started.1 /\
  heap later = heap c /\
  _isLoaded (table later) = _isLoaded (table c) /\
  set_fetchPromise (table later) None = table c.
Proof.
  intros Hnone Hall. cbv zeta.
  set (started := fetchData c).
  set (failed := settle started.1 started.2 (Reject reason)).
  assert (Hs : started =
    (mkClient (heap c) (set_fetchPromise (table c) (Some (length (promises c))))
       (fetchCalls c ++ [_tableId (table c)]) (promises c ++ [Pending]),
     length (promises c))).
  { unfold started, fetchData. by rewrite Hnone. }
  assert (Hf : failed =
    mkClient (heap c) (set_fetchPromise (table c) (Some (length (promises c))))
      (fetchCalls c ++ [_tableId (table c)])
      (promises c ++ [Rejected reason])).
  { unfold failed. rewrite Hs. unfold settle. simpl.
    rewrite lookup_app_r by done. rewrite Nat.sub_diag. simpl.
    f_equal. rewrite insert_app_r_alt by done. by rewrite Nat.sub_diag. }
  destruct (fetch_run_rejected events failed (length (promises c)) reason)
    as (H1 & H2 & H3 & H4).
  { by rewrite Hf. }
  { rewrite Hf. simpl. rewrite lookup_app_r by done.
    by rewrite Nat.sub_diag. }
  { rewrite Hf. simpl. apply Forall_app. split; [done|].
    by apply Forall_singleton. }
  destruct (fetch_run failed events) as [hl tl fl pl]. simpl in *.
  subst hl tl fl pl. rewrite Hs, Hf. simpl. unfold fetchData. simpl.
  rewrite lookup_app_r by done. rewrite Nat.sub_diag. simpl.
  repeat (split; [done|]). clear Hs Hf. revert Hnone.
  destruct (table c). simpl. by intros ->.
Qed.

Lemma fetch_rejection_sticks_witness :
  let c := example_client in
  let events :=
    [CallFetchData; Settle 0 (Resolve example_snapshot); CallFetchData] in
  let started := fetchData c in
  let failed := settle started.1 started.2 (Reject "offline") in
  let later := fetch_run failed events in
  _fetchPromise (table later) = Some started.2 /\
  promises later !! started.2 = Some (Rejected "offline") /\
  (fetchData later).2 = started.2 /\
  fetchCalls (fetchData later).1 = fetchCalls started.1 /\
  heap later = heap c /\
  _isLoaded (table later) = _isLoaded (table c) /\
  set_fetchPromise (table later) None = table c.
Proof.
  apply (fetch_rejection_sticks example_client "offline"
           [CallFetchData; Settle 0 (Resolve example_snapshot);
            CallFetchData]).
  - vm_compute. reflexivity.
  - constructor.
Defined.

(** * Further properties of [TableData] *)

(** ** Reading cells *)

Lemma arr_get_nat (l : list CellValue) (i : nat) :
  arr_get l (Z.of_nat i) = default Undefined (l !! i).
Proof.
  unfold arr_get. destruct (Z.ltb_spec (Z.of_nat i) 0); [lia|].
  by rewrite Nat2Z.id.
Qed.

Lemma arr_get_arr_set_eq (l : list CellValue) (i : nat) (v : CellValue) :
  arr_get (arr_set l i v) (Z.of_nat i) = v.
Proof.
  rewrite arr_get_nat. unfold arr_set.
  destruct (decide (i < length l)) as [Hi|Hi].
  - by rewrite list_lookup_insert_eq.
  - rewrite lookup_app_r by lia.
    rewrite lookup_app_r by (rewrite length_replicate; lia).
    rewrite length_replicate. by rewrite Nat.sub_diag.
Qed.

Lemma arr_get_arr_set_ne (l : list CellValue) (i j : nat) (v : CellValue) :
  i ≠ j -> arr_get (arr_set l i v) (Z.of_nat j) = arr_get l (Z.of_nat j).
Proof.
  intros Hne. rewrite !arr_get_nat. unfold arr_set.
  destruct (decide (i < length l)) as [Hi|Hi].
  - by rewrite list_lookup_insert_ne.
  - destruct (decide (j < length l)) as [Hj|Hj].
    + by rewrite lookup_app_l.
    + rewrite (lookup_ge_None_2 l j) by lia.
      rewrite lookup_app_r by lia.
      destruct (decide (j - length l < i - length l)) as [Hlt|Hge].
      * rewrite lookup_app_l by (by rewrite length_replicate).
        by rewrite lookup_replicate_2.
      * rewrite lookup_app_r by (rewrite length_replicate; lia).
        rewrite length_replicate.
        destruct (j - length l - (i - length l)) as [|k] eqn:Hk; [lia|].
        done.
Qed.

Lemma arr_get_app_l (l k : list CellValue) (i : nat) :
  i < length l -> arr_get (l ++ k) (Z.of_nat i) = arr_get l (Z.of_nat i).
Proof. intros Hi. rewrite !arr_get_nat. by rewrite lookup_app_l. Qed.

Lemma arr_get_app_r (l : list CellValue) (v : CellValue) :
  arr_get (l ++ [v]) (Z.of_nat (length l)) = v.
Proof.
  rewrite arr_get_nat, lookup_app_r by done. by rewrite Nat.sub_diag.
Qed.

(** The lookup of a column only depends on the objects and on [_columns]. *)
Lemma column_frame h h' t t' cid :
  objs h' = objs h -> _columns t' = _columns t ->
  column h' t' cid = column h t cid.
Proof. intros Ho Hc. unfold column. by rewrite Ho, Hc. Qed.

Lemma column_object h t cid cd :
  column h t cid = Some cd ->
  exists o, JsMap.get (_columns t) cid = Some o /\
            o ∈ JsMap.values (_columns t) /\ objs h !! o = Some cd.
Proof.
  unfold column. destruct (JsMap.get (_columns t) cid) as [o|] eqn:Hg; [|done].
  simpl. intros Hcd. exists o. split; [done|]. split; [|done].
  by eapply JsMap_get_value.
Qed.

(** In a well-formed table two row ids do not share a storage position. *)
Lemma idx_ok_inj h t r1 r2 i :
  idx_ok h t -> _rowMap t !! VNum r1 = Some i -> _rowMap t !! VNum r2 = Some i ->
  r1 = r2.
Proof.
  intros [_ H2] H1 H1'. apply H2 in H1, H1'. congruence.
Qed.

Lemma idx_ok_resident h t r :
  idx_ok h t ->
  (is_Some (_rowMap t !! VNum r) <-> VNum r ∈ read h (_rowIdCol t)).
Proof.
  intros [H1 H2]. split.
  - intros [i Hi]. apply H2 in Hi. by eapply list_elem_of_lookup_2.
  - intros Hin. apply list_elem_of_lookup in Hin as [i Hi].
    destruct (H1 i _ Hi) as [_ ?]. by eexists.
Qed.

(** The column of the lookup named [id] is the view of the row-id array. *)
Lemma wf_id_column h t :
  table_wf h t ->
  exists cd, column h t "id" = Some cd /\ values cd = _rowIdCol t.
Proof.
  intros Hwf. destruct (wf_id _ _ Hwf) as (oid & Hg & Hv & Hp).
  pose proof (JsMap_get_value _ _ _ Hg) as Hin.
  destruct (wf_valid _ _ Hwf oid Hin) as (cd & Hcd & _).
  exists cd. unfold column. rewrite Hg. simpl. split; [done|].
  unfold values_of in Hv. rewrite Hcd in Hv. by injection Hv.
Qed.

(** Every column of the lookup has one cell per row. *)
Lemma column_length h t cid cd :
  table_ok h t -> column h t cid = Some cd ->
  length (read h (values cd)) = length (read h (_rowIdCol t)).
Proof.
  intros (Hwf & Hlen & _) Hc.
  destruct (column_object h t cid cd Hc) as (o & _ & Hin & Hcd).
  by apply (Hlen o cd).
Qed.

(** ** [onAddRecord] followed by [getValue] *)

Lemma onAddRecord_read_column h t rowId colValues cid cd :
  table_ok h t -> column h t cid = Some cd ->
  exists v, read (onAddRecord h t rowId colValues).1 (values cd) =
            read h (values cd) ++ [v] /\
    (cid = "id" -> v = VNum rowId) /\
    (cid ≠ "id" -> v = default (defl cd) (colValues !! colId cd)).
Proof.
  intros (Hwf & Hlen & Hidx) Hc.
  destruct (column_object h t cid cd Hc) as (o & Hg & Hin & Hcd).
  destruct (decide (cid = "id")) as [->|Hne].
  - destruct (wf_id_column h t Hwf) as (cd' & Hc' & Hv).
    assert (cd' = cd) as -> by congruence.
    exists (VNum rowId). rewrite Hv. split; [|done].
    by apply onAddRecord_rowIds.
  - destruct (wf_column_not_id h t cid cd Hwf Hne Hc) as (Hnr & _ & _).
    destruct (wf_columns_cases h t Hwf o cd Hin Hcd) as [?|[Ho _]]; [done|].
    eexists. split; [by apply (onAddRecord_column h t rowId colValues o cd)|].
    done.
Qed.

(** X1.  In a well-formed table, [AddRecord] with a row id that is not
    resident adds one row; [getValue] then gives, for the new row, its id
    under [id] and, for every other column, the value that the action
    carries under the column's [colId], or the column's default when it
    carries none; the cells of every other row id are unchanged. *)
Theorem onAddRecord_getValue h t rowId colValues :
  table_ok h t -> VNum rowId ∉ read h (_rowIdCol t) ->
  let st := onAddRecord h t rowId colValues in
  numRecords st.1 st.2 = S (numRecords h t) /\
  getValue st.1 st.2 rowId "id" = Some (VNum rowId) /\
  (forall cid cd, cid ≠ "id" -> column h t cid = Some cd ->
     getValue st.1 st.2 rowId cid =
       Some (default (defl cd) (colValues !! colId cd))) /\
  (forall r cid, r ≠ rowId -> getValue st.1 st.2 r cid = getValue h t r cid).
Proof.
  intros Hok Hfresh st.
  pose proof Hok as (Hwf & Hlen & Hidx).
  destruct (onAddRecord_frame h t rowId colValues)
    as (Ho & Hl & Hc & Ha & Hr & _ & Hm).
  fold st in Ho, Hl, Hc, Ha, Hr, Hm.
  assert (Hcol : forall cid, column st.1 st.2 cid = column h t cid).
  { intros cid. by apply column_frame. }
  assert (Hnew : forall cid cd, column h t cid = Some cd ->
    exists v, getValue st.1 st.2 rowId cid = Some v /\
      (cid = "id" -> v = VNum rowId) /\
      (cid ≠ "id" -> v = default (defl cd) (colValues !! colId cd))).
  { intros cid cd Hcd.
    destruct (onAddRecord_read_column h t rowId colValues cid cd Hok Hcd)
      as (v & Hread & Hv).
    exists v. split; [|done]. unfold getValue. rewrite Hcol, Hcd, Hm.
    rewrite lookup_insert_eq. fold st in Hread. rewrite Hread.
    rewrite <- (column_length h t cid cd Hok Hcd). by rewrite arr_get_app_r. }
  split; [|split; [|split]].
  - unfold numRecords. rewrite Hr. unfold st.
    rewrite onAddRecord_rowIds by done. rewrite length_app. simpl. lia.
  - destruct (wf_id_column h t Hwf) as (cd & Hcd & _).
    destruct (Hnew "id" cd Hcd) as (v & -> & Hv & _). by rewrite Hv.
  - intros cid cd Hne Hcd.
    destruct (Hnew cid cd Hcd) as (v & -> & _ & Hv). by rewrite Hv.
  - intros r cid Hne. unfold getValue. rewrite Hcol, Hm.
    rewrite lookup_insert_ne by congruence.
    destruct (column h t cid) as [cd|] eqn:Hcd; [|done].
    destruct (_rowMap t !! VNum r) as [i|] eqn:Hi; [|done].
    destruct (onAddRecord_read_column h t rowId colValues cid cd Hok Hcd)
      as (v & Hread & _).
    fold st in Hread. rewrite Hread. f_equal. apply arr_get_app_l.
    rewrite (column_length h t cid cd Hok Hcd).
    destruct Hidx as [_ H2]. eapply lookup_lt_Some. by apply H2.
Qed.

(** ** [onRemoveRecord] followed by [getValue] *)

Lemma move_last_get l index i i' :
  index < length l -> i < length l -> i ≠ index ->
  i' = (if decide (i = length l - 1) then index else i) ->
  arr_get (move_last l index (Z.of_nat (length l) - 1)) (Z.of_nat i') =
  arr_get l (Z.of_nat i).
Proof.
  intros Hindex Hi Hne ->. rewrite !arr_get_nat.
  destruct (decide (i = length l - 1)) as [->|Hne'].
  - by rewrite move_last_lookup_index by lia.
  - by rewrite move_last_lookup_other by lia.
Qed.

(** The cells of the other rows after [RemoveRecord]. *)
Lemma onRemoveRecord_getValue_other h t rowId r cid :
  table_ok h t -> r ≠ rowId ->
  getValue (onRemoveRecord h t rowId).1 (onRemoveRecord h t rowId).2 r cid =
  getValue h t r cid.
Proof.
  intros Hok Hne.
  destruct (_rowMap t !! VNum rowId) as [index|] eqn:Hm;
    [|by rewrite onRemoveRecord_absent].
  set (st := onRemoveRecord h t rowId).
  pose proof Hok as (Hwf & Hlen & Hidx1 & Hidx2).
  destruct (onRemoveRecord_frame h t rowId) as (Ho & Hl & Hc & Ha & Hr & _).
  fold st in Ho, Hl, Hc, Ha, Hr.
  pose proof (onRemoveRecord_rowIds h t rowId index Hwf Hm) as Hids.
  pose proof (onRemoveRecord_rowMap h t rowId index Hm) as Hmap.
  fold st in Hids, Hmap.
  pose proof (Hidx2 _ _ Hm) as Hindex.
  pose proof (lookup_lt_Some _ _ _ Hindex) as Hlt.
  unfold getValue.
  rewrite (column_frame h st.1 t st.2 cid Ho Hc).
  destruct (column h t cid) as [cd|] eqn:Hcd; [|done].
  destruct (column_object h t cid cd Hcd) as (o & _ & Hin & Hobj).
  pose proof (onRemoveRecord_column h t rowId index o cd Hwf Hm Hin Hobj)
    as Hread.
  fold st in Hread. rewrite Hread.
  pose proof (Hlen o cd Hin Hobj) as Hcl.
  set (ids := read h (_rowIdCol t)) in *.
  set (col := read h (values cd)) in *.
  rewrite <- Hcl in *.
  (* the position of [r] after the removal *)
  assert (Hpos : _rowMap st.2 !! VNum r =
    match _rowMap t !! VNum r with
    | Some i => Some (if decide (i = length col - 1) then index else i)
    | None => None
    end).
  { rewrite Hmap, lookup_delete_ne by congruence. rewrite Hids.
    destruct (decide (index < length col - 1)) as [Hlt'|Hge].
    - destruct (lookup_lt_is_Some_2 ids (length col - 1)) as [x Hx];
        [lia|].
      rewrite (arr_get_lookup _ _ x).
      2:{ rewrite Hcl. rewrite move_last_lookup_index by lia.
          by rewrite <- Hcl. }
      destruct (Hidx1 _ _ Hx) as [[n ->] Hxm].
      destruct (decide (n = r)) as [->|Hnr].
      + rewrite lookup_insert_eq, Hxm. by rewrite decide_True.
      + rewrite lookup_insert_ne by congruence.
        destruct (_rowMap t !! VNum r) as [i|] eqn:Hi; [|done].
        rewrite decide_False; [done|]. intros ->.
        apply Hidx2 in Hi. rewrite Hi in Hx. congruence.
    - rewrite arr_get_ge by (rewrite move_last_length by lia; lia).
      rewrite lookup_insert_ne by done.
      destruct (_rowMap t !! VNum r) as [i|] eqn:Hi; [|done].
      destruct (decide (i = length col - 1)) as [->|?]; [|done].
      f_equal. lia. }
  rewrite Hpos.
  destruct (_rowMap t !! VNum r) as [i|] eqn:Hi; [|done].
  f_equal. apply move_last_get; [lia| | |done].
  + rewrite Hcl. eapply lookup_lt_Some. by apply Hidx2.
  + intros ->. apply Hne. by eapply idx_ok_inj.
Qed.

(** X2.  In a well-formed table, [RemoveRecord] of a resident row id
    removes one row: [getValue] and [getRecord] no longer find the id, and
    although the last row moves into the freed position, [getValue] gives
    the same answer as before for every other row id and every column. *)
Theorem onRemoveRecord_getValue h t rowId :
  table_ok h t -> is_Some (_rowMap t !! VNum rowId) ->
  let st := onRemoveRecord h t rowId in
  S (numRecords st.1 st.2) = numRecords h t /\
  (forall cid, getValue st.1 st.2 rowId cid = None) /\
  getRecord st.1 st.2 rowId = None /\
  (forall r cid, r ≠ rowId -> getValue st.1 st.2 r cid = getValue h t r cid).
Proof.
  intros Hok [index Hm] st.
  pose proof Hok as (Hwf & Hlen & Hidx1 & Hidx2).
  destruct (onRemoveRecord_frame h t rowId) as (Ho & Hl & Hc & Ha & Hr & _).
  fold st in Ho, Hl, Hc, Ha, Hr.
  pose proof (onRemoveRecord_rowIds h t rowId index Hwf Hm) as Hids.
  pose proof (onRemoveRecord_rowMap h t rowId index Hm) as Hmap.
  fold st in Hids, Hmap.
  pose proof (Hidx2 _ _ Hm) as Hindex.
  pose proof (lookup_lt_Some _ _ _ Hindex) as Hlt.
  assert (Hgone : _rowMap st.2 !! VNum rowId = None).
  { rewrite Hmap. apply lookup_delete_eq. }
  split; [|split; [|split]].
  - unfold numRecords. rewrite Hr, Hids, move_last_length by done. lia.
  - intros cid. unfold getValue. rewrite Hgone.
    by destruct (column st.1 st.2 cid).
  - unfold getRecord. by rewrite Hgone.
  - intros r cid Hne. by apply onRemoveRecord_getValue_other.
Qed.

(** ** [onUpdateRecord] followed by [getValue] *)

(** Columns filed under different ids have different arrays. *)
Lemma wf_columns_apart h t c1 c2 cd1 cd2 :
  table_wf h t -> c1 ≠ c2 ->
  column h t c1 = Some cd1 -> column h t c2 = Some cd2 ->
  values cd1 ≠ values cd2.
Proof.
  intros Hwf Hne H1 H2.
  destruct (column_object h t c1 cd1 H1) as (o1 & Hg1 & Hin1 & Hobj1).
  destruct (column_object h t c2 cd2 H2) as (o2 & Hg2 & Hin2 & Hobj2).
  assert (o1 ≠ o2) as Hoo.
  { eapply JsMap_get_distinct; [|exact Hg1|exact Hg2|done].
    eapply NoDup_fmap_1. apply (wf_sep _ _ Hwf). }
  intros Heq. apply Hoo.
  eapply NoDup_fmap_eq; [apply (wf_sep _ _ Hwf)|done|done|].
  unfold values_of. rewrite Hobj1, Hobj2. simpl. by rewrite Heq.
Qed.

Lemma column_valid h t cid cd :
  table_wf h t -> column h t cid = Some cd -> values cd < length (arrays h).
Proof.
  intros Hwf Hc. destruct (column_object h t cid cd Hc) as (o & _ & Hin & Hobj).
  destruct (wf_valid _ _ Hwf o Hin) as (cd' & Hcd' & Hv). congruence.
Qed.

(** What the loop over the keys of [colValues] leaves in the array of the
    column [c0]. *)
Lemma update_cells_read {A} (sel : A -> CellValue) h0 t index
    (l : list (string * A)) h c0 cd0 :
  table_wf h0 t -> objs h = objs h0 ->
  length (arrays h) = length (arrays h0) ->
  NoDup l.*1 -> column h0 t c0 = Some cd0 ->
  read (foldl (fun h p => update_cell t index h p.1 (sel p.2)) h l)
    (values cd0) =
  match JsMap.get l c0 with
  | Some x => arr_set (read h (values cd0)) index (sel x)
  | None => read h (values cd0)
  end.
Proof.
  intros Hwf Ho Hl Hnd Hc0. revert h Ho Hl.
  induction l as [|[c x] l IH]; intros h Ho Hl; simpl; [done|].
  apply NoDup_cons in Hnd as [Hc Hnd].
  assert (Hcol : forall c', column h t c' = column h0 t c').
  { intros c'. by apply column_frame. }
  assert (Hstep : objs (update_cell t index h c (sel x)) = objs h0 /\
                  length (arrays (update_cell t index h c (sel x))) =
                  length (arrays h0)).
  { unfold update_cell. destruct (column h t c); [|done].
    unfold arr_store. by rewrite length_arrays_write. }
  destruct Hstep as [Ho1 Hl1].
  rewrite (IH Hnd _ Ho1 Hl1).
  destruct (decide (c = c0)) as [->|Hne].
  - rewrite JsMap_get_None by done.
    unfold update_cell. rewrite Hcol, Hc0. unfold arr_store.
    apply read_write_eq. rewrite Hl. by eapply column_valid.
  - assert (Hsame : read (update_cell t index h c (sel x)) (values cd0) =
                    read h (values cd0)).
    { unfold update_cell. rewrite Hcol.
      destruct (column h0 t c) as [cd|] eqn:Hcd; [|done].
      unfold arr_store. apply read_write_ne.
      by eapply wf_columns_apart. }
    rewrite Hsame. done.
Qed.

Lemma JsMap_get_map_to_list {A} (m : gmap string A) c :
  JsMap.get (map_to_list m) c = m !! c.
Proof.
  destruct (m !! c) as [x|] eqn:Hx.
  - apply elem_of_map_to_list in Hx.
    pose proof (NoDup_fst_map_to_list m) as Hnd.
    induction (map_to_list m) as [|[c' x'] l IH]; simpl.
    + by apply elem_of_nil in Hx.
    + simpl in Hnd. apply NoDup_cons in Hnd as [Hc Hnd].
      destruct (decide (c' = c)) as [->|Hne].
      * apply elem_of_cons in Hx as [[= ->]|Hx]; [done|].
        destruct Hc. by apply (list_elem_of_fmap_2 fst) in Hx.
      * apply elem_of_cons in Hx as [[= ? ?]|Hx]; [done|]. by apply IH.
  - apply JsMap_get_None. intros Hin.
    apply list_elem_of_fmap in Hin as ([c' x] & Heq & Hin). simpl in Heq.
    subst c'. apply elem_of_map_to_list in Hin. congruence.
Qed.

(** X3.  In a well-formed table, after [UpdateRecord] every cell read by
    [getValue] is as before, except the cells of the updated row in the
    columns that the action names, which hold the new values; a key that
    names no column and an id that is not resident change nothing. *)
Theorem onUpdateRecord_getValue h t rowId colValues :
  table_ok h t ->
  let st := onUpdateRecord h t rowId colValues in
  st.2 = t /\
  forall r cid,
    getValue st.1 st.2 r cid =
    match getValue h t r cid with
    | Some old =>
        Some (if decide (r = rowId) then default old (colValues !! cid)
              else old)
    | None => None
    end.
Proof.
  intros Hok st. pose proof Hok as (Hwf & Hlen & Hidx).
  unfold st, onUpdateRecord.
  destruct (_rowMap t !! VNum rowId) as [index|] eqn:Hm; simpl.
  - split; [done|]. intros r cid.
    set (h' := foldl _ h (map_to_list colValues)).
    assert (Hobjs : objs h' = objs h).
    { unfold h'. generalize (map_to_list colValues) h.
      induction l as [|p l IH]; intros h1; simpl; [done|].
      rewrite IH. unfold update_cell. by destruct (column h1 t p.1). }
    unfold getValue. rewrite (column_frame h h' t t cid Hobjs eq_refl).
    destruct (column h t cid) as [cd|] eqn:Hcd; [|done].
    destruct (_rowMap t !! VNum r) as [i|] eqn:Hi; [|done].
    f_equal. unfold h'.
    rewrite (update_cells_read (fun v => v) h t index _ h cid cd);
      [|done|done|done|apply NoDup_fst_map_to_list|done].
    rewrite JsMap_get_map_to_list.
    destruct (colValues !! cid) as [v|] eqn:Hv; simpl.
    + destruct (decide (r = rowId)) as [->|Hne].
      * assert (i = index) as -> by congruence.
        apply arr_get_arr_set_eq.
      * apply arr_get_arr_set_ne. intros ->. apply Hne. symmetry.
        by eapply idx_ok_inj.
    + by destruct (decide (r = rowId)).
  - split; [done|]. intros r cid.
    destruct (getValue h t r cid) as [old|] eqn:Hg; [|done].
    destruct (decide (r = rowId)) as [->|]; [|done].
    unfold getValue in Hg. rewrite Hm in Hg.
    by destruct (column h t cid).
Qed.

(** ** Adding a row and removing it again *)

(** X4.  Adding a row with a new id and removing it again restores every
    array of the heap and the columns of the table; [_rowMap] is the old
    index with one more entry, under the key [undefined], left by the
    removal of the last row. *)
Theorem onAddRecord_onRemoveRecord h t rowId colValues :
  table_ok h t -> VNum rowId ∉ read h (_rowIdCol t) ->
  let added := onAddRecord h t rowId colValues in
  let st := onRemoveRecord added.1 added.2 rowId in
  objs st.1 = objs h /\
  (forall a, read st.1 a = read h a) /\
  _columns st.2 = _columns t /\ _colArray st.2 = _colArray t /\
  _rowIdCol st.2 = _rowIdCol t /\
  _rowMap st.2 = <[Undefined := numRecords h t]> (_rowMap t).
Proof.
  intros Hok Hfresh added st.
  pose proof Hok as (Hwf & Hlen & Hidx).
  assert (Hok1 : table_ok added.1 added.2) by (by apply onAddRecord_ok).
  pose proof Hok1 as (Hwf1 & Hlen1 & Hidx1).
  destruct (onAddRecord_frame h t rowId colValues)
    as (Ho & Hl & Hc & Ha & Hr & _ & Hm).
  fold added in Ho, Hl, Hc, Ha, Hr, Hm.
  destruct (onRemoveRecord_frame added.1 added.2 rowId)
    as (Ho' & Hl' & Hc' & Ha' & Hr' & _).
  fold st in Ho', Hl', Hc', Ha', Hr'.
  set (n := length (read h (_rowIdCol t))) in *.
  assert (Hm1 : _rowMap added.2 !! VNum rowId = Some n).
  { rewrite Hm. apply lookup_insert_eq. }
  assert (Hids1 : read added.1 (_rowIdCol added.2) =
                  read h (_rowIdCol t) ++ [VNum rowId]).
  { rewrite Hr. by apply onAddRecord_rowIds. }
  assert (Hpop : forall l v,
    length l = n ->
    move_last (l ++ [v]) n
      (Z.of_nat (length (read h (_rowIdCol t) ++ [VNum rowId])) - 1) = l).
  { intros l v Hn. unfold move_last. rewrite length_app. simpl. fold n.
    replace (Z.of_nat (n + 1) - 1)%Z with (Z.of_nat (length l)) by lia.
    rewrite arr_get_app_r. unfold arr_set.
    rewrite decide_True by (rewrite length_app; simpl; lia).
    unfold arr_pop. rewrite length_insert, length_app. simpl.
    rewrite <- Hn.
    apply list_eq. intros i.
    destruct (decide (i < length l)) as [Hi|Hi].
    - rewrite lookup_take_lt by lia.
      rewrite list_lookup_insert_ne by lia. by rewrite lookup_app_l.
    - rewrite lookup_take_ge by lia. by rewrite lookup_ge_None_2 by lia. }
  split; [congruence|]. split; [|split; [congruence|split; [congruence|
    split; [congruence|]]]].
  - intros a.
    destruct (decide (Some a ∈ map (values_of h) (JsMap.values (_columns t))))
      as [Hex|Hnex'].
    + apply list_elem_of_fmap in Hex as (o & Hva & Hin).
      destruct (wf_valid _ _ Hwf o Hin) as (cd & Hcd & _).
      unfold values_of in Hva. rewrite Hcd in Hva. injection Hva as ->.
      unfold st.
      rewrite (onRemoveRecord_column added.1 added.2 rowId n o cd);
        [|done|done|by rewrite Hc|by rewrite Ho].
      rewrite Hids1.
      assert (Hcolumn : exists v, read added.1 (values cd) =
                                  read h (values cd) ++ [v]).
      { destruct (wf_columns_cases h t Hwf o cd Hin Hcd) as [Heq|[Hin' _]].
        - exists (VNum rowId). rewrite Heq. unfold added.
          by apply onAddRecord_rowIds.
        - eexists. unfold added.
          by apply (onAddRecord_column h t rowId colValues o cd). }
      destruct Hcolumn as (v & ->). apply Hpop. by apply (Hlen o cd).
    + (* an array that belongs to no column is not written *)
      assert (Hnex : ~ exists o cd, o ∈ JsMap.values (_columns t) /\
                objs h !! o = Some cd /\ values cd = a).
      { intros (o & cd & Hin & Hcd & <-). apply Hnex'.
        apply list_elem_of_fmap. exists o. split; [|done].
        unfold values_of. by rewrite Hcd. }
      unfold st, onRemoveRecord. rewrite Hm1. cbn [fst snd].
      rewrite remove_cell_upd.
      destruct (decide (a < length (arrays h))) as [Hlt|Hge].
      * rewrite (loop_frame _ (upd_col_step _)).
        -- unfold added, onAddRecord. cbn [fst snd]. rewrite add_cell_upd.
           rewrite (loop_frame _ (upd_col_step _)).
           ++ unfold arr_store. apply read_write_ne. intros <-.
              apply Hnex. destruct (wf_id_in h t Hwf) as (oid & cd & ? & ? & ?).
              by exists oid, cd.
           ++ unfold arr_store. by rewrite length_arrays_write.
           ++ intros o Hin Heq. apply Hnex.
              pose proof (wf_colArray_in h t Hwf o Hin) as Hin'.
              destruct (wf_valid _ _ Hwf o Hin') as (cd & Hcd & _).
              exists o, cd. split; [done|]. split; [done|].
              unfold values_of, arr_store in Heq. simpl in Heq.
              rewrite Hcd in Heq. by injection Heq.
        -- by rewrite Hl.
        -- intros o Hin Heq. apply Hnex. rewrite Hc in Hin.
           destruct (wf_valid _ _ Hwf o Hin) as (cd & Hcd & _).
           exists o, cd. split; [done|]. split; [done|].
           unfold values_of in Heq. rewrite Ho, Hcd in Heq. by injection Heq.
      * rewrite !read_invalid; [done|lia|].
        rewrite upd_col_arrays_length, Hl. lia.
  - unfold st. rewrite (onRemoveRecord_rowMap added.1 added.2 rowId n Hm1).
    fold st. rewrite Hr.
    assert (Hids2 : read st.1 (_rowIdCol t) = read h (_rowIdCol t)).
    { unfold st. rewrite <- Hr.
      rewrite (onRemoveRecord_rowIds added.1 added.2 rowId n Hwf1 Hm1).
      rewrite Hids1. by apply Hpop. }
    rewrite Hids2, arr_get_ge by done. rewrite Hm.
    unfold numRecords. fold n.
    rewrite insert_insert_ne by done. rewrite delete_insert_eq.
    rewrite delete_id; [done|]. rewrite lookup_insert_ne by done.
    destruct (_rowMap t !! VNum rowId) as [i|] eqn:Hi; [|done].
    destruct Hfresh. apply (idx_ok_resident h t rowId Hidx). by eexists.
Qed.

(** ** Records *)

(** The objects of [_colArray] are filed in the lookup under their own
    [colId]: what the constructor builds, and what every row action keeps. *)
Definition names_ok (h : Heap) (t : TableData) : Prop :=
  forall o cd, o ∈ _colArray t -> objs h !! o = Some cd ->
    JsMap.get (_columns t) (colId cd) = Some o.

Lemma names_ok_frame h h' t t' :
  objs h' = objs h -> _columns t' = _columns t -> _colArray t' = _colArray t ->
  names_ok h t -> names_ok h' t'.
Proof.
  intros Ho Hc Ha Hn o cd. rewrite Ho, Hc, Ha. apply Hn.
Qed.

Lemma wf_values_NoDup h t : table_wf h t -> NoDup (JsMap.values (_columns t)).
Proof. intros Hwf. eapply NoDup_fmap_1. apply (wf_sep _ _ Hwf). Qed.

(** A column of the lookup other than [id] is an object of [_colArray],
    filed under its own [colId]. *)
Lemma named_column h t c cd :
  table_wf h t -> names_ok h t -> c ≠ "id" -> column h t c = Some cd ->
  exists o, o ∈ _colArray t /\ objs h !! o = Some cd /\ colId cd = c.
Proof.
  intros Hwf Hn Hne Hc.
  destruct (column_object h t c cd Hc) as (o & Hg & Hin & Hobj).
  destruct (wf_id _ _ Hwf) as (oid & Hgid & _ & Hp).
  pose proof (wf_values_NoDup h t Hwf) as Hnd.
  assert (Ho : o ∈ _colArray t).
  { rewrite Hp in Hin. apply elem_of_cons in Hin as [->|?]; [|done].
    by destruct (JsMap_get_distinct _ _ _ _ _ Hnd Hg Hgid Hne). }
  exists o. split; [done|]. split; [done|].
  destruct (decide (colId cd = c)) as [|Hne']; [done|].
  by destruct (JsMap_get_distinct _ _ _ _ _ Hnd (Hn o cd Ho Hobj) Hg Hne').
Qed.

Lemma named_not_id h t o cd :
  table_wf h t -> names_ok h t -> o ∈ _colArray t -> objs h !! o = Some cd ->
  colId cd ≠ "id" /\ column h t (colId cd) = Some cd.
Proof.
  intros Hwf Hn Ho Hobj. pose proof (Hn o cd Ho Hobj) as Hg. split.
  - intros Heq. rewrite Heq in Hg.
    destruct (wf_id _ _ Hwf) as (oid & Hgid & _ & Hp).
    assert (oid = o) as -> by congruence.
    pose proof (wf_values_NoDup h t Hwf) as Hnd. rewrite Hp in Hnd.
    by apply NoDup_cons in Hnd as [? _].
  - unfold column. by rewrite Hg.
Qed.

(** One step of the loop that fills a record. *)
Definition fill_step (h : Heap) (index : nat) (ret : gmap string CellValue)
    (o : oref) : gmap string CellValue :=
  match objs h !! o with
  | Some colData =>
      <[colId colData :=
          arr_get (read h (values colData)) (Z.of_nat index)]> ret
  | None => ret
  end.

Lemma fill_fold_other h index os (ret : gmap string CellValue) c :
  (forall o cd, o ∈ os -> objs h !! o = Some cd -> colId cd ≠ c) ->
  foldl (fill_step h index) ret os !! c = ret !! c.
Proof.
  revert ret. induction os as [|x os IH]; intros ret Hno; simpl; [done|].
  rewrite IH.
  - unfold fill_step. destruct (objs h !! x) as [cd|] eqn:Hx; [|done].
    apply lookup_insert_ne. apply (Hno x cd); [left|done].
  - intros o cd Ho. apply Hno. by right.
Qed.

Lemma fill_fold_hit h index os (ret : gmap string CellValue) c v :
  (forall o cd, o ∈ os -> objs h !! o = Some cd -> colId cd = c ->
     arr_get (read h (values cd)) (Z.of_nat index) = v) ->
  ret !! c = Some v \/
    (exists o cd, o ∈ os /\ objs h !! o = Some cd /\ colId cd = c) ->
  foldl (fill_step h index) ret os !! c = Some v.
Proof.
  revert ret. induction os as [|x os IH]; intros ret Hall Hex; simpl.
  { destruct Hex as [?|(o & cd & Ho & _)]; [done|]. by apply elem_of_nil in Ho. }
  apply IH.
  { intros o cd Ho. apply Hall. by right. }
  assert (Hx : ret !! c = Some v \/
               (exists cd, objs h !! x = Some cd /\ colId cd = c) ->
               fill_step h index ret x !! c = Some v).
  { intros Hc. unfold fill_step.
    destruct (objs h !! x) as [cd|] eqn:Hobj.
    - destruct (decide (colId cd = c)) as [<-|Hne].
      + rewrite lookup_insert_eq. f_equal. apply (Hall x cd); [left|done..].
      + rewrite lookup_insert_ne by done.
        destruct Hc as [?|(cd' & [= <-] & ?)]; done.
    - destruct Hc as [?|(cd' & ? & _)]; done. }
  destruct Hex as [Hret|(o & cd & Ho & Hobj & Hc)].
  - left. apply Hx. by left.
  - apply elem_of_cons in Ho as [->|Ho].
    + left. apply Hx. right. by exists cd.
    + right. by exists o, cd.
Qed.

(** The record built for the storage position [index]. *)
Lemma fill_record_lookup h t index (ret : gmap string CellValue) c :
  table_wf h t -> names_ok h t ->
  fill_record h t index ret !! c =
  match column h t c with
  | Some cd =>
      if decide (c = "id") then ret !! c
      else Some (arr_get (read h (values cd)) (Z.of_nat index))
  | None => ret !! c
  end.
Proof.
  intros Hwf Hn. change (fill_record h t index ret)
    with (foldl (fill_step h index) ret (_colArray t)).
  destruct (column h t c) as [cd|] eqn:Hc.
  - destruct (decide (c = "id")) as [->|Hne].
    + apply fill_fold_other. intros o cd' Ho Hobj.
      by destruct (named_not_id h t o cd' Hwf Hn Ho Hobj).
    + destruct (named_column h t c cd Hwf Hn Hne Hc) as (o & Ho & Hobj & Hcid).
      apply fill_fold_hit.
      * intros o' cd' Ho' Hobj' Hc'.
        destruct (named_not_id h t o' cd' Hwf Hn Ho' Hobj') as [_ Hcol].
        rewrite Hc' in Hcol. congruence.
      * right. by exists o, cd.
  - apply fill_fold_other. intros o cd Ho Hobj Heq.
    destruct (named_not_id h t o cd Hwf Hn Ho Hobj) as [_ Hcol].
    rewrite Heq in Hcol. congruence.
Qed.

(** X5.  In a well-formed table whose columns are filed under their own
    ids, the record that [getRecord(rowId)] builds holds under every key
    what [getValue(rowId, key)] returns, and nothing under a key that names
    no column; [getRecord] answers [undefined] exactly when [getValue] does
    for every column. *)
Theorem getRecord_getValue h t rowId :
  table_ok h t -> names_ok h t ->
  match getRecord h t rowId with
  | Some r => forall cid, r !! cid = getValue h t rowId cid
  | None => forall cid, getValue h t rowId cid = None
  end.
Proof.
  intros (Hwf & Hlen & Hidx) Hn. unfold getRecord, getValue.
  destruct (_rowMap t !! VNum rowId) as [index|] eqn:Hm.
  - intros cid. rewrite fill_record_lookup by done. unfold RowRecord.
    destruct (column h t cid) as [cd|] eqn:Hc.
    + destruct (decide (cid = "id")) as [->|Hne]; [|done].
      rewrite lookup_singleton_eq.
      destruct (wf_id_column h t Hwf) as (cd' & Hc' & Hv).
      assert (cd' = cd) as -> by congruence. by rewrite Hv.
    + rewrite lookup_singleton_ne; [done|]. intros <-.
      destruct (wf_id_column h t Hwf) as (cd' & Hc' & _). congruence.
  - intros cid. by destruct (column h t cid).
Qed.

(** X6.  In a well-formed table [getRecords()] lists, in storage order, the
    record that [getRecord] builds for each resident row id. *)
Theorem getRecords_getRecord h t :
  table_ok h t ->
  Forall2 (fun v rec => exists r, v = VNum r /\ getRecord h t r = Some rec)
    (read h (_rowIdCol t)) (getRecords h t).
Proof.
  intros (Hwf & Hlen & Hidx1 & Hidx2). unfold getRecords.
  apply Forall2_same_length_lookup_2; [by rewrite length_imap|].
  intros i v rec Hv Hrec. rewrite list_lookup_imap, Hv in Hrec.
  simpl in Hrec. injection Hrec as <-.
  destruct (Hidx1 i v Hv) as [[r ->] Hm]. exists r. split; [done|].
  unfold getRecord. rewrite Hm. by rewrite (arr_get_lookup _ _ _ Hv).
Qed.

(** ** [filterRecords] *)

Lemma matching_rows_all h ids i :
  matching_rows h [] ids i = Returns (seq i (length ids)).
Proof.
  revert i. induction ids as [|x ids IH]; intros i; simpl; [done|].
  by rewrite IH.
Qed.

(** X7.  With no property to match, [filterRecords] returns what
    [getRecords()] returns, in every state of the table. *)
Theorem filterRecords_no_filter h t :
  filterRecords h t [] = Returns (getRecords h t).
Proof.
  unfold filterRecords, getRecords. simpl. rewrite matching_rows_all.
  f_equal. apply list_eq. intros i.
  rewrite list_lookup_fmap, list_lookup_imap.
  destruct (read h (_rowIdCol t) !! i) as [v|] eqn:Hv; simpl.
  - rewrite lookup_seq_lt by (by eapply lookup_lt_Some). simpl.
    by rewrite (arr_get_lookup _ _ _ Hv).
  - rewrite lookup_seq_ge; [done|]. by apply lookup_ge_None.
Qed.

(** Whether the row at storage position [i] has the given values. *)
Definition row_has (h : Heap) (t : TableData)
    (properties : list (string * CellValue)) (i : nat) : bool :=
  forallb (fun p =>
             match column h t p.1 with
             | Some cd =>
                 strict_eq (arr_get (read h (values cd)) (Z.of_nat i)) p.2
             | None => false
             end) properties.

Lemma row_matches_has h t properties i :
  Forall (fun p => is_Some (column h t p.1)) properties ->
  row_matches h (map (fun p => (p.2, column h t p.1)) properties) i =
  Returns (row_has h t properties i).
Proof.
  induction 1 as [|[c v] properties [cd Hcd] _ IH]; simpl; [done|].
  simpl in Hcd. rewrite Hcd.
  destruct (strict_eq _ _); [by rewrite IH|done].
Qed.

Lemma matching_rows_has h t properties ids i :
  Forall (fun p => is_Some (column h t p.1)) properties ->
  matching_rows h (map (fun p => (p.2, column h t p.1)) properties) ids i =
  Returns (filter (fun j => row_has h t properties j = true)
             (seq i (length ids))).
Proof.
  intros Hall. revert i. induction ids as [|x ids IH]; intros i; simpl;
    [done|].
  rewrite (row_matches_has h t properties i Hall), IH.
  destruct (row_has h t properties i) eqn:Hr.
  - by rewrite filter_cons_True.
  - rewrite filter_cons_False; [done|]. by rewrite Hr.
Qed.

(** X8.  In a well-formed table, when every key of [properties] names a
    column, [filterRecords] returns, in storage order, the record of
    [getRecord] for exactly the row ids whose cell, as read by [getValue],
    is strictly equal to the given value for every key. *)
Theorem filterRecords_spec h t properties :
  table_ok h t ->
  Forall (fun p => is_Some (column h t p.1)) properties ->
  filterRecords h t properties =
  Returns
    (omap (fun v =>
             match v with
             | VNum r =>
                 if forallb (fun p =>
                               bool_decide (getValue h t r p.1 = Some p.2))
                      properties
                 then getRecord h t r
                 else None
             | _ => None
             end)
       (read h (_rowIdCol t))).
Proof.
  intros (Hwf & Hlen & Hidx1 & Hidx2) Hall. unfold filterRecords.
  rewrite (matching_rows_has h t properties _ 0 Hall). f_equal.
  set (ids := read h (_rowIdCol t)) in *.
  set (g := fun i : nat =>
              fill_record h t i {[ "id" := arr_get ids (Z.of_nat i) ]}).
  set (F := fun v : CellValue => _).
  change (map g (filter (fun j => row_has h t properties j = true)
                   (seq 0 (length ids))) = omap F ids).
  assert (Hgen : forall suf i,
    (forall j v, suf !! j = Some v -> ids !! (i + j) = Some v) ->
    map g (filter (fun j => row_has h t properties j = true)
             (seq i (length suf))) = omap F suf).
  { induction suf as [|v suf IH]; intros i Hsuf; [done|].
    assert (Hv : ids !! i = Some v).
    { rewrite <- (Nat.add_0_r i). by apply Hsuf. }
    destruct (Hidx1 i v Hv) as [[r ->] Hm].
    assert (Hrow : forallb (fun p =>
                      bool_decide (getValue h t r p.1 = Some p.2)) properties
                   = row_has h t properties i).
    { unfold row_has. clear -Hm. induction properties as [|[c x] l IHl];
        simpl; [done|]. rewrite IHl. f_equal. unfold getValue. rewrite Hm.
      destruct (column h t c) as [cd|]; simpl.
      - unfold strict_eq. apply bool_decide_ext. split; congruence.
      - done. }
    assert (Hrec : getRecord h t r = Some (g i)).
    { unfold getRecord. by rewrite Hm. }
    cbn [length seq].
    change (omap F (VNum r :: suf)) with
      (match F (VNum r) with
       | Some y => y :: omap F suf
       | None => omap F suf
       end).
    assert (HF : F (VNum r) =
                 if row_has h t properties i then Some (g i) else None).
    { unfold F. by rewrite Hrow, Hrec. }
    rewrite HF, <- (IH (S i)).
    2:{ intros j x Hj. replace (S i + j) with (i + S j) by lia.
        by apply Hsuf. }
    destruct (row_has h t properties i) eqn:Hr.
    - by rewrite filter_cons_True.
    - rewrite filter_cons_False; [done|]. by rewrite Hr. }
  apply (Hgen ids 0). by intros j v.
Qed.

(** ** [findRow] *)

Lemma indexOf_None l v : indexOf l v = None <-> v ∉ l.
Proof.
  induction l as [|x l IH]; simpl.
  - split; [intros _; apply not_elem_of_nil|done].
  - unfold strict_eq. destruct (decide (x = v)) as [->|Hne].
    + rewrite bool_decide_eq_true_2 by done. split; [done|].
      intros Hni. destruct Hni. left.
    + rewrite bool_decide_eq_false_2 by done.
      rewrite fmap_None, IH, not_elem_of_cons.
      split; [intros ?; split; [congruence|done]|by intros [_ ?]].
Qed.

Lemma indexOf_Some l v i :
  indexOf l v = Some i ->
  l !! i = Some v /\ forall j, j < i -> l !! j ≠ Some v.
Proof.
  revert i. induction l as [|x l IH]; intros i; simpl; [done|].
  unfold strict_eq. destruct (decide (x = v)) as [->|Hne].
  - rewrite bool_decide_eq_true_2 by done. intros [= <-].
    split; [done|]. intros j Hj. lia.
  - rewrite bool_decide_eq_false_2 by done.
    intros Hi. apply fmap_Some in Hi as (k & Hk & ->).
    destruct (IH k Hk) as [H1 H2]. split; [done|].
    intros [|j] Hj; simpl; [congruence|]. apply H2. lia.
Qed.

(** X9.  In a well-formed table, [findRow] on a column that exists returns
    0 when no cell of the column holds the value, and otherwise the id of
    the first row in storage order whose cell holds it. *)
Theorem findRow_spec h t cid v cd :
  table_ok h t -> column h t cid = Some cd ->
  (v ∉ read h (values cd) -> findRow h t cid v = VNum 0) /\
  (v ∈ read h (values cd) ->
   exists r index,
     findRow h t cid v = VNum r /\ getValue h t r cid = Some v /\
     _rowMap t !! VNum r = Some index /\
     forall j, j < index -> read h (values cd) !! j ≠ Some v).
Proof.
  intros Hok Hc. pose proof Hok as (Hwf & Hlen & Hidx1 & Hidx2).
  unfold findRow. rewrite Hc. split.
  - intros Hni. apply indexOf_None in Hni. by rewrite Hni.
  - intros Hin.
    destruct (indexOf (read h (values cd)) v) as [index|] eqn:Hi.
    2:{ apply indexOf_None in Hi. done. }
    destruct (indexOf_Some _ _ _ Hi) as [Hv Hfirst].
    pose proof (lookup_lt_Some _ _ _ Hv) as Hlt.
    rewrite (column_length h t cid cd Hok Hc) in Hlt.
    destruct (lookup_lt_is_Some_2 _ _ Hlt) as [x Hx].
    destruct (Hidx1 _ _ Hx) as [[r ->] Hm].
    exists r, index. rewrite (arr_get_lookup _ _ _ Hx).
    split; [done|]. split; [|done].
    unfold getValue. rewrite Hc, Hm. by rewrite (arr_get_lookup _ _ _ Hv).
Qed.

(** ** More on the [Map] operations *)

Section JsMap_more.
Context {K V : Type} `{EqDecision K}.
Implicit Types (m : list (K * V)) (k : K) (v : V).

Lemma JsMap_get_set_eq m k v : JsMap.get (JsMap.set m k v) k = Some v.
Proof.
  induction m as [|[k' v'] m IH]; simpl.
  - by rewrite decide_True.
  - destruct (decide (k' = k)) as [->|Hne]; simpl.
    + by rewrite decide_True.
    + by rewrite decide_False.
Qed.

Lemma JsMap_get_set_ne m k k' v :
  k ≠ k' -> JsMap.get (JsMap.set m k v) k' = JsMap.get m k'.
Proof.
  intros Hne. induction m as [|[k1 v1] m IH]; simpl.
  - by rewrite decide_False.
  - destruct (decide (k1 = k)) as [->|Hne1]; simpl.
    + by rewrite !decide_False.
    + destruct (decide (k1 = k')); [done|apply IH].
Qed.

Lemma JsMap_get_delete_eq m k : JsMap.get (JsMap.delete m k) k = None.
Proof.
  induction m as [|[k' v'] m IH]; simpl; [done|].
  destruct (decide (k' = k)) as [->|Hne]; simpl; [done|].
  by rewrite decide_False.
Qed.

Lemma JsMap_get_delete_ne m k k' :
  k ≠ k' -> JsMap.get (JsMap.delete m k) k' = JsMap.get m k'.
Proof.
  intros Hne. induction m as [|[k1 v1] m IH]; simpl; [done|].
  destruct (decide (k1 = k)) as [->|Hne1]; simpl.
  - by rewrite decide_False.
  - destruct (decide (k1 = k')); [done|apply IH].
Qed.

Lemma JsMap_keys_delete m k :
  JsMap.keys (JsMap.delete m k) = filter (fun c => c ≠ k) (JsMap.keys m).
Proof.
  unfold JsMap.keys. induction m as [|[k' v'] m IH]; [done|].
  cbn [JsMap.delete]. rewrite fmap_cons. cbn [fst].
  destruct (decide (k' = k)) as [->|Hne].
  - rewrite filter_cons_False by (by intros ?). apply IH.
  - rewrite filter_cons_True by done. rewrite fmap_cons. cbn [fst].
    by rewrite IH.
Qed.

Lemma JsMap_delete_absent m k : k ∉ JsMap.keys m -> JsMap.delete m k = m.
Proof.
  unfold JsMap.keys. induction m as [|[k' v'] m IH]; simpl; [done|].
  intros Hni. apply not_elem_of_cons in Hni as [Hne Hni].
  rewrite decide_False by done. by rewrite IH.
Qed.

Lemma JsMap_keys_set_NoDup m k v :
  NoDup (JsMap.keys m) -> NoDup (JsMap.keys (JsMap.set m k v)).
Proof.
  unfold JsMap.keys. induction m as [|[k' v'] m IH]; simpl.
  - intros _. apply NoDup_singleton.
  - intros Hnd. apply NoDup_cons in Hnd as [Hni Hnd].
    destruct (decide (k' = k)) as [->|Hne]; simpl.
    + by apply NoDup_cons.
    + apply NoDup_cons. split; [|by apply IH].
      intros Hin. apply list_elem_of_fmap in Hin as ([k1 v1] & -> & Hin).
      simpl in *. clear IH Hnd.
      induction m as [|[k2 v2] m IHm]; simpl in *.
      * apply list_elem_of_singleton in Hin. congruence.
      * apply not_elem_of_cons in Hni as [Hne2 Hni].
        destruct (decide (k2 = k)) as [->|Hne3].
        -- apply elem_of_cons in Hin as [[= ? ?]|Hin]; [done|].
           apply Hni. by apply (list_elem_of_fmap_2 fst) in Hin.
        -- apply elem_of_cons in Hin as [[= ? ?]|Hin]; [done|].
           by apply IHm.
Qed.

(** Deleting the key of an entry removes that entry, when keys are not
    repeated. *)
Lemma JsMap_values_delete m k v :
  NoDup (JsMap.keys m) -> JsMap.get m k = Some v ->
  JsMap.values m ≡ₚ v :: JsMap.values (JsMap.delete m k).
Proof.
  unfold JsMap.keys, JsMap.values.
  induction m as [|[k' v'] m IH]; simpl; [done|].
  intros Hnd Hg. apply NoDup_cons in Hnd as [Hni Hnd].
  destruct (decide (k' = k)) as [->|Hne].
  - injection Hg as ->. by rewrite (JsMap_delete_absent m k).
  - simpl. rewrite (IH Hnd Hg). apply Permutation_swap.
Qed.

Lemma JsMap_has_true m k : JsMap.has m k = true <-> k ∈ JsMap.keys m.
Proof.
  unfold JsMap.has. split.
  - destruct (JsMap.get m k) as [v|] eqn:Hg; [|done]. intros _.
    apply JsMap_get_elem in Hg. by apply (list_elem_of_fmap_2 fst) in Hg.
  - intros Hin. by destruct (JsMap_get_is_Some m k Hin) as [v ->].
Qed.
End JsMap_more.

Lemma arrayRemove_Permutation l o : o ∈ l -> l ≡ₚ o :: arrayRemove l o.
Proof.
  induction l as [|x l IH]; simpl.
  - intros Hin. by apply elem_of_nil in Hin.
  - intros Hin. destruct (decide (x = o)) as [->|Hne]; [done|].
    apply elem_of_cons in Hin as [?|Hin]; [done|].
    rewrite (IH Hin) at 1. apply Permutation_swap.
Qed.

(** ** The constructor *)

Section constructor_more.
Variable getDefaultForType : string -> CellValue.

Lemma new_column_fields st c :
  _tableId (new_column getDefaultForType st c).2 = _tableId st.2 /\
  _rowIdCol (new_column getDefaultForType st c).2 = _rowIdCol st.2 /\
  JsMap.keys (_columns (new_column getDefaultForType st c).2) =
    JsMap.keys (JsMap.set (_columns st.2) c.1
                  (length (objs st.1))).
Proof. by destruct st as [h t], c as [cid ty]. Qed.

Lemma new_columns_keys_NoDup l st :
  NoDup (JsMap.keys (_columns st.2)) ->
  NoDup (JsMap.keys (_columns (foldl (new_column getDefaultForType) st l).2)).
Proof.
  revert st. induction l as [|c l IH]; intros st Hnd; simpl; [done|].
  apply IH. destruct (new_column_fields st c) as (_ & _ & ->).
  by apply JsMap_keys_set_NoDup.
Qed.

(** The table with a snapshot is the empty table after [loadData]. *)
Lemma TableData_new_load h tableId d colTypes :
  TableData_new getDefaultForType h tableId (Some d) colTypes =
  (loadData (TableData_new getDefaultForType h tableId None colTypes).1
     (TableData_new getDefaultForType h tableId None colTypes).2 d).1.
Proof.
  unfold TableData_new.
  destruct (alloc h []) as [h0 r].
  destruct (foldl (new_column getDefaultForType) _ _) as [h1 t1].
  by destruct (alloc_obj h1 _) as [h2 oid].
Qed.

Lemma TableData_new_keys_NoDup h tableId d colTypes :
  NoDup (getColIds (TableData_new getDefaultForType h tableId d colTypes).2).
Proof.
  assert (Hnone : NoDup (getColIds
            (TableData_new getDefaultForType h tableId None colTypes).2)).
  { unfold TableData_new, getColIds.
    destruct (alloc h []) as [h0 r].
    pose proof (new_columns_keys_NoDup (map_to_list colTypes)
                  (h0, mkTableData tableId false None [] [] r ∅)) as Hnd.
    destruct (foldl (new_column getDefaultForType) _ _) as [h1 t1].
    destruct (alloc_obj h1 _) as [h2 oid]. simpl in *.
    apply JsMap_keys_set_NoDup. apply Hnd. constructor. }
  destruct d as [d|]; [|done].
  rewrite TableData_new_load.
  destruct (loadData_frame
              (TableData_new getDefaultForType h tableId None colTypes).1
              (TableData_new getDefaultForType h tableId None colTypes).2 d)
    as (_ & _ & _ & Hc & _).
  unfold getColIds in *. by rewrite Hc.
Qed.

Lemma TableData_new_named h tableId d colTypes :
  colTypes !! "id" = None ->
  names_ok (TableData_new getDefaultForType h tableId d colTypes).1
    (TableData_new getDefaultForType h tableId d colTypes).2.
Proof.
  intros Hid.
  destruct (TableData_new getDefaultForType h tableId None colTypes)
    as [h' t'] eqn:Hnew.
  destruct (TableData_new_empty _ h tableId colTypes h' t' Hid Hnew)
    as ([_ _ Hcols _] & _).
  assert (Hn : names_ok h' t').
  { intros o cd Ho Hobj. destruct (Hcols o Ho) as (cd' & Hcd' & Hg & _).
    congruence. }
  destruct d as [d|]; [|by rewrite Hnew].
  rewrite TableData_new_load, Hnew. cbn [fst snd].
  destruct (loadData_frame h' t' d) as (_ & Ho & _ & Hc & Ha & _).
  by eapply names_ok_frame.
Qed.

(** The [id] column of a new table. *)
Lemma TableData_new_id_column h tableId colTypes :
  let st := TableData_new getDefaultForType h tableId None colTypes in
  column st.1 st.2 "id" =
    Some (mkColData "id" "Id" (VNum 0) (_rowIdCol st.2)).
Proof.
  unfold TableData_new.
  destruct (alloc h []) as [h0 r] eqn:Ha.
  assert (Hr : forall l st,
    _rowIdCol (foldl (new_column getDefaultForType) st l).2 = _rowIdCol st.2).
  { induction l as [|c l IH]; intros st; simpl; [done|].
    rewrite IH. by destruct (new_column_fields st c) as (_ & -> & _). }
  specialize (Hr (map_to_list colTypes)
                (h0, mkTableData tableId false None [] [] r ∅)).
  destruct (foldl (new_column getDefaultForType) _ _) as [h1 t1].
  simpl in Hr. unfold alloc_obj. cbn [fst snd]. unfold column. simpl.
  rewrite JsMap_get_set_eq. simpl.
  rewrite lookup_app_r by done. rewrite Nat.sub_diag. simpl. by rewrite Hr.
Qed.

End constructor_more.

(** ** The schema actions *)

(** A table over the same storage with another lookup: the [id] entry is
    kept, and the lookup holds the [id] column and the new [_colArray], all
    of them columns of the old lookup. *)
Lemma table_ok_columns h t t' :
  table_ok h t ->
  _rowIdCol t' = _rowIdCol t -> _rowMap t' = _rowMap t ->
  JsMap.get (_columns t') "id" = JsMap.get (_columns t) "id" ->
  (forall oid, JsMap.get (_columns t) "id" = Some oid ->
     JsMap.values (_columns t') ≡ₚ oid :: _colArray t') ->
  JsMap.values (_columns t') ⊆ JsMap.values (_columns t) ->
  NoDup (JsMap.values (_columns t')) ->
  table_ok h t'.
Proof.
  intros (Hwf & Hlen & Hidx) Hr Hm Hid Hp Hsub Hnd.
  destruct (wf_id _ _ Hwf) as (oid & Hg & Hv & _).
  split; [|split].
  - split.
    + rewrite Hr. apply (wf_rowIdCol _ _ Hwf).
    + exists oid. rewrite Hid, Hr. split; [done|]. split; [done|].
      by apply Hp.
    + intros o Ho. apply (wf_valid _ _ Hwf). by apply Hsub.
    + apply NoDup_fmap_2_strong; [|done].
      intros x y Hx Hy Heq.
      eapply NoDup_fmap_eq; [apply (wf_sep _ _ Hwf)| | |done]; by apply Hsub.
  - intros o cd Ho Hcd. rewrite Hr. apply (Hlen o cd); [by apply Hsub|done].
  - unfold idx_ok. by rewrite Hr, Hm.
Qed.

(** Rewriting a column object without touching its array. *)
Lemma values_of_write_obj h o cd cd' o' :
  objs h !! o = Some cd -> values cd' = values cd ->
  values_of (write_obj h o cd') o' = values_of h o'.
Proof.
  intros Hcd Hv. unfold values_of, write_obj. simpl.
  destruct (decide (o = o')) as [<-|Hne].
  - rewrite list_lookup_insert_eq by (by eapply lookup_lt_Some).
    rewrite Hcd. simpl. by rewrite Hv.
  - by rewrite list_lookup_insert_ne.
Qed.

Lemma table_ok_write_obj h t o cd cd' :
  table_ok h t -> objs h !! o = Some cd -> values cd' = values cd ->
  table_ok (write_obj h o cd') t.
Proof.
  intros (Hwf & Hlen & Hidx) Hcd Hv.
  assert (Hobj : forall o' c', objs (write_obj h o cd') !! o' = Some c' ->
            exists c, objs h !! o' = Some c /\ values c' = values c).
  { intros o' c'. unfold write_obj. simpl.
    destruct (decide (o = o')) as [<-|Hne].
    - rewrite list_lookup_insert_eq by (by eapply lookup_lt_Some).
      intros [= <-]. by exists cd.
    - rewrite list_lookup_insert_ne by done. intros. by exists c'. }
  split; [|split].
  - destruct Hwf as [W1 (oid & W2 & W3 & W4) W5 W6]. split.
    + done.
    + exists oid. by rewrite (values_of_write_obj h o cd cd').
    + intros o' Ho'. destruct (W5 o' Ho') as (c & Hc & Hlt).
      unfold write_obj. simpl. destruct (decide (o = o')) as [<-|Hne].
      * rewrite list_lookup_insert_eq by (by eapply lookup_lt_Some).
        exists cd'. split; [done|]. rewrite Hv. congruence.
      * rewrite list_lookup_insert_ne by done. by exists c.
    + erewrite map_ext; [exact W6|]. intros o'.
      by apply (values_of_write_obj h o cd cd').
  - intros o' c' Ho' Hc'. destruct (Hobj o' c' Hc') as (c & Hc & ->).
    by apply (Hlen o' c).
  - done.
Qed.

Section schema.
Variable getDefaultForType : string -> CellValue.

(** X10.  [AddColumn] for a column id that is in the lookup changes
    nothing, whatever type it carries.  For a new id in a well-formed table
    it appends the column to the column ids, with the given type and with
    the default of that type once per resident row; the other columns and
    the arrays already on the heap are unchanged, and the table stays
    well-formed. *)
Theorem onAddColumn_spec h t cid ty :
  table_ok h t ->
  let st := onAddColumn getDefaultForType h t cid ty in
  (cid ∈ getColIds t -> st = (h, t)) /\
  (cid ∉ getColIds t ->
     table_ok st.1 st.2 /\
     getColIds st.2 = getColIds t ++ [cid] /\
     getColType st.1 st.2 cid = Some ty /\
     read st.1 <$> getColValues st.1 st.2 cid =
       Some (replicate (numRecords h t) (getDefaultForType ty)) /\
     (forall c, c ≠ cid -> column st.1 st.2 c = column h t c) /\
     (forall a, a < length (arrays h) -> read st.1 a = read h a)).
Proof.
  intros Hok st. subst st. split.
  { intros Hin. apply JsMap_has_true in Hin. unfold onAddColumn.
    by rewrite Hin. }
  intros Hni.
  assert (Hhas : JsMap.has (_columns t) cid = false).
  { destruct (JsMap.has (_columns t) cid) eqn:Hh; [|done].
    by apply JsMap_has_true in Hh. }
  set (d := getDefaultForType ty).
  set (ids := read h (_rowIdCol t)).
  set (newcd := mkColData cid ty d (length (arrays h))).
  set (h2 := {| arrays := arrays h ++ [map (fun _ => d) ids];
                objs := objs h ++ [newcd] |}).
  set (t2 := set_colArray
               (set_columns t (JsMap.set (_columns t) cid (length (objs h))))
               (_colArray t ++ [length (objs h)])).
  assert (Hst : onAddColumn getDefaultForType h t cid ty = (h2, t2)).
  { unfold onAddColumn. by rewrite Hhas. }
  rewrite Hst. cbn [fst snd].
  pose proof Hok as (Hwf & Hlen & Hidx).
  destruct (wf_id _ _ Hwf) as (oid & Hgid & Hvid & Hperm).
  assert (Hset : JsMap.set (_columns t) cid (length (objs h)) =
                 _columns t ++ [(cid, length (objs h))])
    by (by apply JsMap_set_fresh).
  assert (Hcid : cid ≠ "id").
  { intros ->. apply Hni. by eapply JsMap_get_key. }
  assert (Hold : forall o, o ∈ JsMap.values (_columns t) ->
            exists cd, objs h !! o = Some cd /\ objs h2 !! o = Some cd /\
              values cd < length (arrays h) /\
              read h2 (values cd) = read h (values cd)).
  { intros o Ho. destruct (wf_valid _ _ Hwf o Ho) as (cd & Hcd & Hv).
    exists cd. split; [done|]. split; [|split; [done|]].
    - simpl. rewrite lookup_app_l; [done|]. by eapply lookup_lt_Some.
    - unfold read. simpl. by rewrite lookup_app_l. }
  assert (Hreadold : forall a, a < length (arrays h) -> read h2 a = read h a).
  { intros a Ha. unfold read. simpl. by rewrite lookup_app_l. }
  assert (Hnewobj : objs h2 !! length (objs h) = Some newcd).
  { simpl. rewrite lookup_app_r by done. by rewrite Nat.sub_diag. }
  assert (Hnewarr : read h2 (length (arrays h)) = map (fun _ => d) ids).
  { unfold read. simpl. rewrite lookup_app_r by done.
    by rewrite Nat.sub_diag. }
  assert (Hvals : JsMap.values (_columns t2) =
                  JsMap.values (_columns t) ++ [length (objs h)]).
  { simpl. rewrite Hset. unfold JsMap.values. by rewrite fmap_app. }
  assert (Hcolnew : column h2 t2 cid = Some newcd).
  { unfold column.
    change (_columns t2)
      with (JsMap.set (_columns t) cid (length (objs h))).
    by rewrite JsMap_get_set_eq. }
  assert (Hcolold : forall c, c ≠ cid -> column h2 t2 c = column h t c).
  { intros c Hne. unfold column.
    change (_columns t2)
      with (JsMap.set (_columns t) cid (length (objs h))).
    rewrite JsMap_get_set_ne by done.
    destruct (JsMap.get (_columns t) c) as [o|] eqn:Hg; [|done].
    change (objs h2 !! o = objs h !! o).
    destruct (Hold o (JsMap_get_value _ _ _ Hg)) as (cd & -> & -> & _).
    done. }
  split; [|split; [|split; [|split; [|split]]]].
  - split; [|split].
    + split.
      * simpl. rewrite length_app. simpl.
        pose proof (wf_rowIdCol _ _ Hwf). lia.
      * exists oid. split; [|split].
        -- simpl. by rewrite JsMap_get_set_ne.
        -- destruct (Hold oid (JsMap_get_value _ _ _ Hgid))
             as (cd & Hcd & Hcd2 & _).
           change (_rowIdCol t2) with (_rowIdCol t).
           unfold values_of in *. rewrite Hcd2. by rewrite Hcd in Hvid.
        -- rewrite Hvals, Hperm. simpl. done.
      * rewrite Hvals. intros o Ho. apply elem_of_app in Ho as [Ho|Ho].
        -- destruct (Hold o Ho) as (cd & _ & Hcd & Hv & _).
           exists cd. split; [done|]. simpl. rewrite length_app. simpl. lia.
        -- apply list_elem_of_singleton in Ho as ->. exists newcd.
           split; [done|]. simpl. rewrite length_app. simpl. lia.
      * rewrite Hvals, map_app. apply NoDup_app. split; [|split].
        -- erewrite map_ext_in; [apply (wf_sep _ _ Hwf)|].
           intros o Ho. apply list_elem_of_In in Ho.
           destruct (Hold o Ho) as (cd & Hcd & Hcd2 & _).
           unfold values_of. by rewrite Hcd, Hcd2.
        -- intros x Hx Hx'. apply list_elem_of_singleton in Hx' as ->.
           apply list_elem_of_fmap in Hx as (o & Heq & Ho).
           destruct (Hold o Ho) as (cd & _ & Hcd2 & Hv & _).
           unfold values_of in Heq. rewrite Hnewobj, Hcd2 in Heq.
           simpl in Heq. injection Heq. lia.
        -- apply NoDup_singleton.
    + intros o cd. rewrite Hvals. change (_rowIdCol t2) with (_rowIdCol t).
      rewrite (Hreadold _ (wf_rowIdCol _ _ Hwf)).
      intros Ho Hcd. apply elem_of_app in Ho as [Ho|Ho].
      * destruct (Hold o Ho) as (cd' & Hcd1 & Hcd2 & Hv & Hread).
        assert (cd' = cd) as -> by congruence.
        rewrite Hread. by apply (Hlen o cd).
      * apply list_elem_of_singleton in Ho as ->.
        rewrite Hnewobj in Hcd. injection Hcd as <-. simpl.
        rewrite Hnewarr. by rewrite length_map.
    + unfold idx_ok. change (_rowIdCol t2) with (_rowIdCol t).
      change (_rowMap t2) with (_rowMap t).
      by rewrite (Hreadold _ (wf_rowIdCol _ _ Hwf)).
  - unfold getColIds. simpl. rewrite Hset. unfold JsMap.keys.
    by rewrite fmap_app.
  - unfold getColType. by rewrite Hcolnew.
  - unfold getColValues. rewrite Hcolnew. simpl. rewrite Hnewarr.
    unfold numRecords. by rewrite map_const_replicate.
  - done.
  - done.
Qed.

(** X11.  In a well-formed table, [RemoveColumn] for an id other than [id]
    leaves the heap alone, drops the id from the column ids and from the
    lookup, keeps every other column, and leaves a well-formed table; for
    an id that names no column it changes nothing. *)
Theorem onRemoveColumn_spec h t cid :
  table_ok h t -> NoDup (getColIds t) -> cid ≠ "id" ->
  let st := onRemoveColumn h t cid in
  st.1 = h /\ table_ok h st.2 /\
  getColIds st.2 = filter (fun c => c ≠ cid) (getColIds t) /\
  column h st.2 cid = None /\
  (forall c, c ≠ cid -> column h st.2 c = column h t c).
Proof.
  intros Hok Hnd Hcid st. subst st. unfold onRemoveColumn.
  destruct (JsMap.get (_columns t) cid) as [o|] eqn:Hg; cbn [fst snd].
  - pose proof Hok as (Hwf & Hlen & Hidx).
    destruct (wf_id _ _ Hwf) as (oid & Hgid & Hvid & Hperm).
    pose proof (wf_values_NoDup h t Hwf) as Hvnd.
    pose proof (JsMap_values_delete _ _ _ Hnd Hg) as Hdel.
    assert (Ho : o ∈ _colArray t).
    { pose proof (JsMap_get_value _ _ _ Hg) as Hin. rewrite Hperm in Hin.
      apply elem_of_cons in Hin as [->|?]; [|done].
      by destruct (JsMap_get_distinct _ _ _ _ _ Hvnd Hg Hgid Hcid). }
    split; [done|]. split; [|split; [|split]].
    + apply (table_ok_columns h t); try done; simpl.
      * by apply JsMap_get_delete_ne.
      * intros oid' Hoid'. assert (oid' = oid) as -> by congruence.
        apply (Permutation_cons_inv (a := o)).
        rewrite <- Hdel, Hperm, (arrayRemove_Permutation _ _ Ho) at 1.
        apply Permutation_swap.
      * intros x Hx. rewrite Hdel. by right.
      * rewrite Hdel in Hvnd. by apply NoDup_cons in Hvnd as [_ ?].
    + unfold getColIds. simpl. apply JsMap_keys_delete.
    + unfold column. simpl. by rewrite JsMap_get_delete_eq.
    + intros c Hne. unfold column. simpl.
      by rewrite JsMap_get_delete_ne.
  - split; [done|]. split; [done|]. split; [|split; [|done]].
    + unfold getColIds. rewrite <- JsMap_keys_delete.
      rewrite JsMap_delete_absent; [done|]. intros Hc.
      destruct (JsMap_get_is_Some _ _ Hc). congruence.
    + unfold column. by rewrite Hg.
Qed.

(** X12.  In a well-formed table, [RenameColumn] of a column other than
    [id] to an id that is not in use files the same array, type and default
    under the new id, with [colId] updated; the old id is gone, the new id
    comes last in the column ids, no cell changes, and the table stays
    well-formed. *)
Theorem onRenameColumn_spec h t oldColId newColId cd :
  table_ok h t -> NoDup (getColIds t) ->
  column h t oldColId = Some cd ->
  oldColId ≠ "id" -> oldColId ≠ newColId -> newColId ∉ getColIds t ->
  let st := onRenameColumn h t oldColId newColId in
  table_ok st.1 st.2 /\
  column st.1 st.2 oldColId = None /\
  column st.1 st.2 newColId =
    Some (mkColData newColId (type cd) (defl cd) (values cd)) /\
  (forall c, c ≠ oldColId -> c ≠ newColId ->
     column st.1 st.2 c = column h t c) /\
  (forall a, read st.1 a = read h a) /\
  getColIds st.2 = filter (fun c => c ≠ oldColId) (getColIds t) ++ [newColId].
Proof.
  intros Hok Hnd Hc Hold Hne Hnew st. subst st. unfold onRenameColumn.
  destruct (column_object h t oldColId cd Hc) as (o & Hg & Hin & Hobj).
  rewrite Hg, Hobj. cbn [fst snd].
  set (newcd := mkColData newColId (type cd) (defl cd) (values cd)).
  pose proof Hok as (Hwf & Hlen & Hidx).
  pose proof (wf_values_NoDup h t Hwf) as Hvnd.
  assert (Hset : JsMap.set (_columns t) newColId o =
                 _columns t ++ [(newColId, o)])
    by (by apply JsMap_set_fresh).
  assert (Hnewid : newColId ≠ "id").
  { intros ->. destruct (wf_id _ _ Hwf) as (oid & Hgid & _).
    apply Hnew. by eapply JsMap_get_key. }
  assert (Hkeys : NoDup (JsMap.keys (_columns t ++ [(newColId, o)]))).
  { rewrite <- Hset. by apply JsMap_keys_set_NoDup. }
  assert (Hgold : JsMap.get (_columns t ++ [(newColId, o)]) oldColId = Some o).
  { rewrite JsMap_get_app_l; [done|]. by eapply JsMap_get_key. }
  pose proof (JsMap_values_delete _ _ _ Hkeys Hgold) as Hdel.
  assert (Hperm : JsMap.values
                    (JsMap.delete (_columns t ++ [(newColId, o)]) oldColId)
                  ≡ₚ JsMap.values (_columns t)).
  { apply (Permutation_cons_inv (a := o)). rewrite <- Hdel.
    unfold JsMap.values. rewrite fmap_app. simpl.
    by rewrite Permutation_app_comm. }
  assert (Hok1 : table_ok (write_obj h o newcd) t)
    by (by apply (table_ok_write_obj h t o cd)).
  assert (Hobjs : forall o', o' ≠ o ->
            objs (write_obj h o newcd) !! o' = objs h !! o').
  { intros o' Hne'. unfold write_obj. simpl.
    by rewrite list_lookup_insert_ne. }
  split; [|split; [|split; [|split; [|split]]]].
  - apply (table_ok_columns _ t); try done; simpl; rewrite Hset.
    + rewrite JsMap_get_delete_ne by done.
      apply JsMap_get_app_l.
      destruct (wf_id _ _ Hwf) as (oid & Hgid & _). by eapply JsMap_get_key.
    + intros oid Hgid. rewrite Hperm.
      destruct (wf_id _ _ Hwf) as (oid' & Hgid' & _ & Hp). congruence.
    + intros x. by rewrite Hperm.
    + by rewrite Hperm.
  - unfold column. simpl. by rewrite JsMap_get_delete_eq.
  - unfold column. simpl. rewrite JsMap_get_delete_ne by done.
    rewrite JsMap_get_set_eq. simpl.
    by rewrite list_lookup_insert_eq by (by eapply lookup_lt_Some).
  - intros c Hc1 Hc2. unfold column. simpl.
    rewrite JsMap_get_delete_ne by done.
    rewrite JsMap_get_set_ne by done.
    destruct (JsMap.get (_columns t) c) as [o'|] eqn:Hg'; [|done]. simpl.
    apply list_lookup_insert_ne.
    intros <-. by destruct (JsMap_get_distinct _ _ _ _ _ Hvnd Hg Hg').
  - done.
  - unfold getColIds. simpl. rewrite Hset, JsMap_keys_delete.
    unfold JsMap.keys. rewrite fmap_app, filter_app. simpl.
    by rewrite filter_cons_True, filter_nil by done.
Qed.

(** X13.  Renaming a column to the id it has: [set(newColId, colData)] is
    followed by [delete(oldColId)], which removes the entry again.  The id
    is then in neither the lookup nor the column ids, while [_colArray]
    still holds the column and no array changes. *)
Theorem onRenameColumn_same_id h t c :
  let st := onRenameColumn h t c c in
  column st.1 st.2 c = None /\ (c ∉ getColIds st.2) /\
  _colArray st.2 = _colArray t /\ (forall a, read st.1 a = read h a).
Proof.
  cbv zeta. unfold onRenameColumn.
  destruct (JsMap.get (_columns t) c) as [o|] eqn:Hg; cbn [fst snd].
  - split; [|split; [|split]].
    + unfold column. simpl. by rewrite JsMap_get_delete_eq.
    + unfold getColIds. simpl. rewrite JsMap_keys_delete.
      intros Hin. by apply list_elem_of_filter in Hin as [? _].
    + done.
    + intros a. by destruct (objs h !! o).
  - split; [|split; [|done]].
    + unfold column. by rewrite Hg.
    + intros Hin. destruct (JsMap_get_is_Some _ _ Hin). congruence.
Qed.

(** X14.  In a well-formed table, [ModifyColumn] with a type replaces the
    type and the default of the column and nothing else: no cell of any
    column changes, the other columns keep their type, and the table stays
    well-formed.  Without a [type] property the action changes nothing. *)
Theorem onModifyColumn_spec h t cid ty cd :
  table_ok h t -> column h t cid = Some cd ->
  let st := onModifyColumn getDefaultForType h t cid (Some ty) in
  st.2 = t /\ table_ok st.1 t /\
  column st.1 t cid =
    Some (mkColData (colId cd) ty (getDefaultForType ty) (values cd)) /\
  (forall c, c ≠ cid -> column st.1 t c = column h t c) /\
  (forall a, read st.1 a = read h a) /\
  onModifyColumn getDefaultForType h t cid None = (h, t).
Proof.
  intros Hok Hc st. subst st. unfold onModifyColumn.
  destruct (column_object h t cid cd Hc) as (o & Hg & Hin & Hobj).
  rewrite Hg, Hobj. cbn [fst snd].
  pose proof Hok as (Hwf & _).
  split; [done|]. split; [|split; [|split; [|done]]].
  - by apply (table_ok_write_obj h t o cd).
  - unfold column. rewrite Hg. simpl.
    by rewrite list_lookup_insert_eq by (by eapply lookup_lt_Some).
  - intros c Hne. unfold column.
    destruct (JsMap.get (_columns t) c) as [o'|] eqn:Hg'; [|done]. simpl.
    apply list_lookup_insert_ne. intros <-.
    by destruct (JsMap_get_distinct _ _ _ _ _ (wf_values_NoDup h t Hwf)
                   Hg Hg').
Qed.

(** ** What the constructor declares *)

(** X15.  The constructor without a snapshot, on column types that do not
    declare [id], gives a well-formed table that is not loaded and has no
    row: its columns are [id], of type [Id], and the declared ones with
    their declared types, each with an empty array and the default of its
    type; the arrays that were on the heap are unchanged. *)
Theorem TableData_new_columns h tableId colTypes :
  colTypes !! "id" = None ->
  let st := TableData_new getDefaultForType h tableId None colTypes in
  isLoaded st.2 = false /\ numRecords st.1 st.2 = 0 /\
  (forall c, getColType st.1 st.2 c =
             if decide (c = "id") then Some "Id" else colTypes !! c) /\
  (forall c cd, column st.1 st.2 c = Some cd ->
     read st.1 (values cd) = [] /\
     (c ≠ "id" -> colId cd = c /\ defl cd = getDefaultForType (type cd))) /\
  (forall a, a < length (arrays h) -> read st.1 a = read h a) /\
  table_ok st.1 st.2.
Proof.
  intros Hid st.
  pose proof (TableData_new_id_column getDefaultForType h tableId colTypes)
    as Hidcol.
  pose proof (TableData_new_named getDefaultForType h tableId None colTypes
                Hid) as Hnamed.
  fold st in Hidcol, Hnamed. cbv zeta in Hidcol.
  destruct st as [h' t'] eqn:Hnew. unfold st in Hnew. cbn [fst snd] in *.
  destruct (TableData_new_empty _ h tableId colTypes h' t' Hid Hnew)
    as (Hcon & Hlen & Hidx & Hempty & Hold & Hload & _).
  pose proof (c_wf _ _ _ _ _ Hcon) as Hwf.
  assert (Hok : table_ok h' t') by done.
  split; [done|]. split; [by unfold numRecords; rewrite Hempty|].
  split; [|split; [|done]].
  - intros c. unfold getColType. destruct (decide (c = "id")) as [->|Hne].
    { by rewrite Hidcol. }
    destruct (colTypes !! c) as [ty|] eqn:Hty.
    + destruct (constructed_column _ _ _ _ _ c Hcon Hne) as
        (o & cd & Hg & Ho & Hobj & Hcid); [by eexists|].
      unfold column. rewrite Hg. simpl. rewrite Hobj. simpl.
      destruct (c_cols _ _ _ _ _ Hcon o Ho) as (cd' & Hcd' & _ & Hct & _).
      assert (cd' = cd) as -> by congruence. congruence.
    + rewrite column_None; [done|]. unfold getColIds. intros Hin.
      apply (c_keys _ _ _ _ _ Hcon) in Hin as [?|[ty Hs]]; [done|].
      congruence.
  - intros c cd Hc. split.
    + apply length_zero_iff_nil.
      rewrite (column_length h' t' c cd Hok Hc). by rewrite Hempty.
    + intros Hne.
      destruct (named_column h' t' c cd Hwf Hnamed Hne Hc)
        as (o & Ho & Hobj & Hcid).
      split; [done|].
      destruct (c_cols _ _ _ _ _ Hcon o Ho) as (cd' & Hcd' & _ & _ & Hd).
      congruence.
Qed.

End schema.

(** ** [getDistinctValues] *)

Lemma set_add_spec distinct v :
  NoDup distinct ->
  NoDup (set_add distinct v) /\
  (forall x, x ∈ set_add distinct v <-> x ∈ distinct \/ x = v) /\
  length distinct <= length (set_add distinct v) <= S (length distinct).
Proof.
  intros Hnd. unfold set_add. destruct (decide (v ∈ distinct)) as [Hin|Hni].
  - split; [done|]. split; [|lia]. intros x. split; [by left|].
    by intros [?| ->].
  - split; [|split].
    + apply NoDup_app. split; [done|]. split; [|apply NoDup_singleton].
      intros x Hx Hx'. apply list_elem_of_singleton in Hx' as ->. done.
    + intros x. by rewrite elem_of_app, list_elem_of_singleton.
    + rewrite length_app. simpl. lia.
Qed.

Lemma distinct_loop_spec valColumn count distinct :
  NoDup distinct ->
  let s := distinct_loop valColumn count distinct in
  NoDup s /\
  (forall x, x ∈ s -> x ∈ distinct \/ x ∈ valColumn) /\
  (forall x, x ∈ distinct -> x ∈ s) /\
  (forall c, count = Some c ->
     (Z.of_nat (length s) <= Z.max (Z.of_nat (length distinct)) c)%Z) /\
  (size_below s count = true -> forall x, x ∈ valColumn -> x ∈ s) /\
  exists n, s = foldl set_add distinct (take n valColumn).
Proof.
  revert distinct. induction valColumn as [|v rest IH]; intros distinct Hnd;
    cbv zeta; simpl.
  { split; [done|]. split; [by left|]. split; [done|]. split; [lia|].
    split; [|by exists 0]. intros _ x Hx. by apply elem_of_nil in Hx. }
  destruct (size_below distinct count) eqn:Hb.
  - destruct (set_add_spec distinct v Hnd) as (Hnd' & Hin' & Hlen').
    destruct (IH (set_add distinct v) Hnd')
      as (H1 & H2 & H3 & H4 & H5 & (n & H6)).
    split; [done|]. split; [|split; [|split; [|split]]].
    + intros x Hx. destruct (H2 x Hx) as [Hx'|Hx'].
      * apply Hin' in Hx' as [?| ->]; [by left|right; left].
      * right. by right.
    + intros x Hx. apply H3, Hin'. by left.
    + intros c ->. specialize (H4 c eq_refl). simpl in Hb.
      apply Z.ltb_lt in Hb. lia.
    + intros Hs x Hx. apply elem_of_cons in Hx as [->|Hx].
      * apply H3, Hin'. by right.
      * by apply H5.
    + exists (S n). by rewrite H6.
  - split; [done|]. split; [by left|]. split; [done|]. split; [|split].
    + intros c _. lia.
    + by rewrite Hb.
    + by exists 0.
Qed.

(** X16.  [getDistinctValues] answers [undefined] exactly for an absent
    column.  Otherwise the set it returns holds values of the column only,
    it has at most [count] elements, it holds every value of the column
    unless the limit was reached, and it is what adding the first [n] cells
    of the column, in storage order, gives for some [n]. *)
Theorem getDistinctValues_spec h t cid count :
  match getColValues h t cid with
  | None => getDistinctValues h t cid count = None
  | Some valColumn =>
      exists s, getDistinctValues h t cid count = Some s /\
        NoDup s /\
        (forall x, x ∈ s -> x ∈ read h valColumn) /\
        (forall c, count = Some c ->
           (Z.of_nat (length s) <= Z.max 0 c)%Z) /\
        (size_below s count = true ->
           forall x, x ∈ read h valColumn -> x ∈ s) /\
        exists n, s = foldl set_add [] (take n (read h valColumn))
  end.
Proof.
  unfold getDistinctValues. destruct (getColValues h t cid) as [a|]; [|done].
  destruct (distinct_loop_spec (read h a) count [] NoDup_nil_2)
    as (H1 & H2 & _ & H4 & H5 & H6).
  eexists. split; [done|]. split; [done|]. split; [|done].
  intros x Hx. destruct (H2 x Hx) as [Hx'|]; [|done].
  by apply elem_of_nil in Hx'.
Qed.

(** ** Bulk actions and single actions *)

(** The values that a bulk action carries for its [i]-th row: the [i]-th
    element of every value array. *)
Definition row_values (colValues : gmap string (list CellValue)) (i : nat)
    : gmap string CellValue :=
  (fun vals => arr_get vals (Z.of_nat i)) <$> colValues.

(** [onAddRecord] for every row of a bulk action in turn, from the [i]-th
    row on. *)
Fixpoint add_each (rowIds : list Z) (colValues : gmap string (list CellValue))
    (i : nat) (st : Heap * TableData) : Heap * TableData :=
  match rowIds with
  | [] => st
  | r :: rest =>
      add_each rest colValues (S i)
        (onAddRecord st.1 st.2 r (row_values colValues i))
  end.

(** [onUpdateRecord] for every row of a bulk action in turn. *)
Fixpoint update_each (rowIds : list Z)
    (colValues : gmap string (list CellValue)) (i : nat)
    (st : Heap * TableData) : Heap * TableData :=
  match rowIds with
  | [] => st
  | r :: rest =>
      update_each rest colValues (S i)
        (onUpdateRecord st.1 st.2 r (row_values colValues i))
  end.

(** The index after the row ids were appended from position [pos] on. *)
Fixpoint index_from (pos : nat) (rowIds : list Z) (m : gmap CellValue nat)
    : gmap CellValue nat :=
  match rowIds with
  | [] => m
  | r :: rest => index_from (S pos) rest (<[VNum r := pos]> m)
  end.

(** The cell that an added row gets in a column. *)
Definition new_cell (colValues : gmap string (list CellValue)) (cd : ColData)
    (i : nat) : CellValue :=
  match colValues !! colId cd with
  | Some vals => arr_get vals (Z.of_nat i)
  | None => defl cd
  end.

(** An array that belongs to no column of the table. *)
Definition unowned (h : Heap) (t : TableData) (a : aref) : Prop :=
  a ≠ _rowIdCol t /\ forall o, o ∈ _colArray t -> values_of h o ≠ Some a.

(** What appending the rows [rowIds] leaves: the state [st] reached from
    [(h, t)]. *)
Record appended (h : Heap) (t : TableData) (rowIds : list Z)
    (colValues : gmap string (list CellValue)) (i : nat)
    (st : Heap * TableData) : Prop := {
  ap_objs : objs st.1 = objs h;
  ap_length : length (arrays st.1) = length (arrays h);
  ap_table : st.2 =
    set_rowMap t
      (index_from (length (read h (_rowIdCol t))) rowIds (_rowMap t));
  ap_rowIds : read st.1 (_rowIdCol t) = read h (_rowIdCol t) ++ map VNum rowIds;
  ap_column : forall o cd, o ∈ _colArray t -> objs h !! o = Some cd ->
    read st.1 (values cd) =
    read h (values cd) ++ map (new_cell colValues cd) (seq i (length rowIds));
  ap_other : forall a, unowned h t a -> read st.1 a = read h a;
}.

Lemma onAddRecord_other h t rowId colValues a :
  table_wf h t -> unowned h t a ->
  read (onAddRecord h t rowId colValues).1 a = read h a.
Proof.
  intros Hwf [Hr Hno]. unfold onAddRecord. cbn [fst snd].
  rewrite add_cell_upd.
  destruct (decide (a < length (arrays h))) as [Hlt|Hge].
  - rewrite (loop_frame _ (upd_col_step _)).
    + unfold arr_store. by apply read_write_ne.
    + unfold arr_store. by rewrite length_arrays_write.
    + intros o Ho. rewrite (values_of_objs _ h) by done. by apply Hno.
  - rewrite !read_invalid; [done|lia|].
    rewrite upd_col_arrays_length. unfold arr_store.
    rewrite length_arrays_write. lia.
Qed.

Lemma onAddRecord_wf_len h t rowId colValues :
  table_wf h t -> len_ok h t ->
  table_wf (onAddRecord h t rowId colValues).1
    (onAddRecord h t rowId colValues).2 /\
  len_ok (onAddRecord h t rowId colValues).1
    (onAddRecord h t rowId colValues).2.
Proof.
  intros Hwf Hlen.
  destruct (onAddRecord_frame h t rowId colValues)
    as (Ho & Hl & Hc & Ha & Hr & _ & Hm).
  pose proof (onAddRecord_rowIds h t rowId colValues Hwf) as Hids.
  split.
  - eapply table_wf_heap; [exact Ho|lia|done..].
  - intros o cd. rewrite Hc, Ho, Hr, Hids. intros Hin Hcd.
    destruct (wf_columns_cases h t Hwf o cd Hin Hcd) as [Heq|[Hin' _]].
    + by rewrite Heq, Hids.
    + rewrite (onAddRecord_column h t rowId colValues o cd) by done.
      rewrite !length_app. simpl. by rewrite (Hlen o cd Hin Hcd).
Qed.

Lemma new_cell_row_values colValues cd i :
  default (defl cd) (row_values colValues i !! colId cd) =
  new_cell colValues cd i.
Proof.
  unfold row_values, new_cell. rewrite lookup_fmap.
  by destruct (colValues !! colId cd).
Qed.

Lemma add_each_appended rowIds colValues i h t :
  table_wf h t -> len_ok h t ->
  appended h t rowIds colValues i (add_each rowIds colValues i (h, t)).
Proof.
  revert i h t. induction rowIds as [|r rest IH]; intros i h t Hwf Hlen.
  { simpl. split; simpl; try done.
    - by destruct t.
    - by rewrite app_nil_r.
    - intros. by rewrite app_nil_r. }
  cbn [add_each fst snd].
  destruct (onAddRecord_frame h t r (row_values colValues i))
    as (Ho & Hl & Hc & Ha & Hr & _ & Hm).
  pose proof (onAddRecord_rowIds h t r (row_values colValues i) Hwf) as Hids.
  destruct (onAddRecord_wf_len h t r (row_values colValues i) Hwf Hlen)
    as [Hwf1 Hlen1].
  pose proof (fun o cd =>
    onAddRecord_column h t r (row_values colValues i) o cd Hwf Hlen) as Hcol.
  pose proof (fun a =>
    onAddRecord_other h t r (row_values colValues i) a Hwf) as Hoth.
  assert (Ht1 : (onAddRecord h t r (row_values colValues i)).2 =
                set_rowMap t (<[VNum r := length (read h (_rowIdCol t))]>
                                (_rowMap t))) by done.
  destruct (onAddRecord h t r (row_values colValues i)) as [h1 t1].
  cbn [fst snd] in *. subst t1.
  destruct (IH (S i) h1 _ Hwf1 Hlen1) as [A1 A2 A3 A4 A5 A6].
  cbn [_rowIdCol _colArray _rowMap set_rowMap] in *.
  split; cbn [fst snd].
  - congruence.
  - congruence.
  - rewrite A3. rewrite Hids, length_app. simpl.
    by rewrite Nat.add_1_r.
  - rewrite A4, Hids. by rewrite <- app_assoc.
  - intros o cd Hin Hcd. rewrite (A5 o cd Hin) by (by rewrite Ho).
    rewrite (Hcol o cd Hin Hcd), new_cell_row_values.
    by rewrite <- app_assoc.
  - intros a Hun. rewrite A6, Hoth; [done|done|].
    destruct Hun as [? Hno]. split; [done|]. intros o Hin.
    rewrite (values_of_objs _ h) by done. by apply Hno.
Qed.

Lemma bulk_add_ids_table index rowIds i h t :
  (bulk_add_ids index rowIds i (h, t)).2 =
  set_rowMap t (index_from (index + i) rowIds (_rowMap t)).
Proof.
  revert i h t. induction rowIds as [|r rest IH]; intros i h t; simpl.
  { by destruct t. }
  rewrite IH. simpl. by rewrite Nat.add_succ_r.
Qed.

Lemma bulk_cells_app cd colValues index n i l :
  length l = index + i ->
  bulk_cells cd colValues index n i l =
  l ++ map (new_cell colValues cd) (seq i n).
Proof.
  revert i l. induction n as [|n IH]; intros i l Hl; simpl.
  { by rewrite app_nil_r. }
  rewrite IH.
  - rewrite <- Hl, arr_set_append, <- app_assoc. done.
  - rewrite <- Hl, arr_set_append, length_app. simpl. lia.
Qed.

Lemma onBulkAddRecord_appended rowIds colValues h t :
  table_wf h t -> len_ok h t ->
  appended h t rowIds colValues 0 (onBulkAddRecord h t rowIds colValues).
Proof.
  intros Hwf Hlen. unfold onBulkAddRecord.
  set (index := length (read h (_rowIdCol t))).
  destruct (bulk_add_ids_spec index rowIds 0 h t)
    as (H1 & H2 & H3 & H4 & H5 & H6 & H7 & H8 & _).
  { apply (wf_rowIdCol _ _ Hwf). }
  { unfold index. lia. }
  pose proof (bulk_add_ids_table index rowIds 0 h t) as Ht1.
  destruct (bulk_add_ids index rowIds 0 (h, t)) as [h1 t1] eqn:Hst.
  cbn [fst snd] in *.
  assert (Hwf1 : table_wf h1 t1).
  { eapply table_wf_heap; [exact H1|lia|done..]. }
  set (g := fun cd l => bulk_cells cd colValues index (length rowIds) 0 l).
  rewrite (foldl_pointwise _ (upd_col g))
    by (intros; apply bulk_add_column_upd).
  split; cbn [fst snd].
  - rewrite (loop_objs _ (upd_col_step g)). done.
  - rewrite upd_col_arrays_length. done.
  - rewrite Ht1. by rewrite Nat.add_0_r.
  - rewrite (loop_frame _ (upd_col_step g)).
    + done.
    + rewrite H2. apply (wf_rowIdCol _ _ Hwf).
    + intros o Ho. rewrite <- H5. by apply wf_colArray_not_id.
  - intros o cd Hin Hcd.
    pose proof (wf_colArray_in h t Hwf o Hin) as Hin'.
    destruct (wf_valid _ _ Hwf o Hin') as (cd' & Hcd' & Hv).
    assert (cd' = cd) as -> by congruence.
    rewrite (upd_col_loop_hit g _ _ o cd);
      [|by apply wf_colArray_sep|by rewrite H4|by rewrite H1|by rewrite H2].
    assert (Hne : values cd ≠ _rowIdCol t).
    { intros Heq. apply (wf_colArray_not_id h t Hwf o Hin).
      unfold values_of. rewrite Hcd. simpl. by rewrite Heq. }
    rewrite H8 by done. unfold g. apply bulk_cells_app.
    rewrite Nat.add_0_r. by apply (Hlen o cd).
  - intros a [Hr Hno].
    destruct (decide (a < length (arrays h))) as [Hlt|Hge].
    + rewrite (loop_frame _ (upd_col_step g)).
      * by apply H8.
      * by rewrite H2.
      * intros o Ho. rewrite (values_of_objs _ h) by done.
        apply Hno. by rewrite <- H4.
    + rewrite !read_invalid; [done|lia|].
      rewrite upd_col_arrays_length. lia.
Qed.

(** Two states with the same contents. *)
Lemma appended_eq h t rowIds colValues i st1 st2 :
  table_wf h t ->
  appended h t rowIds colValues i st1 ->
  appended h t rowIds colValues i st2 -> st1 = st2.
Proof.
  intros Hwf [A1 A2 A3 A4 A5 A6] [B1 B2 B3 B4 B5 B6].
  destruct st1 as [h1 t1], st2 as [h2 t2]. cbn [fst snd] in *.
  f_equal; [|congruence].
  assert (Hread : forall a, read h1 a = read h2 a).
  { intros a. destruct (decide (a = _rowIdCol t)) as [->|Hne].
    { congruence. }
    destruct (decide (Some a ∈ map (values_of h) (_colArray t)))
      as [Hin|Hni].
    - apply list_elem_of_fmap in Hin as (o & Hva & Hin).
      pose proof (wf_colArray_in h t Hwf o Hin) as Hin'.
      destruct (wf_valid _ _ Hwf o Hin') as (cd & Hcd & _).
      unfold values_of in Hva. rewrite Hcd in Hva. injection Hva as ->.
      rewrite (A5 o cd), (B5 o cd); done.
    - rewrite A6, B6; [done|split..]; try done.
      + intros o Ho Heq. apply Hni. rewrite <- Heq.
        by apply list_elem_of_fmap_2.
      + intros o Ho Heq. apply Hni. rewrite <- Heq.
        by apply list_elem_of_fmap_2. }
  destruct h1 as [ar1 ob1], h2 as [ar2 ob2]. simpl in *. f_equal; [|congruence].
  apply list_eq. intros a. specialize (Hread a). unfold read in Hread.
  simpl in Hread.
  destruct (ar1 !! a) as [l1|] eqn:E1, (ar2 !! a) as [l2|] eqn:E2; simpl in *.
  - by rewrite Hread.
  - apply lookup_lt_Some in E1. apply lookup_ge_None in E2. lia.
  - apply lookup_lt_Some in E2. apply lookup_ge_None in E1. lia.
  - done.
Qed.

(** X17.  In a table whose columns all have one cell per row,
    [BulkAddRecord] leaves the state that [AddRecord] leaves when it is
    applied to the rows one after the other, each with the values at its
    position in the arrays of the bulk action. *)
Theorem onBulkAddRecord_add_each h t rowIds colValues :
  table_wf h t -> len_ok h t ->
  onBulkAddRecord h t rowIds colValues = add_each rowIds colValues 0 (h, t).
Proof.
  intros Hwf Hlen. apply (appended_eq h t rowIds colValues 0); [done| |].
  - by apply onBulkAddRecord_appended.
  - by apply add_each_appended.
Qed.

Lemma heap_eq (h1 h2 : Heap) :
  objs h1 = objs h2 -> length (arrays h1) = length (arrays h2) ->
  (forall a, read h1 a = read h2 a) -> h1 = h2.
Proof.
  intros Ho Hl Hread. destruct h1 as [ar1 ob1], h2 as [ar2 ob2]. simpl in *.
  f_equal; [|done]. apply list_eq. intros a. specialize (Hread a).
  unfold read in Hread. simpl in Hread.
  destruct (ar1 !! a) as [l1|] eqn:E1, (ar2 !! a) as [l2|] eqn:E2; simpl in *.
  - by rewrite Hread.
  - apply lookup_lt_Some in E1. apply lookup_ge_None in E2. lia.
  - apply lookup_lt_Some in E2. apply lookup_ge_None in E1. lia.
  - done.
Qed.

Lemma update_cells_frame {A} (sel : A -> CellValue) t index
    (l : list (string * A)) h :
  objs (foldl (fun h p => update_cell t index h p.1 (sel p.2)) h l) = objs h /\
  length (arrays (foldl (fun h p => update_cell t index h p.1 (sel p.2)) h l))
    = length (arrays h).
Proof.
  revert h. induction l as [|p l IH]; intros h; simpl; [done|].
  destruct (IH (update_cell t index h p.1 (sel p.2))) as [-> ->].
  unfold update_cell. destruct (column h t p.1); [|done].
  unfold arr_store. by rewrite length_arrays_write.
Qed.

Lemma update_cells_other {A} (sel : A -> CellValue) h0 t index
    (l : list (string * A)) h a :
  objs h = objs h0 ->
  (forall c cd, column h0 t c = Some cd -> values cd ≠ a) ->
  read (foldl (fun h p => update_cell t index h p.1 (sel p.2)) h l) a =
  read h a.
Proof.
  intros Ho Hno. revert h Ho. induction l as [|p l IH]; intros h Ho; simpl;
    [done|].
  rewrite IH.
  - unfold update_cell. rewrite (column_frame h0 h t t p.1 Ho eq_refl).
    destruct (column h0 t p.1) as [cd|] eqn:Hc; [|done].
    unfold arr_store. apply read_write_ne. by apply (Hno p.1).
  - rewrite <- Ho. unfold update_cell. by destruct (column h t p.1).
Qed.

(** Two loops over keys that store the same value under every key leave the
    same heap. *)
Lemma update_cells_eq {A B} (sel1 : A -> CellValue) (sel2 : B -> CellValue)
    h0 t index (l1 : list (string * A)) (l2 : list (string * B)) h :
  table_wf h0 t -> objs h = objs h0 ->
  length (arrays h) = length (arrays h0) ->
  NoDup l1.*1 -> NoDup l2.*1 ->
  (forall c, sel1 <$> JsMap.get l1 c = sel2 <$> JsMap.get l2 c) ->
  foldl (fun h p => update_cell t index h p.1 (sel1 p.2)) h l1 =
  foldl (fun h p => update_cell t index h p.1 (sel2 p.2)) h l2.
Proof.
  intros Hwf Ho Hl Hnd1 Hnd2 Hsel.
  destruct (update_cells_frame sel1 t index l1 h) as [Ho1 Hl1].
  destruct (update_cells_frame sel2 t index l2 h) as [Ho2 Hl2].
  apply heap_eq; [congruence|congruence|]. intros a.
  destruct (decide (Some a ∈ map (fun k => values <$> column h0 t k)
                              (JsMap.keys (_columns t)))) as [Hin|Hni].
  - apply list_elem_of_fmap in Hin as (c & Hva & _).
    destruct (column h0 t c) as [cd|] eqn:Hc; [|done].
    injection Hva as ->.
    rewrite (update_cells_read sel1 h0 t index l1 h c cd) by done.
    rewrite (update_cells_read sel2 h0 t index l2 h c cd) by done.
    specialize (Hsel c).
    destruct (JsMap.get l1 c), (JsMap.get l2 c); simpl in Hsel; try done.
    by injection Hsel as ->.
  - assert (Hno : forall c cd, column h0 t c = Some cd -> values cd ≠ a).
    { intros c cd Hc <-. apply Hni. apply list_elem_of_fmap. exists c.
      rewrite Hc. split; [done|].
      destruct (column_object h0 t c cd Hc) as (o & Hg & _).
      by eapply JsMap_get_key. }
    by rewrite !(update_cells_other _ h0).
Qed.

Lemma bulk_update_rows_update_each h0 t rowIds colValues i h :
  table_wf h0 t -> objs h = objs h0 ->
  length (arrays h) = length (arrays h0) ->
  (bulk_update_rows t rowIds colValues i h, t) =
  update_each rowIds colValues i (h, t).
Proof.
  intros Hwf. revert i h. induction rowIds as [|r rest IH]; intros i h Ho Hl;
    [done|].
  cbn [bulk_update_rows update_each fst snd]. unfold onUpdateRecord.
  destruct (_rowMap t !! VNum r) as [index|] eqn:Hm.
  - rewrite (update_cells_eq (fun vals => arr_get vals (Z.of_nat i))
               (fun v => v) h0 t index
               (map_to_list colValues)
               (map_to_list (row_values colValues i)) h);
      [|done|done|done|apply NoDup_fst_map_to_list
       |apply NoDup_fst_map_to_list|].
    + destruct (update_cells_frame (fun v : CellValue => v) t index
                  (map_to_list (row_values colValues i)) h) as [Ho1 Hl1].
      apply IH; congruence.
    + intros c. rewrite !JsMap_get_map_to_list. unfold row_values.
      rewrite lookup_fmap. by destruct (colValues !! c).
  - by apply IH.
Qed.

(** X18.  [BulkUpdateRecord] leaves the state that [UpdateRecord] leaves
    when it is applied to the rows one after the other, each with the values
    at its position in the arrays of the bulk action. *)
Theorem onBulkUpdateRecord_update_each h t rowIds colValues :
  table_wf h t ->
  onBulkUpdateRecord h t rowIds colValues =
  update_each rowIds colValues 0 (h, t).
Proof.
  intros Hwf. unfold onBulkUpdateRecord.
  by apply (bulk_update_rows_update_each h).
Qed.

(** ** The example table *)

Lemma example_table_named : names_ok example_table.1 example_table.2.
Proof.
  exact (TableData_new_named example_default example_heap "T"
           (Some example_snapshot) example_colTypes eq_refl).
Qed.

Lemma example_table_keys : NoDup (getColIds example_table.2).
Proof.
  exact (TableData_new_keys_NoDup example_default example_heap "T"
           (Some example_snapshot) example_colTypes).
Qed.

Lemma example_table_fresh : VNum 3 ∉ read example_table.1 (_rowIdCol example_table.2).
Proof.
  replace (read example_table.1 (_rowIdCol example_table.2))
    with [VNum 1; VNum 2] by (vm_compute; reflexivity).
  repeat (apply not_elem_of_cons; split; [discriminate|]).
  apply not_elem_of_nil.
Qed.

Lemma onAddRecord_getValue_witness :
  let st := onAddRecord example_table.1 example_table.2 3
              {[ "name" := VStr "c" ]} in
  numRecords st.1 st.2 = S (numRecords example_table.1 example_table.2) /\
  getValue st.1 st.2 3 "id" = Some (VNum 3) /\
  getValue st.1 st.2 3 "name" = Some (VStr "c") /\
  getValue st.1 st.2 3 "n" = Some (VNum 0) /\
  getValue st.1 st.2 1 "name" =
    getValue example_table.1 example_table.2 1 "name".
Proof.
  destruct (onAddRecord_getValue example_table.1 example_table.2 3
              {[ "name" := VStr "c" ]} example_table_ok example_table_fresh)
    as (H1 & H2 & H3 & H4).
  split; [exact H1|]. split; [exact H2|]. split; [|split].
  - rewrite (H3 "name" (mkColData "name" "Text" (VStr "") 3)); [done|done|].
    vm_compute. reflexivity.
  - rewrite (H3 "n" (mkColData "n" "Int" (VNum 0) 4)); [done|done|].
    vm_compute. reflexivity.
  - by apply H4.
Defined.

Lemma onRemoveRecord_getValue_witness :
  let st := onRemoveRecord example_table.1 example_table.2 1 in
  S (numRecords st.1 st.2) = numRecords example_table.1 example_table.2 /\
  getValue st.1 st.2 1 "name" = None /\
  getRecord st.1 st.2 1 = None /\
  getValue st.1 st.2 2 "name" =
    getValue example_table.1 example_table.2 2 "name".
Proof.
  destruct (onRemoveRecord_getValue example_table.1 example_table.2 1
              example_table_ok) as (H1 & H2 & H3 & H4).
  { exists 0. vm_compute. reflexivity. }
  split; [exact H1|]. split; [apply H2|]. split; [exact H3|].
  by apply H4.
Defined.

Lemma onUpdateRecord_getValue_witness :
  let st := onUpdateRecord example_table.1 example_table.2 2
              {[ "name" := VStr "z"; "nosuch" := VNum 1 ]} in
  st.2 = example_table.2 /\
  getValue st.1 st.2 2 "name" = Some (VStr "z") /\
  getValue st.1 st.2 1 "name" = Some (VStr "a") /\
  getValue st.1 st.2 2 "nosuch" = None.
Proof.
  destruct (onUpdateRecord_getValue example_table.1 example_table.2 2
              {[ "name" := VStr "z"; "nosuch" := VNum 1 ]} example_table_ok)
    as (H1 & H2).
  split; [exact H1|].
  rewrite (H2 2%Z "name"), (H2 1%Z "name"), (H2 2%Z "nosuch").
  vm_compute. repeat split; reflexivity.
Defined.

Lemma onAddRecord_onRemoveRecord_witness :
  let added := onAddRecord example_table.1 example_table.2 3 ∅ in
  let st := onRemoveRecord added.1 added.2 3 in
  read st.1 (_rowIdCol st.2) = [VNum 1; VNum 2] /\
  _rowMap st.2 !! Undefined = Some 2 /\ _rowMap st.2 !! VNum 3 = None.
Proof.
  destruct (onAddRecord_onRemoveRecord example_table.1 example_table.2 3 ∅
              example_table_ok example_table_fresh)
    as (_ & Hr & _ & _ & Hrid & Hm).
  split; [|split].
  - etrans; [apply (f_equal (read _) Hrid)|]. etrans; [apply Hr|].
    vm_compute. reflexivity.
  - etrans; [apply (f_equal (fun m => m !! Undefined) Hm)|].
    vm_compute. reflexivity.
  - etrans; [apply (f_equal (fun m => m !! VNum 3) Hm)|].
    vm_compute. reflexivity.
Defined.

Lemma getRecord_getValue_witness :
  exists r, getRecord example_table.1 example_table.2 2 = Some r /\
    r !! "name" = getValue example_table.1 example_table.2 2 "name" /\
    r !! "nosuch" = getValue example_table.1 example_table.2 2 "nosuch".
Proof.
  pose proof (getRecord_getValue example_table.1 example_table.2 2
                example_table_ok example_table_named) as H.
  assert (Hr : exists r, getRecord example_table.1 example_table.2 2 = Some r).
  { unfold getRecord.
    replace (_rowMap example_table.2 !! VNum 2) with (Some 1)
      by (vm_compute; reflexivity).
    by eexists. }
  destruct Hr as [r Hr]. rewrite Hr in H.
  exists r. split; [exact Hr|]. split; apply H.
Defined.

Lemma getRecords_getRecord_witness :
  Forall2
    (fun v rec =>
       exists r, v = VNum r /\
         getRecord example_table.1 example_table.2 r = Some rec)
    (read example_table.1 (_rowIdCol example_table.2))
    (getRecords example_table.1 example_table.2).
Proof.
  exact (getRecords_getRecord example_table.1 example_table.2
           example_table_ok).
Defined.

Lemma example_table_name :
  column example_table.1 example_table.2 "name" =
  Some (mkColData "name" "Text" (VStr "") 3).
Proof. vm_compute. reflexivity. Qed.

Lemma filterRecords_spec_witness :
  filterRecords example_table.1 example_table.2 [("name", VStr "b")] =
  Returns
    (omap (fun v =>
             match v with
             | VNum r =>
                 if forallb (fun p =>
                               bool_decide
                                 (getValue example_table.1 example_table.2 r
                                    p.1 = Some p.2))
                      [("name", VStr "b")]
                 then getRecord example_table.1 example_table.2 r
                 else None
             | _ => None
             end)
       (read example_table.1 (_rowIdCol example_table.2))).
Proof.
  apply (filterRecords_spec example_table.1 example_table.2
           [("name", VStr "b")] example_table_ok).
  constructor; [|constructor]. simpl. rewrite example_table_name. by eexists.
Defined.

Lemma findRow_spec_witness :
  (VStr "b" ∉ read example_table.1 3 ->
   findRow example_table.1 example_table.2 "name" (VStr "b") = VNum 0) /\
  (VStr "b" ∈ read example_table.1 3 ->
   exists r index,
     findRow example_table.1 example_table.2 "name" (VStr "b") = VNum r /\
     getValue example_table.1 example_table.2 r "name" = Some (VStr "b") /\
     _rowMap example_table.2 !! VNum r = Some index /\
     forall j, j < index -> read example_table.1 3 !! j ≠ Some (VStr "b")).
Proof.
  exact (findRow_spec example_table.1 example_table.2 "name" (VStr "b")
           (mkColData "name" "Text" (VStr "") 3) example_table_ok
           example_table_name).
Defined.

Lemma onAddColumn_spec_witness :
  let st := onAddColumn example_default example_table.1 example_table.2
              "age" "Int" in
  table_ok st.1 st.2 /\
  getColIds st.2 = getColIds example_table.2 ++ ["age"] /\
  getColType st.1 st.2 "age" = Some "Int" /\
  read st.1 <$> getColValues st.1 st.2 "age" =
    Some (replicate (numRecords example_table.1 example_table.2)
            (example_default "Int")).
Proof.
  destruct (onAddColumn_spec example_default example_table.1 example_table.2
              "age" "Int" example_table_ok) as [_ H].
  destruct H as (H1 & H2 & H3 & H4 & _).
  { replace (getColIds example_table.2) with ["name"; "n"; "id"]
      by (vm_compute; reflexivity).
    repeat (apply not_elem_of_cons; split; [discriminate|]).
    apply not_elem_of_nil. }
  split; [exact H1|]. split; [exact H2|]. split; [exact H3|exact H4].
Defined.

Lemma onRemoveColumn_spec_witness :
  let st := onRemoveColumn example_table.1 example_table.2 "n" in
  st.1 = example_table.1 /\ table_ok example_table.1 st.2 /\
  getColIds st.2 = filter (fun c => c ≠ "n") (getColIds example_table.2) /\
  column example_table.1 st.2 "n" = None /\
  (forall c, c ≠ "n" ->
     column example_table.1 st.2 c = column example_table.1 example_table.2 c).
Proof.
  apply (onRemoveColumn_spec example_table.1 example_table.2 "n"
           example_table_ok example_table_keys).
  discriminate.
Defined.

Lemma onRenameColumn_spec_witness :
  let st := onRenameColumn example_table.1 example_table.2 "name" "title" in
  table_ok st.1 st.2 /\
  column st.1 st.2 "name" = None /\
  column st.1 st.2 "title" = Some (mkColData "title" "Text" (VStr "") 3) /\
  getColIds st.2 =
    filter (fun c => c ≠ "name") (getColIds example_table.2) ++ ["title"].
Proof.
  destruct (onRenameColumn_spec example_table.1 example_table.2 "name"
              "title" (mkColData "name" "Text" (VStr "") 3) example_table_ok
              example_table_keys example_table_name)
    as (H1 & H2 & H3 & _ & _ & H6); [discriminate|discriminate| |].
  - replace (getColIds example_table.2) with ["name"; "n"; "id"]
      by (vm_compute; reflexivity).
    repeat (apply not_elem_of_cons; split; [discriminate|]).
    apply not_elem_of_nil.
  - split; [exact H1|]. split; [exact H2|]. split; [exact H3|exact H6].
Defined.

Lemma onModifyColumn_spec_witness :
  let st := onModifyColumn example_default example_table.1 example_table.2
              "name" (Some "Int") in
  st.2 = example_table.2 /\ table_ok st.1 example_table.2 /\
  column st.1 example_table.2 "name" =
    Some (mkColData "name" "Int" (VNum 0) 3) /\
  (forall a, read st.1 a = read example_table.1 a).
Proof.
  destruct (onModifyColumn_spec example_default example_table.1
              example_table.2 "name" "Int"
              (mkColData "name" "Text" (VStr "") 3) example_table_ok
              example_table_name) as (H1 & H2 & H3 & _ & H5 & _).
  split; [exact H1|]. split; [exact H2|]. split; [exact H3|exact H5].
Defined.

Lemma TableData_new_columns_witness :
  let st := TableData_new example_default example_heap "T" None
              example_colTypes in
  isLoaded st.2 = false /\ numRecords st.1 st.2 = 0 /\
  getColType st.1 st.2 "id" = Some "Id" /\
  getColType st.1 st.2 "n" = Some "Int" /\
  getColType st.1 st.2 "nosuch" = None /\
  table_ok st.1 st.2.
Proof.
  destruct (TableData_new_columns example_default example_heap "T"
              example_colTypes eq_refl) as (H1 & H2 & H3 & _ & _ & H6).
  split; [exact H1|]. split; [exact H2|]. rewrite !H3.
  split; [done|]. split; [done|]. split; [done|]. exact H6.
Defined.

Lemma onBulkAddRecord_add_each_witness :
  onBulkAddRecord example_table.1 example_table.2 [3; 4]%Z
    {[ "name" := [VStr "c"; VStr "d"] ]} =
  add_each [3; 4]%Z {[ "name" := [VStr "c"; VStr "d"] ]} 0
    (example_table.1, example_table.2).
Proof.
  apply (onBulkAddRecord_add_each example_table.1 example_table.2);
    apply example_table_ok.
Defined.

Lemma onBulkUpdateRecord_update_each_witness :
  onBulkUpdateRecord example_table.1 example_table.2 [2; 7; 1]%Z
    {[ "name" := [VStr "x"; VStr "y"; VStr "z"] ]} =
  update_each [2; 7; 1]%Z {[ "name" := [VStr "x"; VStr "y"; VStr "z"] ]} 0
    (example_table.1, example_table.2).
Proof.
  apply (onBulkUpdateRecord_update_each example_table.1 example_table.2).
  apply example_table_ok.
Defined.

(** ** Row functions *)

(** The data actions leave the column objects and the lookup alone. *)
Lemma bulk_add_ids_objs index rowIds i h t :
  objs (bulk_add_ids index rowIds i (h, t)).1 = objs h.
Proof.
  revert i h t. induction rowIds as [|r rest IH]; intros i h t; [done|].
  cbn [bulk_add_ids]. by rewrite IH.
Qed.

Lemma onBulkAddRecord_objs h t rowIds colValues :
  objs (onBulkAddRecord h t rowIds colValues).1 = objs h /\
  _columns (onBulkAddRecord h t rowIds colValues).2 = _columns t.
Proof.
  unfold onBulkAddRecord.
  pose proof (bulk_add_ids_objs (length (read h (_rowIdCol t))) rowIds 0 h t)
    as Ho.
  pose proof (bulk_add_ids_table (length (read h (_rowIdCol t))) rowIds 0 h t)
    as Ht.
  destruct (bulk_add_ids _ rowIds 0 (h, t)) as [h1 t1]. simpl in Ho, Ht.
  cbn [fst snd]. split; [|by rewrite Ht].
  rewrite (foldl_pointwise _ _ _ _ (bulk_add_column_upd colValues _ _)).
  by rewrite (loop_objs _ (upd_col_step _)).
Qed.

Lemma onBulkRemoveRecord_objs h t rowIds :
  objs (onBulkRemoveRecord h t rowIds).1 = objs h /\
  _columns (onBulkRemoveRecord h t rowIds).2 = _columns t.
Proof.
  unfold onBulkRemoveRecord. revert h t.
  induction rowIds as [|r rest IH]; intros h t; [done|].
  cbn [foldl fst snd].
  destruct (onRemoveRecord_frame h t r) as (Ho & _ & Hc & _).
  destruct (IH (onRemoveRecord h t r).1 (onRemoveRecord h t r).2)
    as [Ho' Hc'].
  rewrite <- surjective_pairing in Ho', Hc'.
  split; [by rewrite Ho'|by rewrite Hc'].
Qed.

Lemma bulk_update_rows_objs t rowIds colValues i h :
  objs (bulk_update_rows t rowIds colValues i h) = objs h.
Proof.
  revert i h. induction rowIds as [|r rest IH]; intros i h; [done|].
  cbn [bulk_update_rows]. rewrite IH.
  destruct (_rowMap t !! VNum r) as [index|]; [|done].
  apply (update_cells_frame (fun l => arr_get l (Z.of_nat i))).
Qed.

Lemma onUpdateRecord_objs h t rowId colValues :
  objs (onUpdateRecord h t rowId colValues).1 = objs h /\
  (onUpdateRecord h t rowId colValues).2 = t.
Proof.
  unfold onUpdateRecord. destruct (_rowMap t !! VNum rowId); [|done].
  split; [|done]. apply (update_cells_frame (fun v => v)).
Qed.

(** The array that [getColValues] returns for [cid] stays the same under an
    action that does not remove [cid], rename it, or rename a column to
    it. *)
Definition keeps_column (cid : string) (a : DocAction) : Prop :=
  match a with
  | RemoveColumn _ c => c ≠ cid
  | RenameColumn _ oldColId newColId => oldColId ≠ cid /\ newColId ≠ cid
  | _ => True
  end.

Section row_functions.
Variable getDefaultForType : string -> CellValue.

Lemma dispatchAction_getColValues h t cid a action :
  getColValues h t cid = Some a -> keeps_column cid action ->
  getColValues (dispatchAction getDefaultForType h t action).1
    (dispatchAction getDefaultForType h t action).2 cid = Some a.
Proof.
  intros Hv Hk.
  assert (Hframe : forall h' t',
    objs h' = objs h -> _columns t' = _columns t ->
    getColValues h' t' cid = Some a).
  { intros h' t' Ho Hc. unfold getColValues.
    by rewrite (column_frame h h' t t' cid Ho Hc). }
  destruct action as [tid rowId colValues|tid rowIds colValues|tid rowId
    |tid rowIds|tid rowId colValues|tid rowIds colValues|data|tid c ty
    |tid c|tid o n|tid c ty|tid cols|tid|tid tid']; cbn [dispatchAction].
  - destruct (onAddRecord_frame h t rowId colValues) as (Ho & _ & Hc & _).
    by apply Hframe.
  - destruct (onBulkAddRecord_objs h t rowIds colValues) as [Ho Hc].
    by apply Hframe.
  - destruct (onRemoveRecord_frame h t rowId) as (Ho & _ & Hc & _).
    by apply Hframe.
  - destruct (onBulkRemoveRecord_objs h t rowIds) as [Ho Hc].
    by apply Hframe.
  - destruct (onUpdateRecord_objs h t rowId colValues) as [Ho ->].
    by apply Hframe.
  - unfold onBulkUpdateRecord. cbn [fst snd].
    apply Hframe; [apply bulk_update_rows_objs|done].
  - unfold onReplaceTableData.
    destruct (loadData_frame h t data) as (_ & Ho & _ & Hc & _).
    by apply Hframe.
  - (* AddColumn *)
    unfold onAddColumn.
    destruct (JsMap.has (_columns t) c) eqn:Hhas; [done|].
    cbn [alloc alloc_obj fst snd].
    unfold getColValues, column in Hv |- *.
    destruct (JsMap.get (_columns t) cid) as [oc|] eqn:Hg; [|done].
    assert (Hne : c ≠ cid).
    { intros ->. unfold JsMap.has in Hhas. by rewrite Hg in Hhas. }
    cbn [_columns set_colArray set_columns].
    rewrite JsMap_get_set_ne by done. rewrite Hg. cbn [mbind option_bind objs].
    simpl in Hv. destruct (objs h !! oc) as [cd|] eqn:Hoc; [|done].
    by rewrite (lookup_app_l_Some _ _ _ _ Hoc).
  - (* RemoveColumn *)
    unfold onRemoveColumn.
    destruct (JsMap.get (_columns t) c) as [o|] eqn:Hg; [|done].
    cbn [fst snd]. unfold getColValues, column in Hv |- *.
    cbn [_columns set_colArray set_columns].
    by rewrite JsMap_get_delete_ne.
  - (* RenameColumn *)
    destruct Hk as [Ho Hn]. unfold onRenameColumn.
    destruct (JsMap.get (_columns t) o) as [oo|] eqn:Hg; [|done].
    cbn [fst snd]. unfold getColValues, column in Hv |- *.
    cbn [_columns set_columns].
    rewrite JsMap_get_delete_ne by done. rewrite JsMap_get_set_ne by done.
    destruct (JsMap.get (_columns t) cid) as [oc|] eqn:Hgc; [|done].
    simpl in Hv |- *.
    destruct (objs h !! oo) as [cd|] eqn:Hoo; [|done].
    unfold write_obj. cbn [objs].
    destruct (decide (oc = oo)) as [->|Hne].
    + rewrite list_lookup_insert_eq by (by eapply lookup_lt_Some).
      rewrite Hoo in Hv. by simpl in *.
    + by rewrite list_lookup_insert_ne.
  - (* ModifyColumn *)
    unfold onModifyColumn.
    destruct (JsMap.get (_columns t) c) as [o|] eqn:Hg; [|done].
    destruct ty as [ty|]; [|done].
    destruct (objs h !! o) as [cd|] eqn:Hoo; [|done].
    cbn [fst snd]. unfold getColValues, column in Hv |- *.
    destruct (JsMap.get (_columns t) cid) as [oc|] eqn:Hgc; [|done].
    simpl in Hv |- *. unfold write_obj. cbn [objs].
    destruct (decide (oc = o)) as [->|Hne].
    + rewrite list_lookup_insert_eq by (by eapply lookup_lt_Some).
      rewrite Hoo in Hv. by simpl in *.
    + by rewrite list_lookup_insert_ne.
  - done.
  - by apply Hframe.
  - by apply Hframe.
Qed.

Lemma dispatchActions_getColValues actions h t cid a :
  getColValues h t cid = Some a -> Forall (keeps_column cid) actions ->
  getColValues (dispatchActions getDefaultForType h t actions).1
    (dispatchActions getDefaultForType h t actions).2 cid = Some a.
Proof.
  revert h t. induction actions as [|x rest IH]; intros h t Hv Hk; [done|].
  rewrite dispatchActions_cons. apply Forall_cons in Hk as [Hx Hrest].
  apply IH; [|done]. by apply dispatchAction_getColValues.
Qed.

(** X29.  The function that [getRowPropFunc(colId)] returns does not go
    stale under actions: after any sequence of actions that does not remove
    the column, rename it, or rename another column to its id, a call of
    the function with a row id returns what [getValue(rowId, colId)] returns
    then; with ["new"] it returns ["new"]. *)
Theorem getRowPropFunc_getValue h t cid f actions :
  getRowPropFunc h t cid = Some f ->
  Forall (keeps_column cid) actions ->
  let st := dispatchActions getDefaultForType h t actions in
  (forall rowId,
     call_RowPropFunc f st.1 st.2 (RowId rowId) =
     getValue st.1 st.2 rowId cid) /\
  call_RowPropFunc f st.1 st.2 RowNew = Some (VStr "new").
Proof.
  intros Hf Hk st. split; [|done]. intros rowId.
  assert (Hv : getColValues h t cid = Some (rpf_values f)).
  { unfold getRowPropFunc in Hf. unfold getColValues.
    destruct (column h t cid) as [cd|]; [|done]. by injection Hf as <-. }
  pose proof (dispatchActions_getColValues actions h t cid _ Hv Hk) as Hv'.
  fold st in Hv'. unfold getColValues in Hv'. unfold getValue.
  destruct (column st.1 st.2 cid) as [cd|]; [|done].
  simpl in Hv'. injection Hv' as Hv'. unfold call_RowPropFunc.
  by rewrite Hv'.
Qed.

End row_functions.

(** ** [loadPartial] and [unloadPartial] *)

(** The removed row is gone. *)
Lemma onRemoveRecord_getValue_gone h t rowId cid :
  getValue (onRemoveRecord h t rowId).1 (onRemoveRecord h t rowId).2 rowId cid
  = None.
Proof.
  unfold getValue.
  destruct (_rowMap t !! VNum rowId) as [index|] eqn:Hm.
  - rewrite (onRemoveRecord_rowMap h t rowId index Hm), lookup_delete_eq.
    by destruct (column _ _ cid).
  - rewrite onRemoveRecord_absent by done. cbn [fst snd]. rewrite Hm.
    by destruct (column _ _ cid).
Qed.

(** [BulkRemoveRecord] removes the rows named and keeps every cell of the
    other rows. *)
Lemma onBulkRemoveRecord_getValue rowIds h t :
  table_ok h t ->
  table_ok (onBulkRemoveRecord h t rowIds).1 (onBulkRemoveRecord h t rowIds).2
  /\
  forall r cid,
    getValue (onBulkRemoveRecord h t rowIds).1
      (onBulkRemoveRecord h t rowIds).2 r cid =
    if decide (r ∈ rowIds) then None else getValue h t r cid.
Proof.
  unfold onBulkRemoveRecord. revert h t.
  induction rowIds as [|x rest IH]; intros h t Hok.
  { split; [done|]. intros r cid.
    by rewrite decide_False by apply not_elem_of_nil. }
  cbn [foldl fst snd].
  pose proof (onRemoveRecord_ok h t x Hok) as Hok1.
  destruct (IH (onRemoveRecord h t x).1 (onRemoveRecord h t x).2 Hok1)
    as [Hok2 Hget].
  rewrite <- surjective_pairing in Hok2, Hget.
  split; [done|]. intros r cid. rewrite Hget.
  destruct (decide (r ∈ rest)) as [Hin|Hnin].
  - rewrite decide_True; [done|]. by apply list_elem_of_further.
  - destruct (decide (r = x)) as [->|Hne].
    + rewrite decide_True by apply list_elem_of_here.
      apply onRemoveRecord_getValue_gone.
    + rewrite decide_False.
      * by apply onRemoveRecord_getValue_other.
      * intros [?|?]%elem_of_cons; done.
Qed.

Lemma index_from_other pos rowIds m r :
  r ∉ rowIds -> index_from pos rowIds m !! VNum r = m !! VNum r.
Proof.
  revert pos m. induction rowIds as [|x rest IH]; intros pos m Hnin; [done|].
  apply not_elem_of_cons in Hnin as [Hne Hnin].
  cbn [index_from]. rewrite IH by done.
  apply lookup_insert_ne. congruence.
Qed.

(** [BulkAddRecord] keeps every cell of the rows that it does not name. *)
Lemma onBulkAddRecord_getValue_other h t rowIds colValues r cid :
  table_ok h t -> r ∉ rowIds ->
  getValue (onBulkAddRecord h t rowIds colValues).1
    (onBulkAddRecord h t rowIds colValues).2 r cid =
  getValue h t r cid.
Proof.
  intros Hok Hnin. pose proof Hok as (Hwf & Hlen & Hidx1 & Hidx2).
  destruct (onBulkAddRecord_appended rowIds colValues h t Hwf Hlen)
    as [Ho _ Ht Hids Hcol _].
  set (st := onBulkAddRecord h t rowIds colValues) in *.
  unfold getValue.
  assert (Hc : _columns st.2 = _columns t) by (by rewrite Ht).
  rewrite (column_frame h st.1 t st.2 cid Ho Hc).
  destruct (column h t cid) as [cd|] eqn:Hcd; [|done].
  rewrite Ht. cbn [_rowMap set_rowMap]. rewrite index_from_other by done.
  destruct (_rowMap t !! VNum r) as [i|] eqn:Hi; [|done].
  f_equal.
  pose proof (lookup_lt_Some _ _ _ (Hidx2 _ _ Hi)) as Hlt.
  pose proof (column_length h t cid cd Hok Hcd) as Hcl.
  destruct (column_object h t cid cd Hcd) as (o & _ & Hin & Hobj).
  destruct (wf_columns_cases h t Hwf o cd Hin Hobj) as [Hid|[Hca _]].
  - rewrite Hid, Hids. by apply arr_get_app_l.
  - rewrite (Hcol o cd Hca Hobj). apply arr_get_app_l. by rewrite Hcl.
Qed.

(** X30.  In a well-formed table, [loadPartial] with row ids that are new
    and distinct marks the table as loaded and keeps every cell of the rows
    that were there; [unloadPartial] of the same row ids then gives back
    the table as [getValue] sees it: every row id and column reads as before
    the two calls, and the table is well-formed again. *)
Theorem loadPartial_unloadPartial h t rowIds colValues :
  table_ok h t -> NoDup rowIds ->
  (forall x, x ∈ rowIds -> VNum x ∉ read h (_rowIdCol t)) ->
  let loaded := loadPartial h t rowIds colValues in
  let st := unloadPartial loaded.1 loaded.2 rowIds in
  _isLoaded loaded.2 = true /\
  numRecords loaded.1 loaded.2 = numRecords h t + length rowIds /\
  (forall r cid, r ∉ rowIds ->
     getValue loaded.1 loaded.2 r cid = getValue h t r cid) /\
  table_ok st.1 st.2 /\
  forall r cid, getValue st.1 st.2 r cid = getValue h t r cid.
Proof.
  intros Hok Hnd Hfresh loaded st.
  pose proof Hok as (Hwf & Hlen & Hidx).
  pose proof (onBulkAddRecord_ok h t rowIds colValues Hok Hnd Hfresh) as Hok1.
  destruct (onBulkAddRecord_appended rowIds colValues h t Hwf Hlen)
    as [_ _ Ht Hids _ _].
  assert (Hl1 : loaded.1 = (onBulkAddRecord h t rowIds colValues).1).
  { unfold loaded, loadPartial. by destruct (onBulkAddRecord _ _ _ _). }
  assert (Hl2 : loaded.2 =
                set_isLoaded (onBulkAddRecord h t rowIds colValues).2 true).
  { unfold loaded, loadPartial. by destruct (onBulkAddRecord _ _ _ _). }
  assert (Hsame : forall r cid,
            getValue loaded.1 loaded.2 r cid =
            getValue (onBulkAddRecord h t rowIds colValues).1
              (onBulkAddRecord h t rowIds colValues).2 r cid).
  { intros r cid. by rewrite Hl1, Hl2. }
  assert (Hok2 : table_ok loaded.1 loaded.2).
  { rewrite Hl1, Hl2. destruct Hok1 as (W & L & I). split; [|split]; [|done..].
    eapply table_wf_heap; [..|exact W]; done. }
  split; [by rewrite Hl2|]. split.
  { unfold numRecords. rewrite Hl1, Hl2. cbn [_rowIdCol set_isLoaded].
    rewrite Ht. cbn [_rowIdCol set_rowMap]. rewrite Hids.
    by rewrite length_app, length_map. }
  split.
  { intros r cid Hnin. rewrite Hsame.
    by apply onBulkAddRecord_getValue_other. }
  destruct (onBulkRemoveRecord_getValue rowIds loaded.1 loaded.2 Hok2)
    as [Hok3 Hget].
  split; [exact Hok3|]. intros r cid. unfold st, unloadPartial.
  rewrite Hget. destruct (decide (r ∈ rowIds)) as [Hin|Hnin].
  - unfold getValue.
    destruct (_rowMap t !! VNum r) as [i|] eqn:Hi;
      [|by destruct (column h t cid)].
    exfalso. apply (Hfresh r Hin).
    apply (idx_ok_resident h t r Hidx). by eexists.
  - rewrite Hsame. by apply onBulkAddRecord_getValue_other.
Qed.

(** Actions on the example table that add a column and rename another one
    while rows come and go. *)
Definition example_actions_columns : list DocAction :=
  [ AddRecord "T" 3 {[ "name" := VStr "c" ]};
    RenameColumn "T" "n" "count";
    RemoveRecord "T" 1;
    AddColumn "T" "name" "Int";
    UpdateRecord "T" 2 {[ "name" := VStr "z" ]} ].

Lemma getRowPropFunc_getValue_witness :
  let st := dispatchActions example_default example_table.1 example_table.2
              example_actions_columns in
  (forall rowId,
     call_RowPropFunc (mkRowPropFunc 3) st.1 st.2 (RowId rowId) =
     getValue st.1 st.2 rowId "name") /\
  call_RowPropFunc (mkRowPropFunc 3) st.1 st.2 RowNew = Some (VStr "new").
Proof.
  apply (getRowPropFunc_getValue example_default example_table.1
           example_table.2 "name" (mkRowPropFunc 3) example_actions_columns).
  - vm_compute. reflexivity.
  - repeat (apply Forall_cons; split;
              [first [exact I | split; discriminate]|]).
    apply Forall_nil_2.
Defined.

(** After the column is removed the function still reads the array that it
    holds, while [getValue] answers [undefined]. *)
Lemma getRowPropFunc_removed_column :
  let st := dispatchActions example_default example_table.1 example_table.2
              [RemoveColumn "T" "name"] in
  call_RowPropFunc (mkRowPropFunc 3) st.1 st.2 (RowId 1) = Some (VStr "a") /\
  getValue st.1 st.2 1 "name" = None.
Proof. vm_compute. split; reflexivity. Qed.

Lemma loadPartial_unloadPartial_witness :
  let loaded := loadPartial example_table.1 example_table.2 [7; 8]%Z
                  {[ "name" := [VStr "p"; VStr "q"] ]} in
  let st := unloadPartial loaded.1 loaded.2 [7; 8]%Z in
  _isLoaded loaded.2 = true /\
  numRecords loaded.1 loaded.2 =
    numRecords example_table.1 example_table.2 + 2 /\
  (forall r cid, r ∉ [7; 8]%Z ->
     getValue loaded.1 loaded.2 r cid =
     getValue example_table.1 example_table.2 r cid) /\
  table_ok st.1 st.2 /\
  forall r cid,
    getValue st.1 st.2 r cid = getValue example_table.1 example_table.2 r cid.
Proof.
  apply (loadPartial_unloadPartial example_table.1 example_table.2 [7; 8]%Z
           {[ "name" := [VStr "p"; VStr "q"] ]} example_table_ok).
  - apply NoDup_cons. split.
    + apply not_elem_of_cons. split; [discriminate|apply not_elem_of_nil].
    + apply NoDup_singleton.
  - intros x Hx.
    replace (read example_table.1 (_rowIdCol example_table.2))
      with [VNum 1; VNum 2] by (vm_compute; reflexivity).
    apply elem_of_cons in Hx as [->|Hx].
    + repeat (apply not_elem_of_cons; split; [discriminate|]).
      apply not_elem_of_nil.
    + apply list_elem_of_singleton in Hx as ->.
      repeat (apply not_elem_of_cons; split; [discriminate|]).
      apply not_elem_of_nil.
Defined.

(** * SQLiteDB *)

Module SQLiteDB.

(** [enum OpenMode]. *)
Inductive OpenMode : Type :=
| OPEN_CREATE
| OPEN_EXISTING
| OPEN_READONLY
| CREATE_EXCL.

(** An [Error] object: an optional code ([ErrorWithCode]) and the message. *)
Record Error : Type := mkError {
  code : option string;
  message : string;
}.

(** A promise that is awaited either yields a value or throws. *)
Inductive Result (A : Type) : Type :=
| Ok (a : A)
| Raise (e : Error).
Arguments Ok {A} a.
Arguments Raise {A} e.

(** ** [quoteIdent] *)

(** The class [\w] of a regular expression without flags: an ASCII letter,
    a digit or the underscore. *)
Definition is_word_char (c : Ascii.ascii) : bool :=
  let n := Ascii.nat_of_ascii c in
  ((48 <=? n) && (n <=? 57)) || ((65 <=? n) && (n <=? 90)) ||
  (n =? 95) || ((97 <=? n) && (n <=? 122)).

Fixpoint all_word_chars (s : string) : bool :=
  match s with
  | EmptyString => true
  | String c rest => is_word_char c && all_word_chars rest
  end.

(** [/^\w+$/.test(ident)]. *)
Definition is_identifier (ident : string) : bool :=
  match ident with
  | EmptyString => false
  | _ => all_word_chars ident
  end.

(** The double quote. *)
Definition dquote_char : Ascii.ascii := Ascii.ascii_of_nat 34.
Definition dquote : string := String dquote_char EmptyString.

(** [quoteIdent(ident)]; [assert] throws an [AssertionError], whose [code]
    is [ERR_ASSERTION], with the message given. *)
Definition quoteIdent (ident : string) : Result string :=
  if is_identifier ident then Ok (dquote +:+ ident +:+ dquote)
  else Raise (mkError (Some "ERR_ASSERTION")
                ("SQL identifier is not valid: " +:+ ident)).

Section Store.

(** The contents of a database (its tables and rows) are abstract: [empty_db]
    has no table, and [isEmptyD] is the query
    [SELECT count( * ) FROM sqlite_master] compared with 0.  [today] is the
    date that [timeFormat('D', new Date())] prints.  [V] is the type of the
    values that callbacks return. *)
Variable D : Type.
Variable empty_db : D.
Variable isEmptyD : D -> bool.
Variable today : string.
Variable V : Type.

(** What the engine answers to
    [SELECT name FROM sqlite_master WHERE type='table'] and, for each of
    these tables, to [PRAGMA table_info]: the tables in the order of the
    catalogue, each with the rows [(name, type)] of its columns.  The engine
    answers these two reads without an error. *)
Variable sqlite_tables : D -> list (string * list (string * string)).

(** ** The SQLite engine *)

(** The statements that reach the engine: those that [SQLiteDB] issues
    itself, and the statements of client code, each given by its effect on
    the contents (an SQL error is a [Raise]).  Client statements do not
    contain transaction control.  The engine itself fails only where SQLite
    documents an error: [BEGIN] inside a transaction, [COMMIT] and
    [ROLLBACK] outside one, [VACUUM] inside one. *)
Inductive Sql : Type :=
| BEGIN
| COMMIT
| ROLLBACK
| VACUUM
| PRAGMA_user_version (n : nat)
| Client (s : D -> Result D).

(** [contents] and [user_version] are what the connection sees; [saved] is
    the state at [BEGIN] while a transaction is open; [trace] lists the
    statements executed so far. *)
Record Engine : Type := mkEngine {
  contents : D;
  user_version : nat;
  saved : option (D * nat);
  trace : list Sql;
}.

Definition sqlite_error (msg : string) : Error := mkError None msg.

Definition engine_exec (sql : Sql) (e : Engine) : Result unit * Engine :=
  let tr := trace e ++ [sql] in
  match sql with
  | BEGIN =>
      match saved e with
      | None =>
          (Ok tt, mkEngine (contents e) (user_version e)
                    (Some (contents e, user_version e)) tr)
      | Some _ =>
          (Raise (sqlite_error
                    "cannot start a transaction within a transaction"),
           mkEngine (contents e) (user_version e) (saved e) tr)
      end
  | COMMIT =>
      match saved e with
      | Some _ => (Ok tt, mkEngine (contents e) (user_version e) None tr)
      | None =>
          (Raise (sqlite_error "cannot commit - no transaction is active"),
           mkEngine (contents e) (user_version e) (saved e) tr)
      end
  | ROLLBACK =>
      match saved e with
      | Some (d, v) => (Ok tt, mkEngine d v None tr)
      | None =>
          (Raise (sqlite_error "cannot rollback - no transaction is active"),
           mkEngine (contents e) (user_version e) (saved e) tr)
      end
  | VACUUM =>
      match saved e with
      | None => (Ok tt, mkEngine (contents e) (user_version e) None tr)
      | Some _ =>
          (Raise (sqlite_error "cannot VACUUM from within a transaction"),
           mkEngine (contents e) (user_version e) (saved e) tr)
      end
  | PRAGMA_user_version n =>
      (Ok tt, mkEngine (contents e) n (saved e) tr)
  | Client s =>
      match s (contents e) with
      | Ok d => (Ok tt, mkEngine d (user_version e) (saved e) tr)
      | Raise err =>
          (Raise err, mkEngine (contents e) (user_version e) (saved e) tr)
      end
  end.

(** What is on disk: the state at [BEGIN] while a transaction is open. *)
Definition committed (e : Engine) : D * nat :=
  match saved e with
  | Some s => s
  | None => (contents e, user_version e)
  end.

(** ** The handle *)

(** The fields of [class SQLiteDB].  Calls on one handle are modelled in
    sequence, so [_prevTransaction], which only serialises transactions that
    were started concurrently, is left out. *)
Record Handle : Type := mkHandle {
  _db : Engine;
  _dbPath : string;
  _inTransaction : bool;
  _migrationBackupPath : option string;
  _migrationError : option Error;
  _needVacuum : bool;
}.

Definition set_db (h : Handle) (e : Engine) : Handle :=
  mkHandle e (_dbPath h) (_inTransaction h) (_migrationBackupPath h)
    (_migrationError h) (_needVacuum h).
Definition set_inTransaction (h : Handle) (b : bool) : Handle :=
  mkHandle (_db h) (_dbPath h) b (_migrationBackupPath h)
    (_migrationError h) (_needVacuum h).
Definition set_migrationBackupPath (h : Handle) (p : option string)
    : Handle :=
  mkHandle (_db h) (_dbPath h) (_inTransaction h) p (_migrationError h)
    (_needVacuum h).
Definition set_migrationError (h : Handle) (e : option Error) : Handle :=
  mkHandle (_db h) (_dbPath h) (_inTransaction h) (_migrationBackupPath h) e
    (_needVacuum h).
Definition set_needVacuum (h : Handle) (b : bool) : Handle :=
  mkHandle (_db h) (_dbPath h) (_inTransaction h) (_migrationBackupPath h)
    (_migrationError h) b.

(** An asynchronous method of the handle, awaited by its caller. *)
Definition DBM (A : Type) : Type := Handle -> Result A * Handle.

Definition ret {A} (a : A) : DBM A := fun h => (Ok a, h).

Definition throw {A} (e : Error) : DBM A := fun h => (Raise e, h).

Definition bind {A B} (c : DBM A) (k : A -> DBM B) : DBM B :=
  fun h =>
    match c h with
    | (Ok a, h') => k a h'
    | (Raise e, h') => (Raise e, h')
    end.

(** [try { c } catch (err) { handler(err) }]. *)
Definition try_catch {A} (c : DBM A) (handler : Error -> DBM A) : DBM A :=
  fun h =>
    match c h with
    | (Ok a, h') => (Ok a, h')
    | (Raise e, h') => handler e h'
    end.

(** [try { c } finally { f }]. *)
Definition try_finally {A} (c : DBM A) (f : DBM unit) : DBM A :=
  fun h =>
    match c h with
    | (r, h') =>
        match f h' with
        | (Ok _, h'') => (r, h'')
        | (Raise e, h'') => (Raise e, h'')
        end
    end.

Notation "'let*' x := c 'in' k" := (bind c (fun x => k))
  (at level 10, x name, c at level 100, k at level 200).
Notation "'do*' c 'in' k" := (bind c (fun _ => k))
  (at level 10, c at level 100, k at level 200).

(** [exec(sql)] and [run(sql)]. *)
Definition exec (sql : Sql) : DBM unit :=
  fun h => let '(r, e) := engine_exec sql (_db h) in (r, set_db h e).

Definition run (sql : Sql) : DBM unit := exec sql.

(** [requestVacuum()]. *)
Definition requestVacuum : DBM bool :=
  fun h =>
    if _inTransaction h then (Ok false, set_needVacuum h true)
    else
      (do* exec VACUUM in
       fun h => (Ok true, set_needVacuum h false)) h.

(** [_execTransactionImpl(callback)]; a failure of [ROLLBACK] is logged and
    dropped. *)
Definition _execTransactionImpl {T} (callback : DBM T) : DBM T :=
  do* exec BEGIN in
  try_catch
    (let* value := callback in
     do* exec COMMIT in
     ret value)
    (fun err =>
       do* try_catch (exec ROLLBACK) (fun rollbackErr => ret tt) in
       throw err).

(** [execTransaction(callback)]. *)
Definition execTransaction {T} (callback : DBM T) : DBM T :=
  fun h =>
    if _inTransaction h then callback h
    else
      try_finally
        (_execTransactionImpl
           (fun h =>
              try_finally callback
                (fun h => (Ok tt, set_inTransaction h false))
                (set_inTransaction h true)))
        (fun h =>
           if _needVacuum h then (do* requestVacuum in ret tt) h
           else (Ok tt, h))
        h.

(** [getMigrationVersion()]: reads [PRAGMA user_version]. *)
Definition getMigrationVersion : DBM nat :=
  fun h => (Ok (user_version (_db h)), h).

(** [isEmpty(db)]. *)
Definition isEmpty : DBM bool :=
  fun h => (Ok (isEmptyD (contents (_db h))), h).

(** [interface DBMetadata]: table name to column name to SQLite type. *)
Definition DBMetadata : Type := gmap string (gmap string string).

(** [fromPairs] of lodash: a later pair with the same key wins. *)
Definition fromPairs (pairs : list (string * string)) : gmap string string :=
  foldl (fun m p => <[p.1 := p.2]> m) ∅ pairs.

(** The loop of [collectMetadata] over [tables]:
    [if (names && !names.includes(t.name)) { continue; }], then
    [quoteIdent(t.name)], whose assertion ends the loop with an error, then
    [metadata[t.name] = columns]. *)
Fixpoint collect_tables (names : option (list string))
    (tables : list (string * list (string * string)))
    (metadata : DBMetadata) : Result DBMetadata :=
  match tables with
  | [] => Ok metadata
  | (name, infoRows) :: rest =>
      let skip :=
        match names with
        | Some ns => negb (bool_decide (name ∈ ns))
        | None => false
        end in
      if skip then collect_tables names rest metadata
      else
        match quoteIdent name with
        | Raise e => Raise e
        | Ok _ =>
            collect_tables names rest (<[name := fromPairs infoRows]> metadata)
        end
  end.

(** [collectMetadata(names?)]; it only reads. *)
Definition collectMetadata (names : option (list string)) : DBM DBMetadata :=
  fun h =>
    (collect_tables names (sqlite_tables (contents (_db h))) ∅, h).

(** ** Client code *)

(** A [DBFunc] or a transaction callback: code that works on the handle
    through its public methods. *)
Inductive Prog : Type :=
| Return (v : V)
| Throw (e : Error)
| Run (s : D -> Result D) (k : Prog)
| ExecTransaction (body : Prog) (k : V -> Prog)
| RequestVacuum (k : bool -> Prog)
| TryCatch (body : Prog) (handler : Error -> Prog) (k : V -> Prog).

Fixpoint run_prog (p : Prog) : DBM V :=
  match p with
  | Return v => ret v
  | Throw e => throw e
  | Run s k => do* run (Client s) in run_prog k
  | ExecTransaction body k =>
      let* v := execTransaction (run_prog body) in run_prog (k v)
  | RequestVacuum k => let* b := requestVacuum in run_prog (k b)
  | TryCatch body handler k =>
      let* v := try_catch (run_prog body) (fun e => run_prog (handler e)) in
      run_prog (k v)
  end.

(** [interface SchemaInfo]; [schema_id] stands for the identity of the
    [create] function, the key of [dbMetadataCache]. *)
Record SchemaInfo : Type := mkSchemaInfo {
  schema_id : nat;
  create : Prog;
  migrations : list Prog;
}.

(** ** The file system and the process-wide state *)

(** [files] maps the path of a database file to what is on disk (contents
    and [user_version]); [_openPaths] is the static registry of open paths;
    [dbMetadataCache] maps a [create] function to its metadata. *)
Record World : Type := mkWorld {
  files : gmap string (D * nat);
  _openPaths : gmap string nat;
  dbMetadataCache : gmap nat DBMetadata;
}.

Definition set_files (w : World) (f : gmap string (D * nat)) : World :=
  mkWorld f (_openPaths w) (dbMetadataCache w).

(** [_addOpens(dbPath, delta)]: the world after the call and the new count. *)
Definition _addOpens (dbPath : string) (delta : Z) (w : World) : World * Z :=
  let count := default 0 (_openPaths w !! dbPath) in
  let newCount := (Z.of_nat count + delta)%Z in
  (mkWorld (files w)
     (if (0 <? newCount)%Z
      then <[dbPath := Z.to_nat newCount]> (_openPaths w)
      else delete dbPath (_openPaths w))
     (dbMetadataCache w),
   newCount).

(** An asynchronous function that works on the world. *)
Definition IO (A : Type) : Type := World -> Result A * World.

(** [openDBRaw(dbPath, mode)]: [new sqlite3.Database(dbPath, sqliteMode)]
    fails when the file is missing and [OPEN_CREATE] is not among the flags,
    and creates an empty file when it is; [":memory:"] is always a new,
    empty database. *)
Definition openDBRaw (dbPath : string) (mode : OpenMode) : IO Handle :=
  fun w =>
    let canCreate :=
      match mode with OPEN_CREATE | CREATE_EXCL => true | _ => false end in
    let onDisk :=
      if decide (dbPath = ":memory:") then Some (empty_db, 0)
      else
        match files w !! dbPath with
        | Some f => Some f
        | None => if canCreate then Some (empty_db, 0) else None
        end in
    match onDisk with
    | None =>
        (Raise (mkError (Some "SQLITE_CANTOPEN")
                  "SQLITE_CANTOPEN: unable to open database file"), w)
    | Some (d, v) =>
        let w1 :=
          if decide (dbPath = ":memory:") then w
          else set_files w (<[dbPath := (d, v)]> (files w)) in
        (Ok (mkHandle (mkEngine d v None []) dbPath false None None false),
         (_addOpens dbPath 1 w1).1)
    end.

(** [close()]: what the connection committed is on disk. *)
Definition close (h : Handle) (w : World) : World :=
  let w1 :=
    if decide (_dbPath h = ":memory:") then w
    else set_files w (<[_dbPath h := committed (_db h)]> (files w)) in
  (_addOpens (_dbPath h) (-1) w1).1.

(** Runs a [DBFunc] for its effect. *)
Definition call (f : Prog) : DBM unit :=
  do* run_prog f in ret tt.

(** [_initNewDB(schemaInfo)]. *)
Definition _initNewDB (schemaInfo : SchemaInfo) : DBM unit :=
  execTransaction
    (let targetVer := length (migrations schemaInfo) in
     do* call (create schemaInfo) in
     exec (PRAGMA_user_version targetVer)).

(** Modelled from the spec: [docUtils.createNumberedTemplate] and
    [docUtils.copyFile] are not among the sources.  The backup is named
    "<path>.<ISO-date>.V<fromVersion><suffix>.bak, where <suffix> is empty for
    the first backup attempted that day for that version and an incrementing
    numeric suffix otherwise, guaranteeing no overwrite"; the suffix starts
    at "-2". *)
Definition backupName (filePath : string) (versionNum n : nat) : string :=
  filePath +:+ "." +:+ today +:+ ".V" +:+ pretty versionNum +:+
  (match n with O => "" | S _ => "-" +:+ pretty (S n) end) +:+ ".bak".

Fixpoint firstFree (fs : gmap string (D * nat)) (filePath : string)
    (versionNum n fuel : nat) : option string :=
  match fuel with
  | O => None
  | S fuel' =>
      match fs !! backupName filePath versionNum n with
      | None => Some (backupName filePath versionNum n)
      | Some _ => firstFree fs filePath versionNum (S n) fuel'
      end
  end.

(** [createBackupFile(filePath, versionNum)], for the file of the handle
    [h]. *)
Definition createBackupFile (filePath : string) (versionNum : nat)
    (h : Handle) : IO string :=
  fun w =>
    match firstFree (files w) filePath versionNum 0 (S (size (files w))) with
    | None =>
        (Raise (mkError (Some "EEXIST") "no backup path is free"), w)
    | Some backupPath =>
        (Ok backupPath,
         set_files w (<[backupPath := committed (_db h)]> (files w)))
    end.

(** The callback of the migration transaction in [_migrate]:
    [for (const versionNum of versions) await
    schemaInfo.migrations[versionNum](this)], then the version is set. *)
Definition migration_steps (schemaInfo : SchemaInfo) (versions : list nat)
    : DBM unit :=
  foldr (fun versionNum rest =>
           do* match migrations schemaInfo !! versionNum with
               | Some m => call m
               | None => ret tt
               end in
           rest)
    (ret tt) versions.

Definition migration_callback (schemaInfo : SchemaInfo) (actualVer : nat)
    : DBM unit :=
  let targetVer := length (migrations schemaInfo) in
  do* migration_steps schemaInfo (seq actualVer (targetVer - actualVer)) in
  exec (PRAGMA_user_version targetVer).

(** The message that [_migrate] puts on a migration error. *)
Definition migration_failed (dbPath : string) (targetVer : nat) (err : Error)
    : Error :=
  mkError (code err)
    ("SQLiteDB[" +:+ dbPath +:+ "] migration to " +:+ pretty targetVer +:+
     " failed: " +:+ message err).

(** [_migrate(actualVer, schemaInfo)]: the result, the handle and the
    world. *)
Definition _migrate (actualVer : nat) (schemaInfo : SchemaInfo) (h : Handle)
    (w : World) : Result (option string) * Handle * World :=
  let targetVer := length (migrations schemaInfo) in
  if targetVer <? actualVer then (Ok None, h, w)
  else if actualVer <? targetVer then
    match createBackupFile (_dbPath h) actualVer h w with
    | (Raise e, w1) => (Raise e, h, w1)
    | (Ok backupPath, w1) =>
        match (do* execTransaction (migration_callback schemaInfo actualVer)
               in run VACUUM) h with
        | (Ok _, h1) => (Ok (Some backupPath), h1, w1)
        | (Raise err, h1) =>
            (Raise (migration_failed (_dbPath h) targetVer err), h1,
             set_files w1 (delete backupPath (files w1)))
        end
    end
  else (Ok None, h, w).

(** The signature of [_reportSchemaDiscrepancies(schemaInfo)]. *)
Definition Report : Type :=
  SchemaInfo -> Handle -> World -> Result unit * Handle * World.

(** [openDB(dbPath, schemaInfo, mode)], with the schema report as a
    parameter. *)
Definition openDB_with (report : Report) (dbPath : string)
    (schemaInfo : SchemaInfo) (mode : OpenMode) : IO Handle :=
  fun w =>
    match openDBRaw dbPath mode w with
    | (Raise e, w1) => (Raise e, w1)
    | (Ok db, w1) =>
        let userVersion := user_version (_db db) in
        if (userVersion =? 0) && isEmptyD (contents (_db db)) then
          match _initNewDB schemaInfo db with
          | (Ok _, db1) => (Ok db1, w1)
          | (Raise e, _) => (Raise e, w1)
          end
        else
          match mode with
          | CREATE_EXCL =>
              (Raise (mkError (Some "EEXISTS")
                        ("EEXISTS: Database already exists: " +:+ dbPath)),
               close db w1)
          | _ =>
              let '(db1, w2) :=
                match mode with
                | OPEN_READONLY =>
                    let targetVer := length (migrations schemaInfo) in
                    (if userVersion <? targetVer
                     then set_migrationError db
                            (Some (mkError None
                                     ("SQLiteDB[" +:+ dbPath +:+
                                      "] needs migration but is readonly")))
                     else db, w1)
                | _ =>
                    match _migrate userVersion schemaInfo db w1 with
                    | (Ok backupPath, db', w') =>
                        (set_migrationBackupPath db' backupPath, w')
                    | (Raise err, db', w') =>
                        (set_migrationError db' (Some err), w')
                    end
                end in
              match report schemaInfo db1 w2 with
              | (Ok _, db2, w3) => (Ok db2, w3)
              | (Raise e, _, w3) => (Raise e, w3)
              end
          end
    end.

(** [_getExpectedMetadata(schemaInfo)] calls
    [SQLiteDB.openDB(':memory:', schemaInfo, OpenMode.CREATE_EXCL)]; in that
    mode [openDB] does not reach the schema report (see
    [openDB_excl_report]), so the inner call is given a report that does
    nothing. *)
Definition openDB_memory (schemaInfo : SchemaInfo) : IO Handle :=
  openDB_with (fun _ h w => (Ok tt, h, w)) ":memory:" schemaInfo CREATE_EXCL.

(** [_getExpectedMetadata(schemaInfo)].  When [collectMetadata] throws,
    nothing is cached and the in-memory database is not closed. *)
Definition _getExpectedMetadata (schemaInfo : SchemaInfo) : IO DBMetadata :=
  fun w =>
    match dbMetadataCache w !! schema_id schemaInfo with
    | Some expected => (Ok expected, w)
    | None =>
        match openDB_memory schemaInfo w with
        | (Raise e, w1) => (Raise e, w1)
        | (Ok db, w1) =>
            match collectMetadata None db with
            | (Raise e, _) => (Raise e, w1)
            | (Ok metadata, db1) =>
                (Ok metadata,
                 close db1
                   (mkWorld (files w1) (_openPaths w1)
                      (<[schema_id schemaInfo := metadata]>
                         (dbMetadataCache w1))))
            end
        end
    end.

(** [Object.keys(expected)]. *)
Definition metadata_keys (expected : DBMetadata) : list string :=
  (map_to_list expected).*1.

(** [_reportSchemaDiscrepancies(schemaInfo)]: the expected metadata, then
    [this.collectMetadata(Object.keys(expected))]; the comparison that
    follows only logs. *)
Definition _reportSchemaDiscrepancies : Report :=
  fun schemaInfo h w =>
    match _getExpectedMetadata schemaInfo w with
    | (Raise e, w1) => (Raise e, h, w1)
    | (Ok expected, w1) =>
        match collectMetadata (Some (metadata_keys expected)) h with
        | (Raise e, h1) => (Raise e, h1, w1)
        | (Ok _, h1) => (Ok tt, h1, w1)
        end
    end.

Definition openDB : string -> SchemaInfo -> OpenMode -> IO Handle :=
  openDB_with _reportSchemaDiscrepancies.

(** ** Code that runs inside a transaction *)

(** Statements that open or close a transaction. *)
Definition is_boundary (sql : Sql) : bool :=
  match sql with
  | BEGIN | COMMIT | ROLLBACK => true
  | _ => false
  end.

(** [h'] is [h] after statements that are no transaction boundaries, with
    the transaction that was open at [h] (saved state [s]) still open, and
    with the path and the migration fields unchanged. *)
Record in_txn_step (s : D * nat) (h h' : Handle) : Prop := {
  its_flag : _inTransaction h' = true;
  its_saved : saved (_db h') = Some s;
  its_path : _dbPath h' = _dbPath h;
  its_backup : _migrationBackupPath h' = _migrationBackupPath h;
  its_error : _migrationError h' = _migrationError h;
  its_trace : exists l, trace (_db h') = trace (_db h) ++ l /\
                        filter is_boundary l = [];
}.

(** A method that, called inside a transaction, stays inside it. *)
Definition txn_safe {A} (c : DBM A) : Prop :=
  forall s h, _inTransaction h = true -> saved (_db h) = Some s ->
    in_txn_step s h (c h).2.

Lemma in_txn_step_refl s h :
  _inTransaction h = true -> saved (_db h) = Some s -> in_txn_step s h h.
Proof.
  intros Hf Hs. split; try done. exists []. by rewrite app_nil_r.
Qed.

Lemma in_txn_step_trans s h1 h2 h3 :
  in_txn_step s h1 h2 -> in_txn_step s h2 h3 -> in_txn_step s h1 h3.
Proof.
  intros [A1 A2 A3 A4 A5 (l1 & A6 & A7)] [B1 B2 B3 B4 B5 (l2 & B6 & B7)].
  split; try congruence.
  exists (l1 ++ l2). split.
  - by rewrite B6, A6, app_assoc.
  - by rewrite filter_app, A7, B7.
Qed.

Lemma txn_safe_ret {A} (a : A) : txn_safe (ret a).
Proof. intros s h Hf Hs. by apply in_txn_step_refl. Qed.

Lemma txn_safe_throw {A} (e : Error) : txn_safe (@throw A e).
Proof. intros s h Hf Hs. by apply in_txn_step_refl. Qed.

Lemma txn_safe_bind {A B} (c : DBM A) (k : A -> DBM B) :
  txn_safe c -> (forall a, txn_safe (k a)) -> txn_safe (bind c k).
Proof.
  intros Hc Hk s h Hf Hs. unfold bind.
  pose proof (Hc s h Hf Hs) as H1.
  destruct (c h) as [[a|e] h1]; simpl in *; [|done].
  eapply in_txn_step_trans; [exact H1|].
  apply Hk; apply H1.
Qed.

Lemma txn_safe_try_catch {A} (c : DBM A) (handler : Error -> DBM A) :
  txn_safe c -> (forall e, txn_safe (handler e)) ->
  txn_safe (try_catch c handler).
Proof.
  intros Hc Hk s h Hf Hs. unfold try_catch.
  pose proof (Hc s h Hf Hs) as H1.
  destruct (c h) as [[a|e] h1]; simpl in *; [done|].
  eapply in_txn_step_trans; [exact H1|].
  apply Hk; apply H1.
Qed.

Lemma txn_safe_exec sql :
  is_boundary sql = false -> sql ≠ VACUUM -> txn_safe (exec sql).
Proof.
  intros Hb Hv s h Hf Hs. unfold exec.
  assert (Ht : filter is_boundary [sql] = []).
  { simpl. unfold filter. simpl. by rewrite Hb. }
  destruct sql as [| | | |n|st]; try done; simpl.
  - split; simpl; try done. by exists [PRAGMA_user_version n].
  - destruct (st (contents (_db h))); split; simpl; try done;
      by exists [Client st].
Qed.

Lemma txn_safe_requestVacuum : txn_safe requestVacuum.
Proof.
  intros s h Hf Hs. unfold requestVacuum. rewrite Hf. simpl.
  split; simpl; try done. exists []. by rewrite app_nil_r.
Qed.

Lemma txn_safe_execTransaction {T} (c : DBM T) :
  txn_safe c -> txn_safe (execTransaction c).
Proof.
  intros Hc s h Hf Hs. unfold execTransaction. rewrite Hf. by apply Hc.
Qed.

Lemma txn_safe_run_prog p : txn_safe (run_prog p).
Proof.
  induction p as [v|e|st k IH|body IHb k IHk|k IHk|body IHb handler IHh k IHk];
    simpl.
  - apply txn_safe_ret.
  - apply txn_safe_throw.
  - apply txn_safe_bind; [by apply txn_safe_exec|done].
  - apply txn_safe_bind; [by apply txn_safe_execTransaction|done].
  - apply txn_safe_bind; [apply txn_safe_requestVacuum|done].
  - apply txn_safe_bind; [by apply txn_safe_try_catch|done].
Qed.

Lemma txn_safe_call p : txn_safe (call p).
Proof.
  apply txn_safe_bind; [apply txn_safe_run_prog|].
  intros _. apply txn_safe_ret.
Qed.

Lemma txn_safe_migration_callback schemaInfo actualVer :
  txn_safe (migration_callback schemaInfo actualVer).
Proof.
  unfold migration_callback. apply txn_safe_bind.
  - generalize (seq actualVer (length (migrations schemaInfo) - actualVer)).
    intros versions. induction versions as [|n versions IH]; simpl.
    + apply txn_safe_ret.
    + apply txn_safe_bind; [|done].
      destruct (migrations schemaInfo !! n);
        [apply txn_safe_call|apply txn_safe_ret].
  - intros _. by apply txn_safe_exec.
Qed.

(** ** The outermost transaction *)

(** The handle when the callback of an outermost transaction starts: after
    [BEGIN], with [_inTransaction] set. *)
Definition begun (h : Handle) : Handle :=
  set_inTransaction
    (set_db h
       (mkEngine (contents (_db h)) (user_version (_db h))
          (Some (contents (_db h), user_version (_db h)))
          (trace (_db h) ++ [BEGIN])))
    true.

(** The statement that ends the transaction for a given outcome. *)
Definition closing {T} (r : Result T) : Sql :=
  match r with
  | Ok _ => COMMIT
  | Raise _ => ROLLBACK
  end.

Lemma execTransaction_outermost {T} (c : DBM T) (h : Handle) :
  txn_safe c -> _inTransaction h = false -> saved (_db h) = None ->
  exists h2,
    execTransaction c h = ((c (begun h)).1, h2) /\
    saved (_db h2) = None /\ _inTransaction h2 = false /\
    _needVacuum h2 = false /\
    _dbPath h2 = _dbPath h /\
    _migrationBackupPath h2 = _migrationBackupPath h /\
    _migrationError h2 = _migrationError h /\
    (exists l, trace (_db h2) = trace (_db h) ++ l /\
       filter is_boundary l = [BEGIN; closing (c (begun h)).1]) /\
    match (c (begun h)).1 with
    | Ok _ =>
        contents (_db h2) = contents (_db (c (begun h)).2) /\
        user_version (_db h2) = user_version (_db (c (begun h)).2)
    | Raise _ =>
        contents (_db h2) = contents (_db h) /\
        user_version (_db h2) = user_version (_db h)
    end.
Proof.
  intros Hc Hf Hs.
  assert (Hin : in_txn_step (contents (_db h), user_version (_db h))
                  (begun h) (c (begun h)).2) by (by apply Hc).
  destruct Hin as [I1 I2 I3 I4 I5 (l & I6 & I7)].
  unfold execTransaction. rewrite Hf.
  unfold try_finally, _execTransactionImpl, bind, try_catch, exec.
  simpl. rewrite Hs. simpl. fold (begun h).
  destruct (c (begun h)) as [[v|e] h1]; simpl in *; rewrite I2; simpl.
  - destruct (_needVacuum h1) eqn:Hv; simpl.
    + unfold requestVacuum, bind, exec. simpl.
      eexists. split; [reflexivity|]. simpl.
      repeat (split; [done|]). split; [|done].
      exists ((BEGIN :: l) ++ [COMMIT; VACUUM]). split.
      * rewrite I6. by rewrite <- !app_assoc.
      * rewrite filter_app. rewrite filter_cons_True by done.
        by rewrite I7.
    + eexists. split; [reflexivity|]. simpl.
      repeat (split; [done|]). split; [|done].
      exists ((BEGIN :: l) ++ [COMMIT]). split.
      * rewrite I6. by rewrite <- !app_assoc.
      * rewrite filter_app. rewrite filter_cons_True by done.
        by rewrite I7.
  - destruct (_needVacuum h1) eqn:Hv; simpl.
    + unfold requestVacuum, bind, exec. simpl.
      eexists. split; [reflexivity|]. simpl.
      repeat (split; [done|]). split; [|done].
      exists ((BEGIN :: l) ++ [ROLLBACK; VACUUM]). split.
      * rewrite I6. by rewrite <- !app_assoc.
      * rewrite filter_app. rewrite filter_cons_True by done.
        by rewrite I7.
    + eexists. split; [reflexivity|]. simpl.
      repeat (split; [done|]). split; [|done].
      exists ((BEGIN :: l) ++ [ROLLBACK]). split.
      * rewrite I6. by rewrite <- !app_assoc.
      * rewrite filter_app. rewrite filter_cons_True by done.
        by rewrite I7.
Qed.

(** * Nested transactions (claim C7) *)

(** C7.  A call of [execTransaction] made while a transaction is open on the
    handle is the call of its body: the body runs inline, executes no
    [BEGIN], [COMMIT] or [ROLLBACK], and leaves the transaction of the
    outermost call open with the state saved at its [BEGIN].  A call made
    when no transaction is open executes [BEGIN], runs the body, and then
    executes [COMMIT] when the body returns, keeping what the body (and
    every call nested in it) wrote, or [ROLLBACK] when the body throws,
    restoring the contents and the version of before the call; the call
    returns the value or throws the error of the body. *)
Theorem nested_transactions_merge (body : Prog) (h : Handle) :
  (forall s, _inTransaction h = true -> saved (_db h) = Some s ->
     execTransaction (run_prog body) h = run_prog body h /\
     in_txn_step s h (run_prog body h).2) /\
  (_inTransaction h = false -> saved (_db h) = None ->
   exists h2,
     execTransaction (run_prog body) h = ((run_prog body (begun h)).1, h2) /\
     saved (_db h2) = None /\ _inTransaction h2 = false /\
     (exists l, trace (_db h2) = trace (_db h) ++ l /\
        filter is_boundary l =
          [BEGIN; closing (run_prog body (begun h)).1]) /\
     match (run_prog body (begun h)).1 with
     | Ok _ =>
         contents (_db h2) = contents (_db (run_prog body (begun h)).2) /\
         user_version (_db h2) =
           user_version (_db (run_prog body (begun h)).2)
     | Raise _ =>
         contents (_db h2) = contents (_db h) /\
         user_version (_db h2) = user_version (_db h)
     end).
Proof.
  split.
  - intros s Hf Hs. split.
    + unfold execTransaction. by rewrite Hf.
    + by apply txn_safe_run_prog.
  - intros Hf Hs.
    destruct (execTransaction_outermost (run_prog body) h
                (txn_safe_run_prog body) Hf Hs)
      as (h2 & H1 & H2 & H3 & _ & _ & _ & _ & H4 & H5).
    by exists h2.
Qed.

(** * Migration failure (claim C2) *)

(** The handle that [openDBRaw] makes for a database with contents [d] and
    version [v]. *)
Definition opened (dbPath : string) (d : D) (v : nat) : Handle :=
  mkHandle (mkEngine d v None []) dbPath false None None false.

(** The schema report, run on the handle [db] in the world [w], throws
    [e]. *)
Definition report_throws (schemaInfo : SchemaInfo) (db : Handle) (w : World)
    (e : Error) : Prop :=
  (_reportSchemaDiscrepancies schemaInfo db w).1.1 = Raise e.

Lemma firstFree_free fs filePath versionNum n fuel backupPath :
  firstFree fs filePath versionNum n fuel = Some backupPath ->
  fs !! backupPath = None.
Proof.
  revert n. induction fuel as [|fuel IH]; intros n; simpl; [done|].
  destruct (fs !! backupName filePath versionNum n) eqn:Hn.
  - apply IH.
  - by intros [= <-].
Qed.

Lemma addOpens_files dbPath delta w :
  files (_addOpens dbPath delta w).1 = files w /\
  dbMetadataCache (_addOpens dbPath delta w).1 = dbMetadataCache w.
Proof. done. Qed.

(** In the mode [CREATE_EXCL], [openDB] does not reach the schema report. *)
Lemma openDB_excl_report (r1 r2 : Report) dbPath schemaInfo w :
  openDB_with r1 dbPath schemaInfo CREATE_EXCL w =
  openDB_with r2 dbPath schemaInfo CREATE_EXCL w.
Proof.
  unfold openDB_with.
  destruct (openDBRaw dbPath CREATE_EXCL w) as [[db|e] w1]; [|done].
  by destruct (_ && _).
Qed.

Lemma txn_safe_initNewDB_callback schemaInfo :
  txn_safe (do* call (create schemaInfo) in
            exec (PRAGMA_user_version (length (migrations schemaInfo)))).
Proof.
  apply txn_safe_bind; [apply txn_safe_call|].
  intros _. by apply txn_safe_exec.
Qed.

Lemma initNewDB_path schemaInfo h :
  _inTransaction h = false -> saved (_db h) = None ->
  _dbPath (_initNewDB schemaInfo h).2 = _dbPath h.
Proof.
  intros Hf Hs. unfold _initNewDB.
  destruct (execTransaction_outermost _ h
              (txn_safe_initNewDB_callback schemaInfo) Hf Hs)
    as (h2 & -> & _ & _ & _ & Hp & _).
  done.
Qed.

Lemma addOpens_other dbPath delta w p :
  p ≠ dbPath ->
  _openPaths (_addOpens dbPath delta w).1 !! p = _openPaths w !! p.
Proof.
  intros Hne. unfold _addOpens. cbn [fst _openPaths].
  destruct (0 <? _)%Z.
  - by rewrite lookup_insert_ne.
  - by rewrite lookup_delete_ne.
Qed.

(** Closing an in-memory database writes no file. *)
Lemma close_memory h w :
  _dbPath h = ":memory:" ->
  files (close h w) = files w /\
  dbMetadataCache (close h w) = dbMetadataCache w /\
  forall p, p ≠ ":memory:" -> _openPaths (close h w) !! p = _openPaths w !! p.
Proof.
  intros Hp. unfold close. rewrite Hp. rewrite decide_True by done.
  split; [done|]. split; [done|]. intros p Hne. by apply addOpens_other.
Qed.

(** What [openDB(':memory:', schemaInfo, CREATE_EXCL)] leaves. *)
Lemma openDB_memory_frame schemaInfo w :
  files (openDB_memory schemaInfo w).2 = files w /\
  dbMetadataCache (openDB_memory schemaInfo w).2 = dbMetadataCache w /\
  (forall p, p ≠ ":memory:" ->
     _openPaths (openDB_memory schemaInfo w).2 !! p = _openPaths w !! p) /\
  forall db, (openDB_memory schemaInfo w).1 = Ok db -> _dbPath db = ":memory:".
Proof.
  unfold openDB_memory, openDB_with, openDBRaw.
  rewrite !decide_True by done. cbn [fst snd _db user_version contents].
  fold (opened ":memory:" empty_db 0).
  change (0 =? 0) with true. cbn [andb].
  pose proof (initNewDB_path schemaInfo (opened ":memory:" empty_db 0)
                eq_refl eq_refl) as Hp.
  destruct (isEmptyD empty_db).
  - destruct (_initNewDB schemaInfo (opened ":memory:" empty_db 0))
      as [[[]|e] db1]; cbn [fst snd] in Hp |- *.
    + split; [done|]. split; [done|]. split.
      * intros p Hne. by apply addOpens_other.
      * by intros db [= <-].
    + split; [done|]. split; [done|]. split; [|done].
      intros p Hne. by apply addOpens_other.
  - cbn [fst snd].
    destruct (close_memory (opened ":memory:" empty_db 0)
                (_addOpens ":memory:" 1 w).1 eq_refl) as (Hf & Hc & Ho).
    split; [by rewrite Hf|]. split; [by rewrite Hc|]. split; [|done].
    intros p Hne. rewrite Ho by done. by apply addOpens_other.
Qed.

(** [_getExpectedMetadata] writes no file and registers or releases no
    path but [":memory:"]. *)
Lemma getExpectedMetadata_frame schemaInfo w :
  files (_getExpectedMetadata schemaInfo w).2 = files w /\
  forall p, p ≠ ":memory:" ->
    _openPaths (_getExpectedMetadata schemaInfo w).2 !! p = _openPaths w !! p.
Proof.
  unfold _getExpectedMetadata.
  destruct (dbMetadataCache w !! schema_id schemaInfo) as [m|]; [done|].
  destruct (openDB_memory_frame schemaInfo w) as (Hf & _ & Ho & Hp).
  destruct (openDB_memory schemaInfo w) as [[db|e] w1];
    cbn [fst snd] in Hf, Ho, Hp |- *; [|done].
  unfold collectMetadata.
  destruct (collect_tables None _ ∅) as [m|e]; cbn [fst snd]; [|done].
  destruct (close_memory db
              (mkWorld (files w1) (_openPaths w1)
                 (<[schema_id schemaInfo := m]> (dbMetadataCache w1)))
              (Hp db eq_refl)) as (Hf' & _ & Ho').
  split; [by rewrite Hf'|]. intros p Hne. rewrite Ho' by done.
  by apply Ho.
Qed.

(** The schema report leaves the handle as it is, writes no file, and
    registers or releases no path but [":memory:"], whether it returns or
    throws. *)
Lemma report_frame schemaInfo h w :
  (_reportSchemaDiscrepancies schemaInfo h w).1.2 = h /\
  files (_reportSchemaDiscrepancies schemaInfo h w).2 = files w /\
  forall p, p ≠ ":memory:" ->
    _openPaths (_reportSchemaDiscrepancies schemaInfo h w).2 !! p =
    _openPaths w !! p.
Proof.
  unfold _reportSchemaDiscrepancies.
  destruct (getExpectedMetadata_frame schemaInfo w) as [Hf Ho].
  destruct (_getExpectedMetadata schemaInfo w) as [[expected|e] w1];
    cbn [fst snd] in Hf, Ho |- *; [|done].
  unfold collectMetadata.
  by destruct (collect_tables _ _ ∅).
Qed.

(** How [openDB] ends once the report has run on [db]: it returns [db],
    or throws what the report throws. *)
Lemma openDB_finish schemaInfo db w1 :
  let r :=
    match _reportSchemaDiscrepancies schemaInfo db w1 with
    | (Ok _, db2, w3) => (Ok db2, w3)
    | (Raise e, _, w3) => (Raise e, w3)
    end in
  files r.2 = files w1 /\
  (forall p, p ≠ ":memory:" -> _openPaths r.2 !! p = _openPaths w1 !! p) /\
  match r.1 with
  | Ok db' => db' = db
  | Raise e => report_throws schemaInfo db w1 e
  end.
Proof.
  cbv zeta. unfold report_throws.
  destruct (report_frame schemaInfo db w1) as (Hh & Hf & Ho).
  destruct (_reportSchemaDiscrepancies schemaInfo db w1) as [[[[]|e] db2] w3];
    cbn [fst snd] in Hh, Hf, Ho |- *; done.
Qed.

(** What holds of claim C2.  When an existing store, opened in a read-write
    mode, is not a new store and its version is behind the number of
    migrations, a backup was made, and the migration transaction throws
    [err]: the transaction is rolled back, so contents and version of the
    handle [db] are those of before; the backup is deleted and the files on
    disk are those of before; and [migrationError] of [db] holds the error,
    with the message that [_migrate] gives it.  The schema report then runs
    on [db], outside the [try]: [openDB] returns [db] when the report
    returns and throws when the report throws. *)
Lemma migration_failure_atomic w dbPath schemaInfo mode d v backupPath err :
  dbPath ≠ ":memory:" ->
  files w !! dbPath = Some (d, v) ->
  mode = OPEN_CREATE \/ mode = OPEN_EXISTING ->
  (v =? 0) && isEmptyD d = false ->
  v < length (migrations schemaInfo) ->
  firstFree (files w) dbPath v 0 (S (size (files w))) = Some backupPath ->
  (migration_callback schemaInfo v (begun (opened dbPath d v))).1
    = Raise err ->
  exists db,
    contents (_db db) = d /\ user_version (_db db) = v /\
    saved (_db db) = None /\ _inTransaction db = false /\
    filter is_boundary (trace (_db db)) = [BEGIN; ROLLBACK] /\
    _migrationError db =
      Some (migration_failed dbPath (length (migrations schemaInfo)) err) /\
    _migrationBackupPath db = None /\
    let r := openDB dbPath schemaInfo mode w in
    files r.2 = files w /\ files r.2 !! backupPath = None /\
    match r.1 with
    | Ok db' => db' = db
    | Raise e => report_throws schemaInfo db (_addOpens dbPath 1 w).1 e
    end.
Proof.
  intros Hmem Hfile Hmode Hnew Hbehind Hfree Hthrow.
  pose proof (firstFree_free _ _ _ _ _ _ Hfree) as Hbp.
  unfold openDB, openDB_with, openDBRaw.
  rewrite decide_False by done. rewrite Hfile.
  rewrite decide_False by done. rewrite insert_id by done.
  fold (opened dbPath d v).
  set (w1 := (_addOpens dbPath 1 (set_files w (files w))).1).
  assert (Hw1 : files w1 = files w) by done.
  cbn [_db opened user_version contents]. rewrite Hnew.
  assert (Hmig :
    _migrate v schemaInfo (opened dbPath d v) w1 =
    (Raise (migration_failed dbPath (length (migrations schemaInfo)) err),
     (execTransaction (migration_callback schemaInfo v)
        (opened dbPath d v)).2,
     set_files w1 (files w))).
  { unfold _migrate.
    destruct (Nat.ltb_spec (length (migrations schemaInfo)) v); [lia|].
    destruct (Nat.ltb_spec v (length (migrations schemaInfo))); [|lia].
    change (_dbPath (opened dbPath d v)) with dbPath.
    unfold createBackupFile. rewrite Hw1, Hfree. unfold bind.
    destruct (execTransaction_outermost (migration_callback schemaInfo v)
                (opened dbPath d v)
                (txn_safe_migration_callback schemaInfo v) eq_refl eq_refl)
      as (h2 & Heq & _).
    rewrite Heq, Hthrow. simpl. by rewrite delete_insert_id. }
  destruct (execTransaction_outermost (migration_callback schemaInfo v)
              (opened dbPath d v)
              (txn_safe_migration_callback schemaInfo v) eq_refl eq_refl)
    as (h2 & Heq & H1 & H2 & _ & H3 & H4 & H5 & (l & H6 & H7) & H8).
  rewrite Heq in Hmig. simpl in Hmig. rewrite Hthrow in H7, H8.
  simpl in H6, H7, H8. destruct H8 as [H8 H9].
  set (db1 := set_migrationError h2
                (Some (migration_failed dbPath
                         (length (migrations schemaInfo)) err))).
  exists db1. unfold db1 at 1 2 3 4 5 6 7. cbn [_db set_migrationError
    _inTransaction _migrationError _migrationBackupPath].
  repeat (split; [done|]). split; [by rewrite H6|]. split; [done|].
  split; [done|].
  change (set_files w1 (files w)) with (_addOpens dbPath 1 w).1 in Hmig.
  destruct (openDB_finish schemaInfo db1 (_addOpens dbPath 1 w).1)
    as (Hf & _ & Hres).
  cbv zeta. destruct Hmode as [-> | ->]; rewrite Hmig; fold db1;
    (split; [exact Hf|]); (split; [by rewrite Hf|]); exact Hres.
Qed.

(** * Opening and closing *)

(** [static getMigrationVersion(dbPath)]: [try { return await
    db.getMigrationVersion(); } finally { await db.close(); }] on a handle
    opened in the mode [OPEN_READONLY]. *)
Definition getMigrationVersion_static (dbPath : string) : IO nat :=
  fun w =>
    match openDBRaw dbPath OPEN_READONLY w with
    | (Raise e, w1) => (Raise e, w1)
    | (Ok db, w1) =>
        let '(r, db1) := getMigrationVersion db in
        (r, close db1 w1)
    end.

(** [runEach(...statements)]: the statements are run one after the other;
    the [catch] of each logs and throws again.  A statement that comes with
    parameters goes through [run], which is [exec] here. *)
Fixpoint runEach (statements : list Sql) : DBM unit :=
  match statements with
  | [] => ret tt
  | stmt :: rest =>
      do* try_catch (exec stmt) (fun err => throw err) in
      runEach rest
  end.

(** ** The registry of open paths *)

(** No path is registered with a count of 0. *)
Definition opens_ok (w : World) : Prop :=
  forall p n, _openPaths w !! p = Some n -> 0 < n.

Lemma addOpens_opens_ok dbPath delta w :
  opens_ok w -> opens_ok (_addOpens dbPath delta w).1.
Proof.
  intros Hok p n. unfold _addOpens. simpl.
  destruct (Z.ltb_spec 0
              (Z.of_nat (default 0 (_openPaths w !! dbPath)) + delta)).
  - destruct (decide (p = dbPath)) as [->|Hne].
    + rewrite lookup_insert_eq. intros [= <-]. lia.
    + rewrite lookup_insert_ne by done. apply Hok.
  - destruct (decide (p = dbPath)) as [->|Hne].
    + by rewrite lookup_delete_eq.
    + rewrite lookup_delete_ne by done. apply Hok.
Qed.

Lemma addOpens_open dbPath w :
  _openPaths (_addOpens dbPath 1 w).1 =
  <[dbPath := S (default 0 (_openPaths w !! dbPath))]> (_openPaths w).
Proof.
  unfold _addOpens. simpl.
  destruct (Z.ltb_spec 0
              (Z.of_nat (default 0 (_openPaths w !! dbPath)) + 1)); [|lia].
  f_equal. lia.
Qed.

(** Closing undoes the registration of the opening. *)
Lemma addOpens_undo dbPath w f :
  opens_ok w ->
  _openPaths (_addOpens dbPath (-1) (set_files (_addOpens dbPath 1 w).1 f)).1
  = _openPaths w.
Proof.
  intros Hok.
  assert (H1 : _openPaths (set_files (_addOpens dbPath 1 w).1 f) =
               <[dbPath := S (default 0 (_openPaths w !! dbPath))]>
                 (_openPaths w)) by apply addOpens_open.
  unfold _addOpens at 1. cbn [fst _openPaths]. rewrite H1.
  rewrite lookup_insert_eq.
  change (default 0 (Some ?x)) with x.
  destruct (_openPaths w !! dbPath) as [c|] eqn:Hc.
  - change (default 0 (Some c)) with c. pose proof (Hok _ _ Hc).
    destruct (Z.ltb_spec 0 (Z.of_nat (S c) + -1)); [|lia].
    rewrite insert_insert_eq. rewrite insert_id; [done|].
    rewrite Hc. f_equal. lia.
  - change (default 0 None) with 0.
    destruct (Z.ltb_spec 0 (Z.of_nat 1 + -1)); [lia|].
    rewrite delete_insert_eq. by apply delete_id.
Qed.

Lemma world_eq (w w' : World) :
  files w' = files w -> _openPaths w' = _openPaths w ->
  dbMetadataCache w' = dbMetadataCache w -> w' = w.
Proof. destruct w, w'. simpl. by intros -> -> ->. Qed.

(** What [openDBRaw] does for a file that exists. *)
Lemma openDBRaw_existing dbPath mode w d v :
  dbPath ≠ ":memory:" -> files w !! dbPath = Some (d, v) ->
  openDBRaw dbPath mode w =
  (Ok (opened dbPath d v), (_addOpens dbPath 1 w).1).
Proof.
  intros Hmem Hfile. unfold openDBRaw.
  rewrite decide_False by done. rewrite Hfile.
  rewrite decide_False by done. rewrite insert_id by done.
  replace (set_files w (files w)) with w by (by destruct w). done.
Qed.

Lemma close_opened dbPath d v w :
  dbPath ≠ ":memory:" -> opens_ok w -> files w !! dbPath = Some (d, v) ->
  close (opened dbPath d v) (_addOpens dbPath 1 w).1 = w.
Proof.
  intros Hmem Hok Hfile. unfold close. cbn [_dbPath opened].
  rewrite decide_False by done.
  apply world_eq.
  - simpl. by rewrite insert_id.
  - by rewrite addOpens_undo.
  - done.
Qed.

(** X19.  [getMigrationVersion(dbPath)] reads the version of a file that exists
    and leaves the world as it was: the file is not changed and the handle
    is closed again.  For a file that does not exist it throws and does not
    create one. *)
Theorem getMigrationVersion_static_spec dbPath w :
  dbPath ≠ ":memory:" -> opens_ok w ->
  getMigrationVersion_static dbPath w =
  match files w !! dbPath with
  | Some (d, v) => (Ok v, w)
  | None =>
      (Raise (mkError (Some "SQLITE_CANTOPEN")
                "SQLITE_CANTOPEN: unable to open database file"), w)
  end.
Proof.
  intros Hmem Hok. unfold getMigrationVersion_static.
  destruct (files w !! dbPath) as [[d v]|] eqn:Hfile.
  - rewrite (openDBRaw_existing dbPath OPEN_READONLY w d v) by done.
    unfold getMigrationVersion. cbn [opened _db user_version].
    f_equal. by apply close_opened.
  - unfold openDBRaw. rewrite decide_False by done. by rewrite Hfile.
Qed.

(** X20.  [openDB] in the mode [CREATE_EXCL] on a store that exists and is not
    new throws [EEXISTS], after it closed the handle: the world is as
    before. *)
Theorem openDB_create_excl_exists w dbPath schemaInfo d v :
  dbPath ≠ ":memory:" -> opens_ok w ->
  files w !! dbPath = Some (d, v) ->
  (v =? 0) && isEmptyD d = false ->
  openDB dbPath schemaInfo CREATE_EXCL w =
  (Raise (mkError (Some "EEXISTS")
            ("EEXISTS: Database already exists: " +:+ dbPath)), w).
Proof.
  intros Hmem Hok Hfile Hnew. unfold openDB, openDB_with.
  rewrite (openDBRaw_existing dbPath CREATE_EXCL w d v) by done.
  cbn [opened _db user_version contents]. rewrite Hnew.
  f_equal. by apply close_opened.
Qed.

(** ** [openDB] on a store that needs no migration, or is new *)

(** X21.  In the mode [OPEN_READONLY], [openDB] on a store that exists and is
    not new never migrates: no statement is executed and no file is
    written.  The schema report runs on the handle that [openDBRaw] made,
    with [migrationError] set exactly when the version of the store is
    behind the number of migrations.  [openDB] returns that handle, or
    throws what the report throws; the handle is not closed then either,
    so in both cases the path is registered as open once more. *)
Theorem openDB_readonly w dbPath schemaInfo d v :
  dbPath ≠ ":memory:" -> files w !! dbPath = Some (d, v) ->
  (v =? 0) && isEmptyD d = false ->
  let db :=
    if v <? length (migrations schemaInfo)
    then set_migrationError (opened dbPath d v)
           (Some (mkError None
                    ("SQLiteDB[" +:+ dbPath +:+
                     "] needs migration but is readonly")))
    else opened dbPath d v in
  let r := openDB dbPath schemaInfo OPEN_READONLY w in
  files r.2 = files w /\
  _openPaths r.2 !! dbPath = Some (S (default 0 (_openPaths w !! dbPath))) /\
  match r.1 with
  | Ok db' => db' = db
  | Raise e => report_throws schemaInfo db (_addOpens dbPath 1 w).1 e
  end.
Proof.
  intros Hmem Hfile Hnew db r. unfold r, openDB, openDB_with.
  rewrite (openDBRaw_existing dbPath OPEN_READONLY w d v) by done.
  cbn [opened _db user_version contents]. rewrite Hnew.
  fold (opened dbPath d v). fold db.
  destruct (openDB_finish schemaInfo db (_addOpens dbPath 1 w).1)
    as (Hf & Ho & Hres).
  split; [exact Hf|]. split; [|exact Hres].
  rewrite Ho by done. rewrite addOpens_open. apply lookup_insert_eq.
Qed.

(** X22.  [openDB] on a store that exists, is not new and is at the version
    of the schema or ahead of it, in every mode but [CREATE_EXCL]: no
    statement is executed, no backup is made, no file is written and no
    error is recorded.  The schema report runs on the handle that
    [openDBRaw] made; [openDB] returns that handle, or throws what the
    report throws, and the path is registered as open once more. *)
Theorem openDB_no_migration w dbPath schemaInfo mode d v :
  dbPath ≠ ":memory:" -> files w !! dbPath = Some (d, v) ->
  mode ≠ CREATE_EXCL ->
  (v =? 0) && isEmptyD d = false ->
  length (migrations schemaInfo) <= v ->
  let r := openDB dbPath schemaInfo mode w in
  files r.2 = files w /\
  _openPaths r.2 !! dbPath = Some (S (default 0 (_openPaths w !! dbPath))) /\
  match r.1 with
  | Ok db' => db' = opened dbPath d v
  | Raise e =>
      report_throws schemaInfo (opened dbPath d v) (_addOpens dbPath 1 w).1 e
  end.
Proof.
  intros Hmem Hfile Hmode Hnew Hver r. unfold r, openDB, openDB_with.
  rewrite (openDBRaw_existing dbPath mode w d v) by done.
  cbn [opened _db user_version contents]. rewrite Hnew.
  fold (opened dbPath d v).
  destruct (openDB_finish schemaInfo (opened dbPath d v)
              (_addOpens dbPath 1 w).1) as (Hf & Ho & Hres).
  assert (Hmig : _migrate v schemaInfo (opened dbPath d v)
                   (_addOpens dbPath 1 w).1 =
                 (Ok None, opened dbPath d v, (_addOpens dbPath 1 w).1)).
  { unfold _migrate.
    destruct (Nat.ltb_spec (length (migrations schemaInfo)) v); [done|].
    destruct (Nat.ltb_spec v (length (migrations schemaInfo))); [lia|done]. }
  assert (Hreg : _openPaths (_addOpens dbPath 1 w).1 !! dbPath =
                 Some (S (default 0 (_openPaths w !! dbPath)))).
  { rewrite addOpens_open. apply lookup_insert_eq. }
  destruct mode; try done.
  - rewrite Hmig.
    change (set_migrationBackupPath (opened dbPath d v) None)
      with (opened dbPath d v).
    split; [exact Hf|]. split; [|exact Hres]. by rewrite Ho.
  - rewrite Hmig.
    change (set_migrationBackupPath (opened dbPath d v) None)
      with (opened dbPath d v).
    split; [exact Hf|]. split; [|exact Hres]. by rewrite Ho.
  - destruct (Nat.ltb_spec v (length (migrations schemaInfo))); [lia|].
    split; [exact Hf|]. split; [|exact Hres]. by rewrite Ho.
Qed.

(** The callback of [_initNewDB]. *)
Definition initNewDB_callback (schemaInfo : SchemaInfo) : DBM unit :=
  do* call (create schemaInfo) in
  exec (PRAGMA_user_version (length (migrations schemaInfo))).

Lemma initNewDB_callback_result schemaInfo h :
  match (run_prog (create schemaInfo) h).1 with
  | Ok _ =>
      (initNewDB_callback schemaInfo h).1 = Ok tt /\
      contents (_db (initNewDB_callback schemaInfo h).2) =
        contents (_db (run_prog (create schemaInfo) h).2) /\
      user_version (_db (initNewDB_callback schemaInfo h).2) =
        length (migrations schemaInfo)
  | Raise e => (initNewDB_callback schemaInfo h).1 = Raise e
  end.
Proof.
  unfold initNewDB_callback, call, bind, ret, exec.
  destruct (run_prog (create schemaInfo) h) as [[v|e] h1]; simpl; done.
Qed.

(** X23.  [openDB] on a path where no file is, in a mode that creates: [create]
    runs in one transaction, followed by the statement that sets the
    version.  When [create] returns, the transaction is committed and the
    store is at the version of the schema.  When [create] throws, [openDB]
    throws the same error; the handle is not closed, so the path stays
    registered as open. *)
Theorem openDB_new_store w dbPath schemaInfo mode :
  dbPath ≠ ":memory:" -> files w !! dbPath = None ->
  mode = OPEN_CREATE \/ mode = CREATE_EXCL ->
  isEmptyD empty_db = true ->
  let created :=
    run_prog (create schemaInfo) (begun (opened dbPath empty_db 0)) in
  exists w',
    _openPaths w' !! dbPath = Some (S (default 0 (_openPaths w !! dbPath))) /\
    match created.1 with
    | Ok _ =>
        exists db, openDB dbPath schemaInfo mode w = (Ok db, w') /\
          contents (_db db) = contents (_db created.2) /\
          user_version (_db db) = length (migrations schemaInfo) /\
          saved (_db db) = None /\ _inTransaction db = false /\
          filter is_boundary (trace (_db db)) = [BEGIN; COMMIT] /\
          _migrationError db = None /\ _migrationBackupPath db = None
    | Raise e => openDB dbPath schemaInfo mode w = (Raise e, w')
    end.
Proof.
  intros Hmem Hfile Hmode Hempty created.
  set (w1 := (_addOpens dbPath 1
                (set_files w (<[dbPath := (empty_db, 0)]> (files w)))).1).
  assert (Hraw : openDBRaw dbPath mode w = (Ok (opened dbPath empty_db 0), w1)).
  { unfold openDBRaw. rewrite decide_False by done. rewrite Hfile.
    destruct Hmode as [-> | ->]; by rewrite decide_False by done. }
  exists w1. split.
  { unfold w1. rewrite addOpens_open. by rewrite lookup_insert_eq. }
  unfold openDB, openDB_with. rewrite Hraw.
  cbn [opened _db user_version contents]. rewrite Hempty.
  fold (opened dbPath empty_db 0).
  change (_initNewDB schemaInfo)
    with (execTransaction (initNewDB_callback schemaInfo)).
  destruct (execTransaction_outermost (initNewDB_callback schemaInfo)
              (opened dbPath empty_db 0)
              (txn_safe_initNewDB_callback schemaInfo) eq_refl eq_refl)
    as (h2 & Heq & H1 & H2 & _ & H3 & H4 & H5 & (l & H6 & H7) & H8).
  pose proof (initNewDB_callback_result schemaInfo
                (begun (opened dbPath empty_db 0))) as Hcb.
  fold created in Hcb. change (Nat.eqb 0 0) with true. cbn [andb].
  rewrite Heq.
  destruct (created.1) as [x|e].
  - destruct Hcb as (Hr & Hc & Hv). rewrite Hr in *. simpl in H7.
    exists h2. split; [done|]. destruct H8 as [H8 H9].
    split; [congruence|]. split; [congruence|]. split; [done|].
    split; [done|]. split; [|done].
    rewrite H6. by simpl.
  - by rewrite Hcb.
Qed.

(** ** A migration that succeeds *)

Lemma migration_callback_version schemaInfo v h :
  (migration_callback schemaInfo v h).1 = Ok tt ->
  user_version (_db (migration_callback schemaInfo v h).2) =
  length (migrations schemaInfo).
Proof.
  unfold migration_callback, bind, exec.
  destruct (migration_steps schemaInfo _ h) as [[x|e] h1]; simpl; done.
Qed.

(** X24.  [openDB] in a read-write mode on a store that exists, is not new,
    and is behind the schema, when no migration throws: a backup that holds
    the store as it was is on disk under a name that was free; the
    migrations ran in one transaction that was committed, the handle [db]
    is at the version of the schema, [VACUUM] was its last statement,
    [migrationBackupPath] names the backup and no error is recorded.  The
    schema report then runs on [db]: [openDB] returns [db], or throws what
    the report throws; the backup stays on disk in both cases. *)
Theorem openDB_migration_success w dbPath schemaInfo mode d v backupPath :
  dbPath ≠ ":memory:" ->
  files w !! dbPath = Some (d, v) ->
  mode = OPEN_CREATE \/ mode = OPEN_EXISTING ->
  (v =? 0) && isEmptyD d = false ->
  v < length (migrations schemaInfo) ->
  firstFree (files w) dbPath v 0 (S (size (files w))) = Some backupPath ->
  (migration_callback schemaInfo v (begun (opened dbPath d v))).1 = Ok tt ->
  exists db,
    user_version (_db db) = length (migrations schemaInfo) /\
    contents (_db db) =
      contents (_db (migration_callback schemaInfo v
                       (begun (opened dbPath d v))).2) /\
    saved (_db db) = None /\ _inTransaction db = false /\
    filter is_boundary (trace (_db db)) = [BEGIN; COMMIT] /\
    last (trace (_db db)) = Some VACUUM /\
    _migrationBackupPath db = Some backupPath /\
    _migrationError db = None /\
    let r := openDB dbPath schemaInfo mode w in
    files w !! backupPath = None /\
    files r.2 !! backupPath = Some (d, v) /\
    match r.1 with
    | Ok db' => db' = db
    | Raise e =>
        report_throws schemaInfo db
          (set_files (_addOpens dbPath 1 w).1
             (<[backupPath := (d, v)]> (files w))) e
    end.
Proof.
  intros Hmem Hfile Hmode Hnew Hbehind Hfree Hok.
  pose proof (firstFree_free _ _ _ _ _ _ Hfree) as Hbp.
  unfold openDB, openDB_with.
  rewrite (openDBRaw_existing dbPath mode w d v) by done.
  set (w1 := (_addOpens dbPath 1 w).1).
  assert (Hw1 : files w1 = files w) by done.
  cbn [opened _db user_version contents]. rewrite Hnew.
  fold (opened dbPath d v).
  destruct (execTransaction_outermost (migration_callback schemaInfo v)
              (opened dbPath d v)
              (txn_safe_migration_callback schemaInfo v) eq_refl eq_refl)
    as (h2 & Heq & H1 & H2 & H2' & H3 & H4 & H5 & (l & H6 & H7) & H8).
  rewrite Hok in Heq, H7, H8. destruct H8 as [H8 H9]. simpl in H6, H7.
  set (h3 := set_db h2 (mkEngine (contents (_db h2)) (user_version (_db h2))
                          None (trace (_db h2) ++ [VACUUM]))).
  assert (Hmig :
    _migrate v schemaInfo (opened dbPath d v) w1 =
    (Ok (Some backupPath), h3,
     set_files w1 (<[backupPath := (d, v)]> (files w)))).
  { unfold _migrate.
    destruct (Nat.ltb_spec (length (migrations schemaInfo)) v); [lia|].
    destruct (Nat.ltb_spec v (length (migrations schemaInfo))); [|lia].
    change (_dbPath (opened dbPath d v)) with dbPath.
    unfold createBackupFile. rewrite Hw1, Hfree. unfold bind.
    rewrite Heq. unfold run, exec. simpl. by rewrite H1. }
  set (db1 := set_migrationBackupPath h3 (Some backupPath)).
  destruct (openDB_finish schemaInfo db1
              (set_files w1 (<[backupPath := (d, v)]> (files w))))
    as (Hf & _ & Hres).
  exists db1. split.
  { unfold db1, h3. simpl. rewrite H9. by apply migration_callback_version. }
  unfold db1 at 1 2 3 4 5 6 7, h3. simpl.
  split; [done|]. split; [done|]. split; [done|]. split.
  { rewrite filter_app, H6, H7. done. }
  split; [by rewrite last_snoc|]. split; [done|]. split; [done|].
  split; [done|].
  destruct Hmode as [-> | ->]; rewrite Hmig; fold h3; fold db1;
    (split; [rewrite Hf; apply lookup_insert_eq|exact Hres]).
Qed.

(** ** [VACUUM] and transactions *)

(** What runs inside a transaction executes no statement that begins or
    ends a transaction and no [VACUUM], and keeps a request for [VACUUM]
    on record. *)
Record quiet_step (h h' : Handle) : Prop := {
  qs_flag : _inTransaction h' = true;
  qs_saved : saved (_db h') = saved (_db h);
  qs_need : _needVacuum h = true -> _needVacuum h' = true;
  qs_trace : exists l, trace (_db h') = trace (_db h) ++ l /\
    Forall (fun s => is_boundary s = false /\ s ≠ VACUUM) l;
}.

Definition quiet {A} (c : DBM A) : Prop :=
  forall h, _inTransaction h = true -> is_Some (saved (_db h)) ->
    quiet_step h (c h).2.

Lemma quiet_step_refl h : _inTransaction h = true -> quiet_step h h.
Proof.
  intros Hf. split; try done. exists []. by rewrite app_nil_r.
Qed.

Lemma quiet_step_trans h1 h2 h3 :
  quiet_step h1 h2 -> quiet_step h2 h3 -> quiet_step h1 h3.
Proof.
  intros [A1 A2 A3 (l1 & A4 & A5)] [B1 B2 B3 (l2 & B4 & B5)].
  split; [exact B1|exact (eq_trans B2 A2)|exact (fun H => B3 (A3 H))|].
  exists (l1 ++ l2). split.
  - by rewrite B4, A4, app_assoc.
  - by apply Forall_app.
Qed.

Lemma quiet_ret {A} (a : A) : quiet (ret a).
Proof. intros h Hf Hs. by apply quiet_step_refl. Qed.

Lemma quiet_throw {A} (e : Error) : quiet (@throw A e).
Proof. intros h Hf Hs. by apply quiet_step_refl. Qed.

Lemma quiet_bind {A B} (c : DBM A) (k : A -> DBM B) :
  quiet c -> (forall a, quiet (k a)) -> quiet (bind c k).
Proof.
  intros Hc Hk h Hf Hs. unfold bind.
  pose proof (Hc h Hf Hs) as H1.
  destruct (c h) as [[a|e] h1]; simpl in H1 |- *; [|exact H1].
  eapply quiet_step_trans; [exact H1|].
  apply Hk; [exact (qs_flag _ _ H1)|]. rewrite (qs_saved _ _ H1). exact Hs.
Qed.

Lemma quiet_try_catch {A} (c : DBM A) (handler : Error -> DBM A) :
  quiet c -> (forall e, quiet (handler e)) -> quiet (try_catch c handler).
Proof.
  intros Hc Hk h Hf Hs. unfold try_catch.
  pose proof (Hc h Hf Hs) as H1.
  destruct (c h) as [[a|e] h1]; simpl in H1 |- *; [done|].
  eapply quiet_step_trans; [exact H1|].
  apply Hk; [apply H1|]. by rewrite (qs_saved _ _ H1).
Qed.

Lemma quiet_exec sql :
  is_boundary sql = false -> sql ≠ VACUUM -> quiet (exec sql).
Proof.
  intros Hb Hv h Hf Hs. unfold exec.
  destruct sql as [| | | |n|st]; try done; simpl.
  - split; simpl; try done. exists [PRAGMA_user_version n].
    split; [done|]. by apply Forall_singleton.
  - destruct (st (contents (_db h))); split; simpl; try done;
      (exists [Client st]; split; [done|]; by apply Forall_singleton).
Qed.

Lemma quiet_requestVacuum : quiet requestVacuum.
Proof.
  intros h Hf Hs. unfold requestVacuum. rewrite Hf. simpl.
  split; simpl; try done. exists []. by rewrite app_nil_r.
Qed.

Lemma quiet_execTransaction {T} (c : DBM T) :
  quiet c -> quiet (execTransaction c).
Proof.
  intros Hc h Hf Hs. unfold execTransaction. rewrite Hf. by apply Hc.
Qed.

Lemma quiet_run_prog p : quiet (run_prog p).
Proof.
  induction p as [v|e|st k IH|body IHb k IHk|k IHk|body IHb handler IHh k IHk];
    simpl.
  - apply quiet_ret.
  - apply quiet_throw.
  - apply quiet_bind; [by apply quiet_exec|done].
  - apply quiet_bind; [by apply quiet_execTransaction|done].
  - apply quiet_bind; [apply quiet_requestVacuum|done].
  - apply quiet_bind; [by apply quiet_try_catch|done].
Qed.

(** X25.  An outermost transaction executes [BEGIN], then the statements of its
    body, none of which is a [VACUUM] or begins or ends a transaction, then
    [COMMIT] or [ROLLBACK], and then one [VACUUM] exactly when a request for
    it is on record at the end of the body; the request is then cleared.  A
    body that starts with [requestVacuum()] is told [false] and leaves such
    a request. *)
Theorem vacuum_after_transaction (body : Prog) (h : Handle) :
  _inTransaction h = false -> saved (_db h) = None ->
  let inner := run_prog body (begun h) in
  let after := execTransaction (run_prog body) h in
  (exists l,
     Forall (fun s => is_boundary s = false /\ s ≠ VACUUM) l /\
     trace (_db after.2) =
       trace (_db h) ++ [BEGIN] ++ l ++ [closing inner.1] ++
       (if _needVacuum inner.2 then [VACUUM] else [])) /\
  _needVacuum after.2 = false /\
  (forall k, body = RequestVacuum k ->
     inner = run_prog (k false) (set_needVacuum (begun h) true) /\
     _needVacuum inner.2 = true).
Proof.
  intros Hf Hs inner after.
  assert (Hq : quiet_step (begun h) inner.2).
  { apply quiet_run_prog; [done|]. by eexists. }
  destruct Hq as [Q1 Q2 Q3 (l & Q4 & Q5)].
  split; [|split].
  - exists l. split; [done|].
    unfold after, execTransaction. rewrite Hf.
    unfold try_finally, _execTransactionImpl, bind, try_catch, exec.
    simpl. rewrite Hs. simpl. fold (begun h). fold inner.
    destruct inner as [[v|e] h1]; simpl in Q1, Q2, Q3, Q4 |- *; rewrite Q2;
      simpl.
    + destruct (_needVacuum h1) eqn:Hv; simpl.
      * unfold requestVacuum, bind, exec. simpl.
        rewrite Q4. by rewrite <- !app_assoc.
      * rewrite Q4. by rewrite <- !app_assoc.
    + destruct (_needVacuum h1) eqn:Hv; simpl.
      * unfold requestVacuum, bind, exec. simpl.
        rewrite Q4. by rewrite <- !app_assoc.
      * rewrite Q4. by rewrite <- !app_assoc.
  - unfold after, execTransaction. rewrite Hf.
    unfold try_finally, _execTransactionImpl, bind, try_catch, exec.
    simpl. rewrite Hs. simpl. fold (begun h). fold inner.
    destruct inner as [[v|e] h1]; simpl in Q1, Q2, Q3, Q4 |- *; rewrite Q2;
      simpl.
    + destruct (_needVacuum h1) eqn:Hv; simpl; [|done].
      unfold requestVacuum, bind, exec. by simpl.
    + destruct (_needVacuum h1) eqn:Hv; simpl; [|done].
      unfold requestVacuum, bind, exec. by simpl.
  - intros k ->.
    assert (Hin : inner = run_prog (k false) (set_needVacuum (begun h) true)).
    { unfold inner. simpl. unfold bind, requestVacuum. by simpl. }
    split; [done|]. rewrite Hin.
    assert (Hq : quiet_step (set_needVacuum (begun h) true)
                   (run_prog (k false) (set_needVacuum (begun h) true)).2).
    { apply quiet_run_prog; [done|]. by eexists. }
    by apply (qs_need _ _ Hq).
Qed.

(** ** [runEach] *)

Lemma exec_trace sql h :
  trace (_db (exec sql h).2) = trace (_db h) ++ [sql].
Proof.
  unfold exec. destruct sql; simpl; try done.
  - by destruct (saved (_db h)).
  - by destruct (saved (_db h)).
  - by destruct (saved (_db h)) as [[? ?]|].
  - by destruct (saved (_db h)).
  - by destruct (s (contents (_db h))).
Qed.

(** X26.  [runEach] executes the statements in order up to and including the
    first one that fails, and throws the error of that statement; when none
    fails it executes them all. *)
Theorem runEach_spec statements h :
  exists n,
    trace (_db (runEach statements h).2) =
      trace (_db h) ++ take n statements /\
    match (runEach statements h).1 with
    | Ok _ => n = length statements
    | Raise e =>
        exists k stmt, n = S k /\ statements !! k = Some stmt /\
          (runEach (take k statements) h).1 = Ok tt /\
          (exec stmt (runEach (take k statements) h).2).1 = Raise e
    end.
Proof.
  revert h. induction statements as [|stmt rest IH]; intros h.
  { exists 0. simpl. by rewrite app_nil_r. }
  cbn [runEach]. unfold bind, try_catch, throw.
  pose proof (exec_trace stmt h) as Ht.
  destruct (exec stmt h) as [[[]|e] h1] eqn:Hex; cbn [fst snd] in *.
  - destruct (IH h1) as (n & Hn & Hres).
    exists (S n). split.
    { rewrite Hn, Ht. simpl. by rewrite <- app_assoc. }
    destruct (runEach rest h1) as [[x|e] h2]; cbn [fst snd] in *.
    + simpl. by rewrite Hres.
    + destruct Hres as (k & s & -> & Hk & Hok & Herr).
      exists (S k), s. split; [done|]. split; [done|].
      cbn [take runEach]. unfold bind, try_catch. by rewrite Hex.
  - exists 1. split; [by rewrite Ht|].
    exists 0, stmt. split; [done|]. split; [done|]. simpl.
    by rewrite Hex.
Qed.

(** ** The cache of expected metadata *)

(** X27.  When [_getExpectedMetadata] returns, the metadata that it returns
    is in the cache under the schema, no file was written, and the next call
    returns the same at once, without running [create] again.  When it
    throws, nothing is cached and no file was written. *)
Theorem getExpectedMetadata_cached schemaInfo w :
  match _getExpectedMetadata schemaInfo w with
  | (Ok expected, w1) =>
      dbMetadataCache w1 !! schema_id schemaInfo = Some expected /\
      files w1 = files w /\
      _getExpectedMetadata schemaInfo w1 = (Ok expected, w1)
  | (Raise e, w1) =>
      dbMetadataCache w1 = dbMetadataCache w /\ files w1 = files w
  end.
Proof.
  destruct (getExpectedMetadata_frame schemaInfo w) as [Hfiles _].
  unfold _getExpectedMetadata in Hfiles |- *.
  destruct (dbMetadataCache w !! schema_id schemaInfo) as [m|] eqn:Hc.
  { split; [done|]. split; [done|]. by rewrite Hc. }
  destruct (openDB_memory_frame schemaInfo w) as (_ & Hcache & _ & Hp).
  destruct (openDB_memory schemaInfo w) as [[db|e] w1];
    cbn [fst snd] in Hfiles, Hcache, Hp |- *; [|done].
  unfold collectMetadata in Hfiles |- *.
  destruct (collect_tables None _ ∅) as [m|e];
    cbn [fst snd] in Hfiles |- *; [|done].
  destruct (close_memory db
              (mkWorld (files w1) (_openPaths w1)
                 (<[schema_id schemaInfo := m]> (dbMetadataCache w1)))
              (Hp db eq_refl)) as (_ & Hc' & _).
  assert (Hin : dbMetadataCache
                  (close db
                     (mkWorld (files w1) (_openPaths w1)
                        (<[schema_id schemaInfo := m]> (dbMetadataCache w1))))
                !! schema_id schemaInfo = Some m).
  { rewrite Hc'. apply lookup_insert_eq. }
  split; [exact Hin|]. split; [exact Hfiles|]. by rewrite Hin.
Qed.

End Store.

Arguments BEGIN {D}.
Arguments COMMIT {D}.
Arguments ROLLBACK {D}.
Arguments VACUUM {D}.
Arguments PRAGMA_user_version {D} n.
Arguments Client {D} s.
Arguments contents {D} e.
Arguments user_version {D} e.
Arguments saved {D} e.
Arguments trace {D} e.
Arguments _db {D} h.
Arguments _dbPath {D} h.
Arguments _inTransaction {D} h.
Arguments _migrationBackupPath {D} h.
Arguments _migrationError {D} h.
Arguments _needVacuum {D} h.
Arguments files {D} w.
Arguments is_boundary {D} sql.
Arguments closing {D T} r.
Arguments begun {D} h.
Arguments opened {D} dbPath d v.
Arguments in_txn_step {D} s h h'.
Arguments Return {D V} v.
Arguments Throw {D V} e.
Arguments Run {D V} s k.
Arguments ExecTransaction {D V} body k.
Arguments RequestVacuum {D V} k.
Arguments TryCatch {D V} body handler k.
Arguments run_prog {D V} p.
Arguments execTransaction {D T} callback.
Arguments mkSchemaInfo {D V} schema_id create migrations.
Arguments migrations {D V} s.

(** ** A concrete store *)

(** The contents of the example database are the number of its tables; the
    database without tables is [0]. *)
Definition example_today : string := "2024-05-17".

Definition add_table (d : nat) : Result nat := Ok (S d).

Definition boom : Error := mkError None "boom".

(** The tables of the example database are named [t0], [t1], ... and have
    one column. *)
Definition example_tables (d : nat) : list (string * list (string * string)) :=
  map (fun i => ("t" +:+ pretty i, [("id", "INTEGER")])) (seq 0 d).

Definition example_world : World nat :=
  mkWorld nat {[ "doc.db" := (1, 0) ]} ∅ ∅.

(** A schema of three migrations, the second of which throws. *)
Definition example_schema : SchemaInfo nat unit :=
  mkSchemaInfo 1
    (Run add_table (Return tt))
    [ Run add_table (Return tt);
      Run add_table (Throw boom);
      Run add_table (Return tt) ].

(** The same migrations with a [create] that throws. *)
Definition example_schema_bad_create : SchemaInfo nat unit :=
  mkSchemaInfo 2 (Throw boom) (migrations example_schema).

(** [openDB] for the example store. *)
Definition example_openDB (dbPath : string) (schemaInfo : SchemaInfo nat unit)
    (mode : OpenMode) (w : World nat) : Result (Handle nat) * World nat :=
  openDB nat 0 (Nat.eqb 0) example_today unit example_tables dbPath
    schemaInfo mode w.

(** C2.  [openDB] raises although the migration failure was handled: in
    the example the store is behind the schema and the second migration
    throws, so the transaction is rolled back and the error is recorded on
    the handle; but [create] throws on the new in-memory database of the
    schema report, which [openDB] awaits outside the [try], and so [openDB]
    throws instead of returning the handle. *)
Lemma migration_failure_open_raises :
  files example_world !! "doc.db" = Some (1, 0) /\
  0 < length (migrations example_schema_bad_create) /\
  (migration_callback nat unit example_schema_bad_create 0
     (begun (opened "doc.db" 1 0))).1 = Raise boom /\
  (example_openDB "doc.db" example_schema_bad_create OPEN_EXISTING
     example_world).1 = Raise boom.
Proof.
  split; [vm_compute; reflexivity|]. split; [vm_compute; lia|].
  split; vm_compute; reflexivity.
Qed.

(** With a [create] that succeeds the same failing migration leaves an open
    handle that carries the error. *)
Lemma migration_failure_atomic_example :
  exists db,
    (example_openDB "doc.db" example_schema OPEN_EXISTING example_world).1 =
      Ok db /\
    contents (_db db) = 1 /\ user_version (_db db) = 0 /\
    saved (_db db) = None /\ _inTransaction db = false /\
    filter is_boundary (trace (_db db)) = [BEGIN; ROLLBACK] /\
    _migrationError db = Some (migration_failed "doc.db" 3 boom) /\
    _migrationBackupPath db = None /\
    files (example_openDB "doc.db" example_schema OPEN_EXISTING
             example_world).2 = files example_world.
Proof.
  pose proof (migration_failure_atomic nat 0 (Nat.eqb 0) example_today unit
                example_tables example_world "doc.db" example_schema
                OPEN_EXISTING 1 0 "doc.db.2024-05-17.V0.bak" boom) as H.
  destruct H as (db & H1 & H2 & H3 & H4 & H5 & H6 & H7 & H8).
  - discriminate.
  - vm_compute. reflexivity.
  - right. reflexivity.
  - reflexivity.
  - vm_compute. lia.
  - vm_compute. reflexivity.
  - vm_compute. reflexivity.
  - cbv zeta in H8. destruct H8 as (H8 & _ & H9).
    exists db. split.
    { unfold example_openDB.
      assert (E : exists db',
                (openDB nat 0 (Nat.eqb 0) example_today unit example_tables
                   "doc.db" example_schema OPEN_EXISTING example_world).1 =
                Ok db') by (vm_compute; eexists; reflexivity).
      destruct E as [db' E]. rewrite E in H9 |- *. exact (f_equal Ok H9). }
    split; [exact H1|]. split; [exact H2|]. split; [exact H3|].
    split; [exact H4|]. split; [exact H5|]. split; [exact H6|].
    split; [exact H7|]. exact H8.
Qed.

(** A store given by the names of its tables, each with one column. *)
Definition named_tables (d : list string)
    : list (string * list (string * string)) :=
  map (fun name => (name, [("id", "INTEGER")])) d.

Definition create_table (name : string) (d : list string)
    : Result (list string) :=
  Ok (d ++ [name]).

(** A schema whose table has a name that [quoteIdent] refuses, and a store
    that is at the version of this schema. *)
Definition example_schema_spaced : SchemaInfo (list string) unit :=
  mkSchemaInfo 4
    (Run (create_table "my table") (Return tt))
    [ Run (create_table "my table") (Return tt) ].

Definition example_world_spaced : World (list string) :=
  mkWorld (list string) {[ "doc.db" := (["my table"], 1) ]} ∅ ∅.

(** On this store nothing is to migrate and [create] succeeds, and still
    [openDB] throws: [collectMetadata] of the schema report runs
    [quoteIdent] on the name of the table.  Nothing is cached, and both the
    store and the in-memory database stay registered as open. *)
Lemma openDB_table_name_raises :
  let r := openDB (list string) [] (fun d => bool_decide (d = []))
             example_today unit named_tables "doc.db" example_schema_spaced
             OPEN_EXISTING example_world_spaced in
  r.1 = Raise (mkError (Some "ERR_ASSERTION")
                 "SQL identifier is not valid: my table") /\
  dbMetadataCache (list string) r.2 = ∅ /\
  _openPaths (list string) r.2 !! "doc.db" = Some 1 /\
  _openPaths (list string) r.2 !! ":memory:" = Some 1.
Proof. vm_compute. repeat split; reflexivity. Qed.

(** A body that writes, then calls [execTransaction] again with a body that
    writes and throws. *)
Definition example_body : Prog nat unit :=
  Run add_table
    (ExecTransaction (Run add_table (Throw boom)) (fun _ => Return tt)).

Definition example_handle : Handle nat := opened "doc.db" 1 0.

Lemma nested_transactions_merge_witness :
  (let h := begun example_handle in
   execTransaction (run_prog example_body) h = run_prog example_body h /\
   in_txn_step (1, 0) h (run_prog example_body h).2) /\
  (let h := example_handle in
   exists h2,
     execTransaction (run_prog example_body) h =
       ((run_prog example_body (begun h)).1, h2) /\
     saved (_db h2) = None /\ _inTransaction h2 = false /\
     (exists l, trace (_db h2) = trace (_db h) ++ l /\
        filter is_boundary l =
          [BEGIN; closing (run_prog example_body (begun h)).1]) /\
     match (run_prog example_body (begun h)).1 with
     | Ok _ =>
         contents (_db h2) =
           contents (_db (run_prog example_body (begun h)).2) /\
         user_version (_db h2) =
           user_version (_db (run_prog example_body (begun h)).2)
     | Raise _ =>
         contents (_db h2) = contents (_db h) /\
         user_version (_db h2) = user_version (_db h)
     end).
Proof.
  split.
  - apply (nested_transactions_merge nat unit example_body
             (begun example_handle)); reflexivity.
  - apply (nested_transactions_merge nat unit example_body example_handle);
      reflexivity.
Defined.

(** In the example the nested body throws: everything is rolled back. *)
Lemma example_body_rolls_back :
  let r := execTransaction (run_prog example_body) example_handle in
  r.1 = Raise boom /\ contents (_db r.2) = 1 /\
  trace (_db r.2) = [BEGIN; Client add_table; Client add_table; ROLLBACK].
Proof. vm_compute. done. Qed.

(** * Properties of [quoteIdent] *)

(** The number of double quotes in a string. *)
Fixpoint count_dquotes (s : string) : nat :=
  match s with
  | EmptyString => 0
  | String c rest =>
      (if Ascii.eqb c dquote_char then 1 else 0) + count_dquotes rest
  end.

Lemma is_word_char_not_dquote c :
  is_word_char c = true -> Ascii.eqb c dquote_char = false.
Proof.
  intros H. destruct (Ascii.eqb_spec c dquote_char) as [->|]; [|done].
  vm_compute in H. discriminate.
Qed.

Lemma count_dquotes_app s1 s2 :
  count_dquotes (s1 +:+ s2) = count_dquotes s1 + count_dquotes s2.
Proof.
  induction s1 as [|c s1 IH]; [done|].
  change (String c s1 +:+ s2) with (String c (s1 +:+ s2)).
  cbn [count_dquotes]. rewrite IH. lia.
Qed.

Lemma string_length_app s1 s2 :
  String.length (s1 +:+ s2) = String.length s1 + String.length s2.
Proof.
  induction s1 as [|c s1 IH]; [done|].
  change (String c s1 +:+ s2) with (String c (s1 +:+ s2)).
  cbn [String.length]. by rewrite IH.
Qed.

Lemma all_word_chars_no_dquote s :
  all_word_chars s = true -> count_dquotes s = 0.
Proof.
  induction s as [|c s IH]; [done|]. cbn [all_word_chars count_dquotes].
  intros [Hc Hs]%andb_true_iff.
  rewrite (is_word_char_not_dquote c Hc). by rewrite IH.
Qed.

(** X28.  [quoteIdent] returns exactly for the names that are not empty and made
    of ASCII letters, digits and underscores; what it returns is the name
    between two double quotes, and these two are the only double quotes in
    it.  For every other name it throws, with a message that ends in the
    name. *)
Theorem quoteIdent_spec ident :
  match quoteIdent ident with
  | Ok q =>
      ident <> EmptyString /\ all_word_chars ident = true /\
      q = dquote +:+ ident +:+ dquote /\
      count_dquotes q = 2 /\ String.length q = 2 + String.length ident
  | Raise e =>
      (ident = EmptyString \/ all_word_chars ident = false) /\
      message e = "SQL identifier is not valid: " +:+ ident
  end.
Proof.
  unfold quoteIdent, is_identifier.
  destruct ident as [|c rest].
  { split; [by left|done]. }
  destruct (all_word_chars (String c rest)) eqn:Hw.
  - split; [done|]. split; [done|]. split; [done|]. split.
    + rewrite !count_dquotes_app.
      rewrite (all_word_chars_no_dquote _ Hw). done.
    + rewrite !string_length_app. simpl. lia.
  - split; [by right|done].
Qed.

(** ** Witnesses for the concrete store *)

(** A schema of two migrations that succeed. *)
Definition example_schema_good : SchemaInfo nat unit :=
  mkSchemaInfo 3
    (Run add_table (Return tt))
    [ Run add_table (Return tt); Run add_table (Return tt) ].

(** A world whose store is at the version of [example_schema]. *)
Definition example_world_current : World nat :=
  mkWorld nat {[ "doc.db" := (3, 3) ]} ∅ ∅.

(** A body that asks for a [VACUUM] and writes. *)
Definition example_body_vacuum : Prog nat unit :=
  RequestVacuum (fun _ => Run add_table (Return tt)).

Lemma example_world_opens_ok : opens_ok nat example_world.
Proof. intros p n H. vm_compute in H. discriminate. Defined.

Lemma getMigrationVersion_static_spec_witness :
  getMigrationVersion_static nat 0 "doc.db" example_world =
  (Ok 0, example_world).
Proof.
  apply (getMigrationVersion_static_spec nat 0 "doc.db" example_world).
  - discriminate.
  - exact example_world_opens_ok.
Defined.

Lemma openDB_create_excl_exists_witness :
  example_openDB "doc.db" example_schema CREATE_EXCL example_world =
  (Raise (mkError (Some "EEXISTS")
            "EEXISTS: Database already exists: doc.db"), example_world).
Proof.
  apply (openDB_create_excl_exists nat 0 (Nat.eqb 0) example_today unit
           example_tables example_world "doc.db" example_schema 1 0).
  - discriminate.
  - exact example_world_opens_ok.
  - vm_compute. reflexivity.
  - reflexivity.
Defined.

Lemma openDB_readonly_witness :
  let r := example_openDB "doc.db" example_schema OPEN_READONLY
             example_world in
  files r.2 = files example_world /\
  _openPaths nat r.2 !! "doc.db" = Some 1 /\
  r.1 = Ok (set_migrationError nat (opened "doc.db" 1 0)
              (Some (mkError None
                       "SQLiteDB[doc.db] needs migration but is readonly"))).
Proof.
  pose proof (openDB_readonly nat 0 (Nat.eqb 0) example_today unit
                example_tables example_world "doc.db" example_schema 1 0)
    as H.
  destruct H as (H1 & H2 & _).
  - discriminate.
  - vm_compute. reflexivity.
  - reflexivity.
  - split; [exact H1|]. split; [exact H2|]. vm_compute. reflexivity.
Defined.

Lemma openDB_no_migration_witness :
  let r := example_openDB "doc.db" example_schema OPEN_EXISTING
             example_world_current in
  files r.2 = files example_world_current /\
  _openPaths nat r.2 !! "doc.db" = Some 1 /\
  r.1 = Ok (opened "doc.db" 3 3).
Proof.
  pose proof (openDB_no_migration nat 0 (Nat.eqb 0) example_today unit
                example_tables example_world_current "doc.db" example_schema
                OPEN_EXISTING 3 3) as H.
  destruct H as (H1 & H2 & _).
  - discriminate.
  - vm_compute. reflexivity.
  - discriminate.
  - reflexivity.
  - vm_compute. lia.
  - split; [exact H1|]. split; [exact H2|]. vm_compute. reflexivity.
Defined.

Lemma openDB_new_store_witness :
  exists w',
    _openPaths nat w' !! "new.db" = Some 1 /\
    exists db,
      example_openDB "new.db" example_schema OPEN_CREATE example_world =
        (Ok db, w') /\
      contents (_db db) = 1 /\ user_version (_db db) = 3 /\
      saved (_db db) = None /\ _inTransaction db = false /\
      filter is_boundary (trace (_db db)) = [BEGIN; COMMIT] /\
      _migrationError db = None /\ _migrationBackupPath db = None.
Proof.
  apply (openDB_new_store nat 0 (Nat.eqb 0) example_today unit
           example_tables example_world "new.db" example_schema OPEN_CREATE).
  - discriminate.
  - vm_compute. reflexivity.
  - left. reflexivity.
  - reflexivity.
Defined.

(** With a [create] that throws, [openDB] throws and "new.db" stays
    registered. *)
Lemma openDB_new_store_create_throws :
  exists w',
    example_openDB "new.db" example_schema_bad_create OPEN_CREATE
      example_world = (Raise boom, w') /\
    _openPaths nat w' !! "new.db" = Some 1.
Proof. eexists. split; vm_compute; reflexivity. Qed.

Lemma openDB_migration_success_witness :
  let r := example_openDB "doc.db" example_schema_good OPEN_EXISTING
             example_world in
  exists db,
    r.1 = Ok db /\
    user_version (_db db) = 2 /\ contents (_db db) = 3 /\
    saved (_db db) = None /\ _inTransaction db = false /\
    filter is_boundary (trace (_db db)) = [BEGIN; COMMIT] /\
    last (trace (_db db)) = Some VACUUM /\
    _migrationBackupPath db = Some "doc.db.2024-05-17.V0.bak" /\
    _migrationError db = None /\
    files example_world !! "doc.db.2024-05-17.V0.bak" = None /\
    files r.2 !! "doc.db.2024-05-17.V0.bak" = Some (1, 0).
Proof.
  pose proof (openDB_migration_success nat 0 (Nat.eqb 0) example_today unit
                example_tables example_world "doc.db" example_schema_good
                OPEN_EXISTING 1 0 "doc.db.2024-05-17.V0.bak") as H.
  destruct H as (db & H1 & H2 & H3 & H4 & H5 & H6 & H7 & H8 & H9).
  - discriminate.
  - vm_compute. reflexivity.
  - right. reflexivity.
  - reflexivity.
  - vm_compute. lia.
  - vm_compute. reflexivity.
  - vm_compute. reflexivity.
  - cbv zeta in H9 |- *. destruct H9 as (H9 & H10 & H11).
    exists db.
    split; [|split; [exact H1|split; [exact H2|split; [exact H3|
      split; [exact H4|split; [exact H5|split; [exact H6|split; [exact H7|
      split; [exact H8|split; [exact H9|exact H10]]]]]]]]]].
    unfold example_openDB.
    assert (E : exists db',
              (openDB nat 0 (Nat.eqb 0) example_today unit example_tables
                 "doc.db" example_schema_good OPEN_EXISTING example_world).1 =
              Ok db') by (vm_compute; eexists; reflexivity).
    destruct E as [db' E]. rewrite E in H11 |- *. exact (f_equal Ok H11).
Defined.

Lemma vacuum_after_transaction_witness :
  let h := example_handle in
  let inner := run_prog example_body_vacuum (begun h) in
  let after := execTransaction (run_prog example_body_vacuum) h in
  (exists l,
     Forall (fun s => is_boundary s = false /\ s <> VACUUM) l /\
     trace (_db after.2) =
       trace (_db h) ++ [BEGIN] ++ l ++ [closing inner.1] ++
       (if _needVacuum inner.2 then [VACUUM] else [])) /\
  _needVacuum after.2 = false /\
  (forall k, example_body_vacuum = RequestVacuum k ->
     inner = run_prog (k false) (SQLiteDB.set_needVacuum nat (begun h) true) /\
     _needVacuum inner.2 = true).
Proof.
  apply (vacuum_after_transaction nat unit example_body_vacuum
           example_handle); reflexivity.
Defined.

(** In the example the [VACUUM] that the body asked for runs after the
    [COMMIT]. *)
Lemma example_body_vacuum_trace :
  trace (_db (execTransaction (run_prog example_body_vacuum)
                example_handle).2) =
  [BEGIN; Client add_table; COMMIT; VACUUM].
Proof. vm_compute. reflexivity. Qed.

End SQLiteDB.
